(** * Selement: the simulation core, embedded and verified

    The Python modules [biome], [utility], [entities], [player] and [world]
    are translated function by function.  Python floats are read as exact
    rationals ([Q]); Python ints are [Z].  The square root and the rounding
    of [utility.distance] and of the float additions of the chunk ring
    are the float library's ([PyFloat]).
    A Python exception is [None] in the [option] monad.  The millisecond
    clock [pygame.time.get_ticks()] is an argument [now], read once per
    call from the frame loop.  Sounds, particles and camera shake do not
    feed back into the simulated state and are left out. *)

From Stdlib Require Import ZArith QArith Qround Qabs Lia Lqa List Bool String.
From stdpp Require Import base option list gmap pretty strings.

#[local] Open Scope Z_scope.

(** ** Numbers *)

(** Python's [int(x)] on a float: truncation toward zero. *)
Definition int (q : Q) : Z := Z.quot (Qnum q) (Zpos (Qden q)).

(** Python's [math.floor]. *)
Definition floor (q : Q) : Z := Qfloor q.

(** Python's true division; [None] is [ZeroDivisionError]. *)
Definition true_div (a b : Q) : option Q :=
  if Qeq_bool b 0 then None else Some (a / b)%Q.

Definition Qltb (a b : Q) : bool := negb (Qle_bool b a).

(** [getattr(obj, name, default)]. *)
Definition getattr {A} (field : option A) (default : A) : A :=
  match field with Some v => v | None => default end.

#[export] Instance Q_eq_dec : EqDecision Q.
Proof. solve_decision. Defined.

(** A float that may be [float("inf")]. *)
Inductive Float := fin (q : Q) | inf.

#[export] Instance Float_eq_dec : EqDecision Float.
Proof. solve_decision. Defined.

(** ** utility.py *)

(** Floating point.  A float is read as the rational it denotes.  Where
    a result depends on how an operation rounds, the operation goes
    through [fl], the float nearest to the exact value; [math.sqrt] is
    the library's.  Nothing is assumed of either. *)
Class PyFloat := {
  fl : Q -> Q;
  math_sqrt : Q -> Q;
}.

(** [distance]: [math.sqrt((x2 - x1) ** 2 + (y2 - y1) ** 2)], each
    operation rounded. *)
Definition distance `{PyFloat} (x1 y1 x2 y2 : Q) : Q :=
  let dx := fl (x2 - x1)%Q in
  let dy := fl (y2 - y1)%Q in
  math_sqrt (fl (fl (dx * dx) + fl (dy * dy))%Q).

(** [distance(x1, y1, x2, y2) < r] *)
Definition distance_lt `{PyFloat} (x1 y1 x2 y2 : Q) (r : Float) : bool :=
  match r with
  | inf => true
  | fin r => Qltb (distance x1 y1 x2 y2) r
  end.

(** [distance(x1, y1, x2, y2) > r] *)
Definition distance_gt `{PyFloat} (x1 y1 x2 y2 r : Q) : bool :=
  Qltb r (distance x1 y1 x2 y2).

(** A [pygame.Surface], described by how it was obtained. *)
Inductive Surface :=
| Image (name : string)
| Frame (name : string) (index : nat)
| flip (s : Surface)
| rotate (s : Surface) (angle : Q)
| scale (s : Surface) (w h : Q).

#[export] Instance Surface_eq_dec : EqDecision Surface.
Proof. solve_decision. Defined.

Module TimeKeeper.
Record t := mk { duration : option Q; start_time : Z }.

Definition init (now : Z) (duration : option Q) : t :=
  {| duration := duration; start_time := now |}.

Definition is_finished (now : Z) (self : t) : bool :=
  match duration self with
  | None => true
  | Some d => Qle_bool d (inject_Z (now - start_time self) / 1000)
  end.

Definition reset (now : Z) (self : t) : t :=
  {| duration := duration self; start_time := now |}.

Definition elapsed_time (now : Z) (self : t) : Q :=
  (inject_Z (now - start_time self) / 1000)%Q.
End TimeKeeper.

#[export] Instance TimeKeeper_eq_dec : EqDecision TimeKeeper.t.
Proof. solve_decision. Defined.

Module Animation.
(** [frames] is never empty: the constructor reads [frames[0]]. *)
Record t := mk {
  first_frame : Surface;
  more_frames : list Surface;
  current_frame_index : Z;
  fps : Q;
  stopwatch : TimeKeeper.t;
}.

Definition frames (self : t) : list Surface := first_frame self :: more_frames self.

Definition init (now : Z) (first : Surface) (more : list Surface) (fps : Q) : t :=
  {| first_frame := first; more_frames := more; current_frame_index := 0;
     fps := if Qeq_bool fps 0 then 0%Q else (1 / fps)%Q;
     stopwatch := TimeKeeper.init now None |}.

Definition update (now : Z) (self : t) : t * Surface :=
  let duration := TimeKeeper.elapsed_time now (stopwatch self) in
  let past_frames := if Qeq_bool (fps self) 0 then 0 else int (duration / fps self) in
  let index := past_frames mod Z.of_nat (length (frames self)) in
  ({| first_frame := first_frame self; more_frames := more_frames self;
      current_frame_index := index; fps := fps self;
      stopwatch := stopwatch self |},
   nth (Z.to_nat index) (frames self) (first_frame self)).
End Animation.

#[export] Instance Animation_eq_dec : EqDecision Animation.t.
Proof. solve_decision. Defined.

Inductive ColliderType := mask_collider | circle_collider.

#[export] Instance ColliderType_eq_dec : EqDecision ColliderType.
Proof. solve_decision. Defined.

(** The [data] argument of a collider: a surface or a radius. *)
Inductive ColliderData := surface_data (s : Surface) | radius_data (r : Q).

#[export] Instance ColliderData_eq_dec : EqDecision ColliderData.
Proof. solve_decision. Defined.

Definition circle_surface (r : Q) : Surface :=
  scale (Image "circle") (r * 2) (r * 2).

Module Collider.
(** [mask] and [rect] are functions of [surface], the position and the
    pivot, so they are not stored. *)
Record t := mk {
  x : Q;
  y : Q;
  data : ColliderData;
  center_pivot : bool;
  type : ColliderType;
  surface : Surface;
}.

Definition init (x y : Q) (data : ColliderData) (center_pivot : bool) : t :=
  match data with
  | surface_data s =>
      {| x := x; y := y; data := data; center_pivot := center_pivot;
         type := mask_collider; surface := s |}
  | radius_data r =>
      {| x := x; y := y; data := data; center_pivot := center_pivot;
         type := circle_collider; surface := circle_surface r |}
  end.

(** A circle collider regenerates its surface from [data * 2]; when
    [data] is a surface that product raises [TypeError]. *)
Definition update (self : t) (x y : Q) (data : ColliderData) : option t :=
  match type self with
  | circle_collider =>
      match data with
      | radius_data r =>
          Some {| x := x; y := y; data := data; center_pivot := center_pivot self;
                  type := circle_collider; surface := circle_surface r |}
      | surface_data _ => None
      end
  | mask_collider =>
      Some {| x := x; y := y; data := data; center_pivot := center_pivot self;
              type := mask_collider; surface := surface self |}
  end.
End Collider.

#[export] Instance Collider_eq_dec : EqDecision Collider.t.
Proof. solve_decision. Defined.

(** ** External libraries *)

(** pygame's geometry, taken as given: the rectangle test and pixel-mask
    overlap behind [Collider.collide], [Vector2.move_towards] and
    [Vector2.from_polar]; and [math.degrees(math.atan2(dy, dx))]. *)
Class Pygame := {
  colliderect : Collider.t -> Collider.t -> bool;
  mask_overlap : Collider.t -> Collider.t -> option (Z * Z);
  move_towards : Q * Q -> Q * Q -> Q -> Q * Q;
  from_polar : Q -> Q -> Q * Q;
  degrees_atan2 : Q -> Q -> Q;
}.

Definition Collider_collide `{Pygame} (self collider : Collider.t) : option (Z * Z) :=
  if negb (colliderect self collider) then None
  else mask_overlap self collider.

(** An [OpenSimplex] object is determined by its seed; [noise2] is the
    library's coherent noise. *)
Record OpenSimplex := { os_seed : Z }.

#[export] Instance OpenSimplex_eq_dec : EqDecision OpenSimplex.
Proof. solve_decision. Defined.

Class OpenSimplexLib := noise2 : OpenSimplex -> Q -> Q -> Q.

(** Python's [random] module: a generator state, re-seeding from a string
    or an int,
    [random()] and the internal [_randbelow(n)] from which [choice],
    [randint] and [uniform] are derived as in CPython. *)
Class RandomLib := {
  RandomState : Type;
  random_seed : string -> RandomState;
  random_seed_int : Z -> RandomState;
  random_random : RandomState -> Q * RandomState;
  random_randbelow : Z -> RandomState -> Z * RandomState;
}.

(** The animations' frame lists [assets.Image.<name>], as loaded from disk;
    every list has a first frame. *)
Class Assets := image_frames : string -> Surface * list Surface.

(** ** biome.py *)

Module Biome.
Inductive t := fire | water | dirt | air | fifth_biome.
End Biome.

#[export] Instance Biome_eq_dec : EqDecision Biome.t.
Proof. solve_decision. Defined.

Definition DEFAULT_BIOME_WHEN_NOISE_MISSING : Biome.t := Biome.fifth_biome.

(** The attributes [get_biome] reads from its duck-typed [world] argument.
    An absent attribute is [None]: [hasattr] fails on it and [getattr]
    falls back to its default.  [tile_size] is read unconditionally once
    both generators are present. *)
Record WorldAttrs := {
  temp_noise_generator : option OpenSimplex;
  moist_noise_generator : option OpenSimplex;
  tile_size : Z;
  offset1 : option Q;
  offset2 : option Q;
  offset3 : option Q;
  offset4 : option Q;
  biome_size : option Z;
}.

Section BiomeModule.
Context `{OpenSimplexLib}.

(** [math.floor(c / tile_size) * tile_size + tile_size // 2] *)
Definition centered (tile_size : Z) (c : Q) : option Z :=
  q ← true_div c (inject_Z tile_size);
  Some (floor q * tile_size + tile_size / 2).

(** [(centered + getattr(world, offset, 0)) / getattr(world, "biome_size", 1)] *)
Definition noise_coord (world : WorldAttrs) (c : Z) (off : option Q) : option Q :=
  true_div (inject_Z c + getattr off 0)%Q (inject_Z (getattr (biome_size world) 1)).

Definition get_biome (world : WorldAttrs) (x y : Q) : option Biome.t :=
  match temp_noise_generator world, moist_noise_generator world with
  | Some temp_gen, Some moist_gen =>
      centered_x ← centered (tile_size world) x;
      centered_y ← centered (tile_size world) y;
      tx ← noise_coord world centered_x (offset1 world);
      ty ← noise_coord world centered_y (offset2 world);
      let temp := noise2 temp_gen tx ty in
      mx ← noise_coord world centered_x (offset3 world);
      my ← noise_coord world centered_y (offset4 world);
      let moist := noise2 moist_gen mx my in
      if Qltb 0 temp then
        if Qltb 0 moist then Some Biome.air else Some Biome.fire
      else
        if Qltb 0 moist then Some Biome.water else Some Biome.dirt
  | _, _ => Some DEFAULT_BIOME_WHEN_NOISE_MISSING
  end.
End BiomeModule.

(** ** entities.py: the classes' data *)

Definition DEFAULT_COLLIDER_RADIUS : Q := 32.
Definition BOSS_MINION_OFFSET : Q := 200.

Module Entity.
(** [collider] is [Some] for an [InteractableEntity]. *)
Record t := mk {
  x : Q;
  y : Q;
  image : option Surface;
  name : string;
  center_pivot : bool;
  do_not_arrange : bool;
  collider : option Collider.t;
}.

Definition init (x y : Q) (image : option Surface) (name : string) : t :=
  {| x := x; y := y; image := image; name := name;
     center_pivot := false; do_not_arrange := false; collider := None |}.
End Entity.

#[export] Instance Entity_eq_dec : EqDecision Entity.t.
Proof. solve_decision. Defined.

Definition InteractableEntity (x y : Q) (image : option Surface) (name : string)
    (collider_radius : Q) : Entity.t :=
  {| Entity.x := x; Entity.y := y; Entity.image := image; Entity.name := name;
     Entity.center_pivot := false; Entity.do_not_arrange := false;
     Entity.collider := Some (Collider.init x y (radius_data collider_radius) false) |}.

Module MobState.
Inductive t :=
  idle | chase | attack_startup | attack_execute | attack_recovery | attack_again.
End MobState.

#[export] Instance MobState_eq_dec : EqDecision MobState.t.
Proof. solve_decision. Defined.

Module BossSelfState.
Inductive t := projectile | wave | summon_minions.
End BossSelfState.

#[export] Instance BossSelfState_eq_dec : EqDecision BossSelfState.t.
Proof. solve_decision. Defined.

Module Projectile.
Record t := mk {
  origin_x : Q;
  origin_y : Q;
  vel : Q;
  angle : Q;
  damage : Q;
  shoot_distance : Q;
  x : Q;
  y : Q;
  image : option Surface;
  name : string;
  collider : Collider.t;
  alive : bool;
}.

Definition init (x y : Q) (name : string) (vel angle : Q) (image : option Surface)
    (damage shoot_distance : Q) : t :=
  let rotated_image :=
    match image with Some i => Some (rotate i (360 - angle)) | None => None end in
  {| origin_x := x; origin_y := y; vel := vel; angle := angle; damage := damage;
     shoot_distance := shoot_distance; x := x; y := y; image := rotated_image;
     name := name;
     collider :=
       match rotated_image with
       | Some i => Collider.init x y (surface_data i) false
       | None => Collider.init x y (radius_data DEFAULT_COLLIDER_RADIUS) false
       end;
     alive := true |}.
End Projectile.

#[export] Instance Projectile_eq_dec : EqDecision Projectile.t.
Proof. solve_decision. Defined.

Module ShockWave.
Record t := mk {
  x : Q;
  y : Q;
  image : Surface;
  name : string;
  origin_image : Surface;
  vel : Q;
  damage : Q;
  wave_distance : Q;
  wave_max_distance : Q;
  collider : Collider.t;
  attack_speed : Q;
  timer : TimeKeeper.t;
  alive : bool;
}.

Definition image_size (wave_distance : Q) : Q :=
  inject_Z (Z.max 1 (int (wave_distance * 2))).

Definition init (now : Z) (x y : Q) (name : string) (vel : Q) (image : Surface)
    (damage wave_max_distance : Q) : t :=
  {| x := x; y := y;
     image := scale image (image_size 0) (image_size 0);
     name := name; origin_image := image; vel := vel; damage := damage;
     wave_distance := 0; wave_max_distance := wave_max_distance;
     collider := Collider.init x y (radius_data 0) true;
     attack_speed := 1 # 10;
     timer := TimeKeeper.init now (Some (1 # 10));
     alive := true |}.
End ShockWave.

#[export] Instance ShockWave_eq_dec : EqDecision ShockWave.t.
Proof. solve_decision. Defined.

(** What the attack pools hold.  [hasattr(attack, "timer")] holds of a
    [ShockWave] only; [isinstance(attack, Projectile)] of a [Projectile]
    only ([ShockWave] derives from [Entity]). *)
Inductive Attack := AProjectile (p : Projectile.t) | AShockWave (s : ShockWave.t).

#[export] Instance Attack_eq_dec : EqDecision Attack.
Proof. solve_decision. Defined.

(** The class of a mob object; the boss carries its own attributes. *)
Inductive MobClass :=
| cMob | cBurster | cBiter | cFlutterer | cPlower
| cBossSelf (next_attack : BossSelfState.t) (start : bool)
            (attack_change_timer : TimeKeeper.t).

#[export] Instance MobClass_eq_dec : EqDecision MobClass.
Proof. solve_decision. Defined.

Module Mob.
(** [speeds] is the triple (ground, water, air).  The boss is built with
    [(None, 0, 0)]; its [None] is overwritten by [BossSelf.update] before
    anything reads it and is held here as [0]. *)
Record t := mk {
  x : Q;
  y : Q;
  image : option Surface;
  name : string;
  original_image : option Surface;
  view : Float;
  attack_distance : option Q;
  speeds : Q * Q * Q;
  speed : Q;
  hp : Q;
  collider : Collider.t;
  attack_startup : Q;
  attack_recovery : option Q;
  attack_animation : option Animation.t;
  move_while_attack : bool;
  attack_startup_timer : TimeKeeper.t;
  attack_recovery_timer : TimeKeeper.t;
  detect_player : bool;
  attack_possible : bool;
  state : MobState.t;
  last_state : MobState.t;
  alive : bool;
  class : MobClass;
}.

Definition set_x v (self : t) : t :=
  mk v (y self) (image self) (name self) (original_image self) (view self)
    (attack_distance self) (speeds self) (speed self) (hp self)
    (collider self) (attack_startup self) (attack_recovery self)
    (attack_animation self) (move_while_attack self)
    (attack_startup_timer self) (attack_recovery_timer self)
    (detect_player self) (attack_possible self) (state self) (last_state self)
    (alive self) (class self).

Definition set_y v (self : t) : t :=
  mk (x self) v (image self) (name self) (original_image self) (view self)
    (attack_distance self) (speeds self) (speed self) (hp self)
    (collider self) (attack_startup self) (attack_recovery self)
    (attack_animation self) (move_while_attack self)
    (attack_startup_timer self) (attack_recovery_timer self)
    (detect_player self) (attack_possible self) (state self) (last_state self)
    (alive self) (class self).

Definition set_image v (self : t) : t :=
  mk (x self) (y self) v (name self) (original_image self) (view self)
    (attack_distance self) (speeds self) (speed self) (hp self)
    (collider self) (attack_startup self) (attack_recovery self)
    (attack_animation self) (move_while_attack self)
    (attack_startup_timer self) (attack_recovery_timer self)
    (detect_player self) (attack_possible self) (state self) (last_state self)
    (alive self) (class self).

Definition set_attack_distance v (self : t) : t :=
  mk (x self) (y self) (image self) (name self) (original_image self)
    (view self) v (speeds self) (speed self) (hp self) (collider self)
    (attack_startup self) (attack_recovery self) (attack_animation self)
    (move_while_attack self) (attack_startup_timer self)
    (attack_recovery_timer self) (detect_player self) (attack_possible self)
    (state self) (last_state self) (alive self) (class self).

Definition set_speeds v (self : t) : t :=
  mk (x self) (y self) (image self) (name self) (original_image self)
    (view self) (attack_distance self) v (speed self) (hp self)
    (collider self) (attack_startup self) (attack_recovery self)
    (attack_animation self) (move_while_attack self)
    (attack_startup_timer self) (attack_recovery_timer self)
    (detect_player self) (attack_possible self) (state self) (last_state self)
    (alive self) (class self).

Definition set_speed v (self : t) : t :=
  mk (x self) (y self) (image self) (name self) (original_image self)
    (view self) (attack_distance self) (speeds self) v (hp self)
    (collider self) (attack_startup self) (attack_recovery self)
    (attack_animation self) (move_while_attack self)
    (attack_startup_timer self) (attack_recovery_timer self)
    (detect_player self) (attack_possible self) (state self) (last_state self)
    (alive self) (class self).

Definition set_hp v (self : t) : t :=
  mk (x self) (y self) (image self) (name self) (original_image self)
    (view self) (attack_distance self) (speeds self) (speed self) v
    (collider self) (attack_startup self) (attack_recovery self)
    (attack_animation self) (move_while_attack self)
    (attack_startup_timer self) (attack_recovery_timer self)
    (detect_player self) (attack_possible self) (state self) (last_state self)
    (alive self) (class self).

Definition set_collider v (self : t) : t :=
  mk (x self) (y self) (image self) (name self) (original_image self)
    (view self) (attack_distance self) (speeds self) (speed self) (hp self) v
    (attack_startup self) (attack_recovery self) (attack_animation self)
    (move_while_attack self) (attack_startup_timer self)
    (attack_recovery_timer self) (detect_player self) (attack_possible self)
    (state self) (last_state self) (alive self) (class self).

Definition set_attack_recovery v (self : t) : t :=
  mk (x self) (y self) (image self) (name self) (original_image self)
    (view self) (attack_distance self) (speeds self) (speed self) (hp self)
    (collider self) (attack_startup self) v (attack_animation self)
    (move_while_attack self) (attack_startup_timer self)
    (attack_recovery_timer self) (detect_player self) (attack_possible self)
    (state self) (last_state self) (alive self) (class self).

Definition set_attack_animation v (self : t) : t :=
  mk (x self) (y self) (image self) (name self) (original_image self)
    (view self) (attack_distance self) (speeds self) (speed self) (hp self)
    (collider self) (attack_startup self) (attack_recovery self) v
    (move_while_attack self) (attack_startup_timer self)
    (attack_recovery_timer self) (detect_player self) (attack_possible self)
    (state self) (last_state self) (alive self) (class self).

Definition set_attack_startup_timer v (self : t) : t :=
  mk (x self) (y self) (image self) (name self) (original_image self)
    (view self) (attack_distance self) (speeds self) (speed self) (hp self)
    (collider self) (attack_startup self) (attack_recovery self)
    (attack_animation self) (move_while_attack self) v
    (attack_recovery_timer self) (detect_player self) (attack_possible self)
    (state self) (last_state self) (alive self) (class self).

Definition set_attack_recovery_timer v (self : t) : t :=
  mk (x self) (y self) (image self) (name self) (original_image self)
    (view self) (attack_distance self) (speeds self) (speed self) (hp self)
    (collider self) (attack_startup self) (attack_recovery self)
    (attack_animation self) (move_while_attack self)
    (attack_startup_timer self) v (detect_player self) (attack_possible self)
    (state self) (last_state self) (alive self) (class self).

Definition set_detect_player v (self : t) : t :=
  mk (x self) (y self) (image self) (name self) (original_image self)
    (view self) (attack_distance self) (speeds self) (speed self) (hp self)
    (collider self) (attack_startup self) (attack_recovery self)
    (attack_animation self) (move_while_attack self)
    (attack_startup_timer self) (attack_recovery_timer self) v
    (attack_possible self) (state self) (last_state self) (alive self)
    (class self).

Definition set_attack_possible v (self : t) : t :=
  mk (x self) (y self) (image self) (name self) (original_image self)
    (view self) (attack_distance self) (speeds self) (speed self) (hp self)
    (collider self) (attack_startup self) (attack_recovery self)
    (attack_animation self) (move_while_attack self)
    (attack_startup_timer self) (attack_recovery_timer self)
    (detect_player self) v (state self) (last_state self) (alive self)
    (class self).

Definition set_state v (self : t) : t :=
  mk (x self) (y self) (image self) (name self) (original_image self)
    (view self) (attack_distance self) (speeds self) (speed self) (hp self)
    (collider self) (attack_startup self) (attack_recovery self)
    (attack_animation self) (move_while_attack self)
    (attack_startup_timer self) (attack_recovery_timer self)
    (detect_player self) (attack_possible self) v (last_state self)
    (alive self) (class self).

Definition set_last_state v (self : t) : t :=
  mk (x self) (y self) (image self) (name self) (original_image self)
    (view self) (attack_distance self) (speeds self) (speed self) (hp self)
    (collider self) (attack_startup self) (attack_recovery self)
    (attack_animation self) (move_while_attack self)
    (attack_startup_timer self) (attack_recovery_timer self)
    (detect_player self) (attack_possible self) (state self) v (alive self)
    (class self).

Definition set_alive v (self : t) : t :=
  mk (x self) (y self) (image self) (name self) (original_image self)
    (view self) (attack_distance self) (speeds self) (speed self) (hp self)
    (collider self) (attack_startup self) (attack_recovery self)
    (attack_animation self) (move_while_attack self)
    (attack_startup_timer self) (attack_recovery_timer self)
    (detect_player self) (attack_possible self) (state self) (last_state self)
    v (class self).

Definition set_class v (self : t) : t :=
  mk (x self) (y self) (image self) (name self) (original_image self)
    (view self) (attack_distance self) (speeds self) (speed self) (hp self)
    (collider self) (attack_startup self) (attack_recovery self)
    (attack_animation self) (move_while_attack self)
    (attack_startup_timer self) (attack_recovery_timer self)
    (detect_player self) (attack_possible self) (state self) (last_state self)
    (alive self) v.
End Mob.

#[export] Instance Mob_eq_dec : EqDecision Mob.t.
Proof. solve_decision. Defined.

(** ** player.py: the attributes damage resolution reads and writes *)

Module Player.
Record t := mk {
  x : Q;
  y : Q;
  hp : Q;
  max_hp : Q;
  defence : Q;
  alive : bool;
  collider : Collider.t;
}.

Definition set_hp v (self : t) : t :=
  mk (x self) (y self) v (max_hp self) (defence self) (alive self) (collider self).
End Player.

(** ** world.py: the classes' data *)

Definition LOAD_CHUNK_SIZE : Z := 3.
Definition CHUNK_SIZE : Z := 1024.
Definition TILE_SIZE : Z := 128.
Definition BIOME_SIZE : Z := 8192.
Definition WORLD_SIZE : Z := 1000000000.

Module Tile.
Record t := mk { x : Z; y : Z; image : option Surface; biome : Biome.t }.
End Tile.

Module Chunk.
Record t := mk {
  x : Z;
  y : Z;
  entities : list Entity.t;
  tiles : list Tile.t;
}.

Definition set_entities v (self : t) : t := mk (x self) (y self) v (tiles self).
End Chunk.

(** What the render buffer [world.entities] holds. *)
Inductive Obj := OMob (m : Mob.t) | OAttack (a : Attack) | OEntity (e : Entity.t).

Definition Obj_x (o : Obj) : Q :=
  match o with
  | OMob m => Mob.x m
  | OAttack (AProjectile p) => Projectile.x p
  | OAttack (AShockWave s) => ShockWave.x s
  | OEntity e => Entity.x e
  end.

Definition Obj_y (o : Obj) : Q :=
  match o with
  | OMob m => Mob.y m
  | OAttack (AProjectile p) => Projectile.y p
  | OAttack (AShockWave s) => ShockWave.y s
  | OEntity e => Entity.y e
  end.

Module World.
(** [attrs] groups what [get_biome] reads.  A [Room] has no noise
    generators, offsets or [biome_size], and no chunks. *)
Record t := mk {
  attrs : WorldAttrs;
  seed : Z;
  loaded_chunks : gmap (Z * Z) Chunk.t;
  player : Player.t;
  chunk_size : Z;
  width : option Q;
  height : option Q;
  entities : list Obj;
  mob : list Mob.t;
  mob_attack : list Attack;
  player_attack : list Attack;
  current_chunk : Z * Z;
  last_chunk : Z * Z;
  player_biome : option Biome.t;
  fire_animation : Animation.t;
  blue_fire_animation : Animation.t;
  strong_fire_animation : Animation.t;
  seaweed_animation : Animation.t;
}.

Definition set_loaded_chunks v (self : t) : t :=
  mk (attrs self) (seed self) v (player self) (chunk_size self) (width self)
    (height self) (entities self) (mob self) (mob_attack self)
    (player_attack self) (current_chunk self) (last_chunk self)
    (player_biome self) (fire_animation self) (blue_fire_animation self)
    (strong_fire_animation self) (seaweed_animation self).

Definition set_player v (self : t) : t :=
  mk (attrs self) (seed self) (loaded_chunks self) v (chunk_size self)
    (width self) (height self) (entities self) (mob self) (mob_attack self)
    (player_attack self) (current_chunk self) (last_chunk self)
    (player_biome self) (fire_animation self) (blue_fire_animation self)
    (strong_fire_animation self) (seaweed_animation self).

Definition set_entities v (self : t) : t :=
  mk (attrs self) (seed self) (loaded_chunks self) (player self)
    (chunk_size self) (width self) (height self) v (mob self)
    (mob_attack self) (player_attack self) (current_chunk self)
    (last_chunk self) (player_biome self) (fire_animation self)
    (blue_fire_animation self) (strong_fire_animation self)
    (seaweed_animation self).

Definition set_mob v (self : t) : t :=
  mk (attrs self) (seed self) (loaded_chunks self) (player self)
    (chunk_size self) (width self) (height self) (entities self) v
    (mob_attack self) (player_attack self) (current_chunk self)
    (last_chunk self) (player_biome self) (fire_animation self)
    (blue_fire_animation self) (strong_fire_animation self)
    (seaweed_animation self).

Definition set_mob_attack v (self : t) : t :=
  mk (attrs self) (seed self) (loaded_chunks self) (player self)
    (chunk_size self) (width self) (height self) (entities self) (mob self) v
    (player_attack self) (current_chunk self) (last_chunk self)
    (player_biome self) (fire_animation self) (blue_fire_animation self)
    (strong_fire_animation self) (seaweed_animation self).

Definition set_player_attack v (self : t) : t :=
  mk (attrs self) (seed self) (loaded_chunks self) (player self)
    (chunk_size self) (width self) (height self) (entities self) (mob self)
    (mob_attack self) v (current_chunk self) (last_chunk self)
    (player_biome self) (fire_animation self) (blue_fire_animation self)
    (strong_fire_animation self) (seaweed_animation self).

Definition set_current_chunk v (self : t) : t :=
  mk (attrs self) (seed self) (loaded_chunks self) (player self)
    (chunk_size self) (width self) (height self) (entities self) (mob self)
    (mob_attack self) (player_attack self) v (last_chunk self)
    (player_biome self) (fire_animation self) (blue_fire_animation self)
    (strong_fire_animation self) (seaweed_animation self).

Definition set_last_chunk v (self : t) : t :=
  mk (attrs self) (seed self) (loaded_chunks self) (player self)
    (chunk_size self) (width self) (height self) (entities self) (mob self)
    (mob_attack self) (player_attack self) (current_chunk self) v
    (player_biome self) (fire_animation self) (blue_fire_animation self)
    (strong_fire_animation self) (seaweed_animation self).

Definition set_player_biome v (self : t) : t :=
  mk (attrs self) (seed self) (loaded_chunks self) (player self)
    (chunk_size self) (width self) (height self) (entities self) (mob self)
    (mob_attack self) (player_attack self) (current_chunk self)
    (last_chunk self) v (fire_animation self) (blue_fire_animation self)
    (strong_fire_animation self) (seaweed_animation self).

Definition set_fire_animation v (self : t) : t :=
  mk (attrs self) (seed self) (loaded_chunks self) (player self)
    (chunk_size self) (width self) (height self) (entities self) (mob self)
    (mob_attack self) (player_attack self) (current_chunk self)
    (last_chunk self) (player_biome self) v (blue_fire_animation self)
    (strong_fire_animation self) (seaweed_animation self).

Definition set_blue_fire_animation v (self : t) : t :=
  mk (attrs self) (seed self) (loaded_chunks self) (player self)
    (chunk_size self) (width self) (height self) (entities self) (mob self)
    (mob_attack self) (player_attack self) (current_chunk self)
    (last_chunk self) (player_biome self) (fire_animation self) v
    (strong_fire_animation self) (seaweed_animation self).

Definition set_strong_fire_animation v (self : t) : t :=
  mk (attrs self) (seed self) (loaded_chunks self) (player self)
    (chunk_size self) (width self) (height self) (entities self) (mob self)
    (mob_attack self) (player_attack self) (current_chunk self)
    (last_chunk self) (player_biome self) (fire_animation self)
    (blue_fire_animation self) v (seaweed_animation self).

Definition set_seaweed_animation v (self : t) : t :=
  mk (attrs self) (seed self) (loaded_chunks self) (player self)
    (chunk_size self) (width self) (height self) (entities self) (mob self)
    (mob_attack self) (player_attack self) (current_chunk self)
    (last_chunk self) (player_biome self) (fire_animation self)
    (blue_fire_animation self) (strong_fire_animation self) v.
End World.

(** ** Python lists *)

(** [list.remove(x)]: drops the first element equal to [x]; [None] is
    [ValueError].  The classes here define no [__eq__], so Python compares
    by identity; two distinct objects with equal attributes are treated
    alike by every test in these modules, so removing the first
    structurally equal element leaves the same sequence of attribute
    values. *)
Fixpoint list_remove_first {A} `{EqDecision A} (x : A) (l : list A) : option (list A) :=
  match l with
  | [] => None
  | y :: l' => if decide (x = y) then Some l' else cons y <$> list_remove_first x l'
  end.

(** [for a in to_remove: if type(a) == Projectile: pool.remove(a)] *)
Fixpoint remove_projectiles (to_remove pool : list Attack) : option (list Attack) :=
  match to_remove with
  | [] => Some pool
  | AProjectile p :: rest =>
      pool' ← list_remove_first (AProjectile p) pool;
      remove_projectiles rest pool'
  | AShockWave _ :: rest => remove_projectiles rest pool
  end.

Definition Attack_collider (a : Attack) : Collider.t :=
  match a with
  | AProjectile p => Projectile.collider p
  | AShockWave s => ShockWave.collider s
  end.

Definition Attack_damage (a : Attack) : Q :=
  match a with
  | AProjectile p => Projectile.damage p
  | AShockWave s => ShockWave.damage s
  end.

Definition Attack_alive (a : Attack) : bool :=
  match a with
  | AProjectile p => Projectile.alive p
  | AShockWave s => ShockWave.alive s
  end.

(** ** entities.py: Mob *)

Definition Mob_init (now : Z) (x y : Q) (name : string) (image : option Surface)
    (view : Float) (speeds : Q * Q * Q) (hp : Q) (attack_distance : option Q)
    (attack_startup : Q) (attack_recovery : option Q)
    (attack_animation : option Animation.t) (move_while_attack : bool)
    (class : MobClass) : Mob.t :=
  {| Mob.x := x; Mob.y := y; Mob.image := image; Mob.name := name;
     Mob.original_image := image;
     Mob.view := view; Mob.attack_distance := attack_distance;
     Mob.speeds := speeds; Mob.speed := speeds.1.1; Mob.hp := hp;
     Mob.collider :=
       match image with
       | Some i => Collider.init x y (surface_data i) false
       | None => Collider.init x y (radius_data DEFAULT_COLLIDER_RADIUS) false
       end;
     Mob.attack_startup := attack_startup;
     Mob.attack_recovery := attack_recovery;
     Mob.attack_animation := attack_animation;
     Mob.move_while_attack := move_while_attack;
     Mob.attack_startup_timer := TimeKeeper.init now (Some 0%Q);
     Mob.attack_recovery_timer := TimeKeeper.init now (Some 0%Q);
     Mob.detect_player := false; Mob.attack_possible := false;
     Mob.state := MobState.idle; Mob.last_state := MobState.idle;
     Mob.alive := true; Mob.class := class |}.

Definition Mob_get_damage (damage : Q) (self : Mob.t) : Mob.t :=
  let self :=
    if Mob.alive self
    then Mob.set_hp (Mob.hp self - inject_Z (int damage))%Q self
    else self in
  if Qltb (Mob.hp self) 0 then Mob.set_hp 0%Q self else self.

Definition state_is (s : MobState.t) (self : Mob.t) : bool :=
  bool_decide (Mob.state self = s).

Definition last_state_is (s : MobState.t) (self : Mob.t) : bool :=
  bool_decide (Mob.last_state self = s).

(** The state transitions of [Mob.update] taken while the player is
    alive: seven guarded assignments, one definition each, applied in
    the order of the source. *)

(** Idle or chasing, the player detected and in range: wind up. *)
Definition transition_engage (now : Z) (self : Mob.t) : Mob.t :=
  if (last_state_is MobState.idle self || last_state_is MobState.chase self)
     && (Mob.detect_player self && Mob.attack_possible self)
  then Mob.set_attack_startup_timer
         (TimeKeeper.init now (Some (Mob.attack_startup self)))
         (Mob.set_state MobState.attack_startup self)
  else self.

(** [attack_again] goes back to the wind-up. *)
Definition transition_again (now : Z) (self : Mob.t) : Mob.t :=
  if state_is MobState.attack_again self
  then Mob.set_attack_startup_timer
         (TimeKeeper.init now (Some (Mob.attack_startup self)))
         (Mob.set_state MobState.attack_startup self)
  else self.

(** The player left the range during the wind-up. *)
Definition transition_cancel (self : Mob.t) : Mob.t :=
  if state_is MobState.attack_startup self && negb (Mob.attack_possible self)
  then Mob.set_state MobState.idle self
  else self.

(** The wind-up timer has elapsed. *)
Definition transition_execute (now : Z) (self : Mob.t) : Mob.t :=
  if TimeKeeper.is_finished now (Mob.attack_startup_timer self)
     && state_is MobState.attack_startup self
  then Mob.set_state MobState.attack_execute self
  else self.

(** The execute state was already held at the end of the last update. *)
Definition transition_recover (now : Z) (self : Mob.t) : Mob.t :=
  if last_state_is MobState.attack_execute self
     && state_is MobState.attack_execute self
  then Mob.set_attack_recovery_timer
         (TimeKeeper.init now (Mob.attack_recovery self))
         (Mob.set_state MobState.attack_recovery self)
  else self.

(** The recovery timer has elapsed. *)
Definition transition_resume (now : Z) (self : Mob.t) : Mob.t :=
  if state_is MobState.attack_recovery self
     && TimeKeeper.is_finished now (Mob.attack_recovery_timer self)
  then
    if Mob.attack_possible self then Mob.set_state MobState.attack_again self
    else if Mob.detect_player self then Mob.set_state MobState.chase self
    else Mob.set_state MobState.idle self
  else self.

(** Idle and out of range: chase if the player is detected. *)
Definition transition_detect (self : Mob.t) : Mob.t :=
  if last_state_is MobState.idle self && negb (Mob.attack_possible self)
  then
    if Mob.detect_player self then Mob.set_state MobState.chase self
    else Mob.set_state MobState.idle self
  else self.

Definition Mob_transitions (now : Z) (self : Mob.t) : Mob.t :=
  let self := transition_engage now self in
  let self := transition_again now self in
  let self := transition_cancel self in
  let self := transition_execute now self in
  let self := transition_recover now self in
  let self := transition_resume now self in
  transition_detect self.

Section Entities.
Context `{PyFloat} `{Pygame} `{OpenSimplexLib} `{Assets}.

(** The first loop of [update_hp]: damage from every colliding attack. *)
Fixpoint Mob_collect_hits (attacks : list Attack) (self : Mob.t)
    (attack_to_remove : list Attack) : Mob.t * list Attack :=
  match attacks with
  | [] => (self, attack_to_remove)
  | attack :: rest =>
      match Collider_collide (Mob.collider self) (Attack_collider attack) with
      | Some collide_info =>
          Mob_collect_hits rest (Mob_get_damage (Attack_damage attack) self)
            (attack_to_remove ++ [attack])
      | None => Mob_collect_hits rest self attack_to_remove
      end
  end.

Definition Mob_update_hp (world : World.t) (self : Mob.t) : option (Mob.t * World.t) :=
  let '(self, attack_to_remove) :=
    Mob_collect_hits (World.player_attack world) self [] in
  player_attack ← remove_projectiles attack_to_remove (World.player_attack world);
  let world := World.set_player_attack player_attack world in
  let self := if Qle_bool (Mob.hp self) 0 then Mob.set_alive false self else self in
  Some (self, world).

(** [Mob.update]: biome speed and movement, while the player is alive. *)
Definition Mob_move (world : World.t) (dt : Q) (self : Mob.t) : option Mob.t :=
  mob_biome ← get_biome (World.attrs world) (Mob.x self) (Mob.y self);
  let self :=
    match mob_biome with
    | Biome.water => Mob.set_speed (Mob.speeds self).1.2 self
    | Biome.air => Mob.set_speed (Mob.speeds self).2 self
    | _ => Mob.set_speed (Mob.speeds self).1.1 self
    end in
  let move :=
    if state_is MobState.chase self && negb (Mob.move_while_attack self) then true
    else if Mob.move_while_attack self && Mob.detect_player self then true
    else false in
  if move then
    let new_pos :=
      move_towards (Mob.x self, Mob.y self)
        (Player.x (World.player world), Player.y (World.player world))
        (Mob.speed self * dt)%Q in
    let self := Mob.set_y new_pos.2 (Mob.set_x new_pos.1 self) in
    let half_w := (getattr (World.width world) 0 / 2)%Q in
    let half_h := (getattr (World.height world) 0 / 2)%Q in
    let self := if Qltb half_w (Mob.x self) then Mob.set_x half_w self else self in
    let self := if Qltb (Mob.x self) (- half_w) then Mob.set_x (- half_w)%Q self else self in
    let self := if Qltb half_h (Mob.y self) then Mob.set_y half_h self else self in
    let self := if Qltb (Mob.y self) (- half_h) then Mob.set_y (- half_h)%Q self else self in
    Some self
  else Some self.

Definition in_attack_state (self : Mob.t) : bool :=
  state_is MobState.attack_startup self || state_is MobState.attack_execute self
  || state_is MobState.attack_recovery self || state_is MobState.attack_again self.

(** [Mob.update]: animation frame, mirroring and collider refresh. *)
Definition Mob_animate (now : Z) (world : World.t) (self : Mob.t) : option Mob.t :=
  let self :=
    match Mob.attack_animation self with
    | Some anim =>
        if in_attack_state self then
          let '(anim, frame) := Animation.update now anim in
          Mob.set_image (Some frame) (Mob.set_attack_animation (Some anim) self)
        else Mob.set_image (Mob.original_image self) self
    | None => Mob.set_image (Mob.original_image self) self
    end in
  let self :=
    match Mob.image self with
    | Some i =>
        if Qltb (Mob.x self) (Player.x (World.player world))
        then Mob.set_image (Some (flip i)) self else self
    | None => self
    end in
  collider ←
    match Mob.image self with
    | Some i => Collider.update (Mob.collider self) (Mob.x self) (Mob.y self) (surface_data i)
    | None => Collider.update (Mob.collider self) (Mob.x self) (Mob.y self)
                (radius_data DEFAULT_COLLIDER_RADIUS)
    end;
  Some (Mob.set_collider collider self).

(** [Mob.update]: the distance to the player and the two flags. *)
Definition Mob_sense (world : World.t) (self : Mob.t) : Mob.t :=
  let px := Player.x (World.player world) in
  let py := Player.y (World.player world) in
  let self :=
    Mob.set_detect_player (distance_lt (Mob.x self) (Mob.y self) px py (Mob.view self)) self in
  Mob.set_attack_possible
    match Mob.attack_distance self with
    | Some d => distance_lt (Mob.x self) (Mob.y self) px py (fin d)
    | None => false
    end self.

Definition Mob_update (now : Z) (world : World.t) (dt : Q) (self : Mob.t)
    : option (Mob.t * World.t) :=
  let self := Mob_sense world self in
  self ←
    (if Player.alive (World.player world)
     then Mob_move world dt (Mob_transitions now self)
     else Some (Mob.set_state MobState.idle self));
  '(self, world) ← Mob_update_hp world self;
  self ← Mob_animate now world self;
  Some (Mob.set_last_state (Mob.state self) self, world).
End Entities.

(** ** Python's random module: derived draws *)

Section Random.
Context `{RandomLib}.

(** [random.choice(seq)] on a non-empty sequence [first :: more]. *)
Definition random_choice {A} (first : A) (more : list A) (g : RandomState)
    : A * RandomState :=
  let '(i, g) := random_randbelow (Z.of_nat (length (first :: more))) g in
  (nth (Z.to_nat i) (first :: more) first, g).

(** [random.uniform(a, b)] is [a + (b - a) * random()]. *)
Definition random_uniform (a b : Q) (g : RandomState) : Q * RandomState :=
  let '(r, g) := random_random g in
  ((a + (b - a) * r)%Q, g).

(** [random.randint(a, b)] is [a + _randbelow(b - a + 1)]. *)
Definition random_randint (a b : Z) (g : RandomState) : Z * RandomState :=
  let '(r, g) := random_randbelow (b - a + 1) g in
  (a + r, g).
End Random.

(** ** entities.py: the mob subclasses *)

Section MobClasses.
Context `{PyFloat} `{Pygame} `{OpenSimplexLib} `{Assets} `{RandomLib}.

Definition attack_animation_of (now : Z) (frames : string) : option Animation.t :=
  Some (Animation.init now (image_frames frames).1 (image_frames frames).2 10).

Definition Burster (now : Z) (x y : Q) : Mob.t :=
  Mob_init now x y "burster" (Some (Image "burster")) (fin 1000) (450, 10, 500)%Q
    100 (Some 500%Q) 1 (Some 2%Q)
    (attack_animation_of now "burster_attack_frames") false cBurster.

Definition Biter (now : Z) (x y : Q) : Mob.t :=
  Mob_init now x y "biter" (Some (Image "biter")) (fin 2000) (10, 500, 10)%Q
    100 (Some 100%Q) 0 (Some (1 # 10))
    (attack_animation_of now "biter_attack_frames") false cBiter.

Definition Flutterer (now : Z) (x y : Q) : Mob.t :=
  Mob_init now x y "flutterer" (Some (Image "flutterer")) (fin 3000) (10, 10, 1500)%Q
    10 (Some 100%Q) 0 (Some (1 # 10))
    (attack_animation_of now "flutterer_attack_frames") true cFlutterer.

Definition Plower (now : Z) (x y : Q) : Mob.t :=
  Mob_init now x y "plower" (Some (Image "plower")) (fin 2000) (150, 10, 300)%Q
    100 (Some 800%Q) (1 # 2) (Some 1%Q)
    (attack_animation_of now "plower_attack_frames") false cPlower.

Definition boss_patterns : list BossSelfState.t :=
  [BossSelfState.wave; BossSelfState.summon_minions].

Definition BossSelf (now : Z) (x y : Q) (g : RandomState) : Mob.t * RandomState :=
  let '(next_attack, g) := random_choice BossSelfState.projectile boss_patterns g in
  let '(duration, g) := random_uniform 1 10 g in
  (Mob_init now x y "Self" None inf (0, 0, 0)%Q 2000 None 0 None None false
     (cBossSelf next_attack false (TimeKeeper.init now (Some duration))), g).

(** [Player.get_damage] *)
Definition Player_get_damage (damage : Q) (self : Player.t) : Player.t :=
  let self :=
    if Player.alive self && negb (Qeq_bool (Player.defence self) 100)
    then Player.set_hp
           (Player.hp self - damage * ((100 - Player.defence self) / 100))%Q self
    else self in
  if Qltb (Player.hp self) 0 then Player.set_hp 0%Q self else self.

Definition burster_volley (self : Mob.t) : list Attack :=
  map (fun i : nat =>
         AProjectile
           (Projectile.init (Mob.x self) (Mob.y self) "burster_fire_ball" 1000
              (inject_Z (Z.of_nat i * 3)) (Some (Image "fire_ball_image")) 1 500))
      (seq 0 120).

Definition Burster_update (now : Z) (world : World.t) (dt : Q) (self : Mob.t)
    : option (Mob.t * World.t) :=
  '(self, world) ← Mob_update now world dt self;
  if state_is MobState.attack_execute self
  then Some (self, World.set_mob_attack
                     (World.mob_attack world ++ burster_volley self) world)
  else Some (self, world).

(** [Biter.update] and [Flutterer.update] have the same body. *)
Definition Biter_update (now : Z) (world : World.t) (dt : Q) (self : Mob.t)
    : option (Mob.t * World.t) :=
  '(self, world) ← Mob_update now world dt self;
  if state_is MobState.attack_execute self
  then Some (self, World.set_player
                     (Player_get_damage 1 (World.player world)) world)
  else Some (self, world).

Definition Flutterer_update := Biter_update.

Definition plower_wave (now : Z) (self : Mob.t) : Attack :=
  AShockWave (ShockWave.init now (Mob.x self) (Mob.y self) "plower_shock_wave" 700
                (Image "shock_wave") 1 800).

Definition Plower_update (now : Z) (world : World.t) (dt : Q) (self : Mob.t)
    : option (Mob.t * World.t) :=
  '(self, world) ← Mob_update now world dt self;
  if state_is MobState.attack_execute self
  then Some (self, World.set_mob_attack
                     (World.mob_attack world ++ [plower_wave now self]) world)
  else Some (self, world).

Definition boss_fan (self : Mob.t) (angle : Q) : list Attack :=
  map (fun i : Z =>
         AProjectile
           (Projectile.init (Mob.x self) (Mob.y self) "boss_self_ball" 1000
              (angle + inject_Z (i * 5)) (Some (Image "boss_projectile")) 5 1000))
      [-2; -1; 0; 1; 2].

Definition boss_wave (now : Z) (self : Mob.t) : Attack :=
  AShockWave (ShockWave.init now (Mob.x self) (Mob.y self) "boss_self wave" 1000
                (Image "boss_wave") 2 500).

Definition boss_minions (now : Z) (self : Mob.t) : list Mob.t :=
  [Burster now (Mob.x self - BOSS_MINION_OFFSET) (Mob.y self);
   Biter now (Mob.x self + BOSS_MINION_OFFSET) (Mob.y self);
   Flutterer now (Mob.x self) (Mob.y self + BOSS_MINION_OFFSET);
   Plower now (Mob.x self) (Mob.y self - BOSS_MINION_OFFSET)]%Q.

(** The pattern's parameters, set before delegating to [Mob.update]. *)
Definition boss_configure (next_attack : BossSelfState.t) (self : Mob.t) : Mob.t :=
  match next_attack with
  | BossSelfState.wave =>
      Mob.set_attack_recovery (Some 1%Q)
        (Mob.set_speeds (900, 0, 0)%Q (Mob.set_attack_distance (Some 100%Q) self))
  | BossSelfState.projectile =>
      Mob.set_attack_recovery (Some (1 # 2))
        (Mob.set_speeds (400, 0, 0)%Q (Mob.set_attack_distance (Some 1000%Q) self))
  | BossSelfState.summon_minions =>
      Mob.set_attack_recovery (Some 8%Q)
        (Mob.set_speeds (400, 0, 0)%Q (Mob.set_attack_distance (Some 10000%Q) self))
  end.

Definition BossSelf_update (now : Z) (world : World.t) (dt : Q) (g : RandomState)
    (next_attack : BossSelfState.t) (start : bool) (attack_change_timer : TimeKeeper.t)
    (self : Mob.t) : option (Mob.t * World.t * RandomState) :=
  if start then
    let '(next_attack, attack_change_timer, g) :=
      if TimeKeeper.is_finished now attack_change_timer then
        let '(next_attack, g) :=
          random_choice BossSelfState.projectile boss_patterns g in
        let '(duration, g) := random_uniform 1 10 g in
        (next_attack, TimeKeeper.init now (Some duration), g)
      else (next_attack, attack_change_timer, g) in
    let self :=
      Mob.set_class (cBossSelf next_attack start attack_change_timer)
        (boss_configure next_attack self) in
    '(self, world) ← Mob_update now world dt self;
    if state_is MobState.attack_execute self then
      match next_attack with
      | BossSelfState.projectile =>
          let dx := (Player.x (World.player world) - Mob.x self)%Q in
          let dy := (Player.y (World.player world) - Mob.y self)%Q in
          let '(angle, g) :=
            if Qeq_bool dx 0 && Qeq_bool dy 0 then random_uniform 0 360 g
            else (degrees_atan2 dy dx, g) in
          Some (self, World.set_mob_attack
                        (World.mob_attack world ++ boss_fan self angle) world, g)
      | BossSelfState.wave =>
          Some (self, World.set_mob_attack
                        (World.mob_attack world ++ [boss_wave now self]) world, g)
      | BossSelfState.summon_minions =>
          Some (self, World.set_mob
                        (World.mob world ++ boss_minions now self) world, g)
      end
    else Some (self, world, g)
  else Some (self, world, g).

(** [m.update(world, dt)]: dispatch on the object's class. *)
Definition update_mob (now : Z) (world : World.t) (dt : Q) (g : RandomState)
    (self : Mob.t) : option (Mob.t * World.t * RandomState) :=
  match Mob.class self with
  | cMob => r ← Mob_update now world dt self; Some (r, g)
  | cBurster => r ← Burster_update now world dt self; Some (r, g)
  | cBiter => r ← Biter_update now world dt self; Some (r, g)
  | cFlutterer => r ← Flutterer_update now world dt self; Some (r, g)
  | cPlower => r ← Plower_update now world dt self; Some (r, g)
  | cBossSelf next_attack start attack_change_timer =>
      BossSelf_update now world dt g next_attack start attack_change_timer self
  end.
End MobClasses.

(** ** entities.py: projectiles and shock waves *)

Section Attacks.
Context `{PyFloat} `{Pygame}.

Definition Projectile_out_of_range (self : Projectile.t) : bool :=
  distance_gt (Projectile.x self) (Projectile.y self)
    (Projectile.origin_x self) (Projectile.origin_y self)
    (Projectile.shoot_distance self).

Definition Projectile_update (dt : Q) (self : Projectile.t) : option Projectile.t :=
  if Projectile_out_of_range self then
    Some (Projectile.mk (Projectile.origin_x self) (Projectile.origin_y self)
            (Projectile.vel self) (Projectile.angle self) (Projectile.damage self)
            (Projectile.shoot_distance self) (Projectile.x self) (Projectile.y self)
            (Projectile.image self) (Projectile.name self) (Projectile.collider self)
            false)
  else
    let vec := from_polar (Projectile.vel self) (Projectile.angle self) in
    let x := (Projectile.x self + vec.1 * dt)%Q in
    let y := (Projectile.y self + vec.2 * dt)%Q in
    collider ←
      match Projectile.image self with
      | Some i => Collider.update (Projectile.collider self) x y (surface_data i)
      | None => Collider.update (Projectile.collider self) x y
                  (radius_data DEFAULT_COLLIDER_RADIUS)
      end;
    Some (Projectile.mk (Projectile.origin_x self) (Projectile.origin_y self)
            (Projectile.vel self) (Projectile.angle self) (Projectile.damage self)
            (Projectile.shoot_distance self) x y
            (Projectile.image self) (Projectile.name self) collider
            (Projectile.alive self)).

Definition ShockWave_update (dt : Q) (self : ShockWave.t) : option ShockWave.t :=
  let wave_distance := (ShockWave.wave_distance self + ShockWave.vel self * dt)%Q in
  let alive :=
    if Qle_bool (ShockWave.wave_max_distance self) wave_distance then false
    else ShockWave.alive self in
  let size := ShockWave.image_size wave_distance in
  collider ← Collider.update (ShockWave.collider self) (ShockWave.x self)
               (ShockWave.y self) (radius_data wave_distance);
  Some (ShockWave.mk (ShockWave.x self) (ShockWave.y self)
          (scale (ShockWave.origin_image self) size size) (ShockWave.name self)
          (ShockWave.origin_image self) (ShockWave.vel self) (ShockWave.damage self)
          wave_distance (ShockWave.wave_max_distance self) collider
          (ShockWave.attack_speed self) (ShockWave.timer self) alive).

(** [p.update(dt)] *)
Definition update_attack (dt : Q) (a : Attack) : option Attack :=
  match a with
  | AProjectile p => AProjectile <$> Projectile_update dt p
  | AShockWave s => AShockWave <$> ShockWave_update dt s
  end.

(** ** player.py: damage resolution *)

Definition ShockWave_set_timer (timer : TimeKeeper.t) (self : ShockWave.t) : ShockWave.t :=
  ShockWave.mk (ShockWave.x self) (ShockWave.y self) (ShockWave.image self)
    (ShockWave.name self) (ShockWave.origin_image self) (ShockWave.vel self)
    (ShockWave.damage self) (ShockWave.wave_distance self)
    (ShockWave.wave_max_distance self) (ShockWave.collider self)
    (ShockWave.attack_speed self) timer (ShockWave.alive self).

(** The first loop of [Player._update_hp] over a snapshot of the pool.
    The objects are shared with the pool, so resetting a timer shows in
    the pool: the loop rebuilds the pool as it goes. *)
Fixpoint Player_collect_hits (now : Z) (attacks : list Attack) (self : Player.t)
    (attack_to_remove : list Attack) : Player.t * list Attack * list Attack :=
  match attacks with
  | [] => (self, attack_to_remove, [])
  | attack :: rest =>
      let collided := Collider_collide (Attack_collider attack) (Player.collider self) in
      let '(self, attack_to_remove, attack) :=
        match collided with
        | Some _ =>
            match attack with
            | AShockWave s =>
                if TimeKeeper.is_finished now (ShockWave.timer s) then
                  let s' := ShockWave_set_timer (TimeKeeper.reset now (ShockWave.timer s)) s in
                  (Player_get_damage (ShockWave.damage s) self,
                   attack_to_remove ++ [AShockWave s'], AShockWave s')
                else (self, attack_to_remove, attack)
            | AProjectile p =>
                (Player_get_damage (Projectile.damage p) self,
                 attack_to_remove ++ [attack], attack)
            end
        | None => (self, attack_to_remove, attack)
        end in
      let '(self, attack_to_remove, pool) :=
        Player_collect_hits now rest self attack_to_remove in
      (self, attack_to_remove, attack :: pool)
  end.

(** [self] is [world.player]. *)
Definition Player__update_hp (now : Z) (world : World.t) : option World.t :=
  let '(self, attack_to_remove, pool) :=
    Player_collect_hits now (World.mob_attack world) (World.player world) [] in
  mob_attack ← remove_projectiles attack_to_remove pool;
  Some (World.set_player self (World.set_mob_attack mob_attack world)).
End Attacks.

(** ** world.py *)

(** [range(a, b)] *)
Definition range (a b : Z) : list Z :=
  map (fun i : nat => a + Z.of_nat i) (seq 0 (Z.to_nat (b - a))).

Definition _ensure_odd (n : Z) : Z := if decide (n mod 2 = 0) then n + 1 else n.

Definition _ring_range (size_odd : Z) : list Z :=
  let half := size_odd / 2 in
  range (- half) (half + 1).

(** Computations that draw from the process-wide [random] generator and
    may raise. *)
Definition Gen `{RandomLib} (A : Type) : Type := RandomState -> option (A * RandomState).

Section GenMonad.
Context `{RandomLib}.

Definition gen_ret {A} (a : A) : Gen A := fun g => Some (a, g).

Definition gen_bind {A B} (m : Gen A) (k : A -> Gen B) : Gen B :=
  fun g => match m g with Some (a, g) => k a g | None => None end.

(** A computation that only may raise. *)
Definition gen_lift {A} (o : option A) : Gen A :=
  fun g => match o with Some a => Some (a, g) | None => None end.

(** A draw that cannot raise. *)
Definition gen_draw {A} (d : RandomState -> A * RandomState) : Gen A :=
  fun g => Some (d g).

(** [random.seed(s)] *)
Definition gen_seed (s : string) : Gen unit := fun _ => Some (tt, random_seed s).

(** [random.randint(a, b)]; an empty range raises [ValueError]. *)
Definition gen_randint (a b : Z) : Gen Z :=
  if decide (b < a) then fun _ => None else gen_draw (random_randint a b).

(** [for _ in range(n): s = body(s)] *)
Fixpoint gen_repeat {S} (n : nat) (body : S -> Gen S) (s : S) : Gen S :=
  match n with
  | O => gen_ret s
  | S n => gen_bind (body s) (gen_repeat n body)
  end.

(** [for a in l: s = body(a, s)] *)
Fixpoint gen_for {A S} (l : list A) (body : A -> S -> Gen S) (s : S) : Gen S :=
  match l with
  | [] => gen_ret s
  | a :: l => gen_bind (body a s) (gen_for l body)
  end.
End GenMonad.

Notation "x <~ m ;; k" := (gen_bind m (fun x => k))
  (at level 100, m at next level, right associativity).

Section WorldModule.
Context `{PyFloat} `{Pygame} `{OpenSimplexLib} `{Assets} `{RandomLib}.

(** [math.floor(c / chunk_size) * chunk_size + chunk_size // 2] on both
    axes: the expression [centered] of [get_biome], at chunk scale. *)
Definition World__to_chunk_center (self : World.t) (x y : Q) : option (Z * Z) :=
  cx ← centered (World.chunk_size self) x;
  cy ← centered (World.chunk_size self) y;
  Some (cx, cy).

(** *** Chunk *)

Definition tile_image (tb : Biome.t) : option Surface :=
  match tb with
  | Biome.dirt => Some (Image "dirt_tile")
  | Biome.fire => Some (Image "fire_tile")
  | Biome.air => Some (Image "air_tile")
  | _ => None
  end.

Definition Chunk_tiles (world : World.t) (x y : Z) : option (list Tile.t) :=
  let tile_size := tile_size (World.attrs world) in
  if decide (tile_size = 0) then None else
  let tiles_per_axis := World.chunk_size world / tile_size in
  let half := tiles_per_axis / 2 in
  mapM (fun ij : Z * Z =>
          let tx := x + ij.1 * tile_size + tile_size / 2 in
          let ty := y + ij.2 * tile_size + tile_size / 2 in
          tb ← get_biome (World.attrs world) (inject_Z tx) (inject_Z ty);
          Some (Tile.mk tx ty (tile_image tb) tb))
       (i ← range (- half) half; j ← range (- half) half; [(i, j)]).

Definition chunk_seed (world : World.t) (x y : Z) : string :=
  "SelementWorldSeed" +:+ pretty (World.seed world) +:+ "chunk" +:+ pretty x
  +:+ "_" +:+ pretty y.

(** [self.x + random.randint(-chunk_size // 2, chunk_size // 2)], then the
    same for [y]. *)
Definition random_spot (world : World.t) (x y : Z) : Gen (Z * Z) :=
  let lo := (- World.chunk_size world) / 2 in
  let hi := World.chunk_size world / 2 in
  dx <~ gen_randint lo hi;;
  dy <~ gen_randint lo hi;;
  gen_ret (x + dx, y + dy).

Definition spot_biome (world : World.t) (o : Z * Z) : Gen Biome.t :=
  gen_lift (get_biome (World.attrs world) (inject_Z o.1) (inject_Z o.2)).

Definition entity_at (o : Z * Z) (image : option Surface) (name : string) : Entity.t :=
  Entity.init (inject_Z o.1) (inject_Z o.2) image name.

Definition named (name : string) : option Surface * string := (Some (Image name), name).

Definition generate_grass (world : World.t) (x y : Z) (ents : list Entity.t)
    : Gen (list Entity.t) :=
  r <~ gen_draw random_random;;
  if Qltb (1 # 5) r then
    o <~ random_spot world x y;;
    ob <~ spot_biome world o;;
    match ob with
    | Biome.dirt =>
        g <~ gen_draw (random_choice (named "grass") [named "dry_grass"]);;
        gen_ret (ents ++ [entity_at o g.1 g.2])
    | Biome.water => gen_ret (ents ++ [entity_at o None "seaweed"])
    | _ => gen_ret ents
    end
  else gen_ret ents.

Definition generate_tree (world : World.t) (x y : Z) (ents : list Entity.t)
    : Gen (list Entity.t) :=
  r <~ gen_draw random_random;;
  if Qltb (1 # 2) r then
    o <~ random_spot world x y;;
    ob <~ spot_biome world o;;
    match ob with
    | Biome.dirt =>
        t <~ gen_draw (random_choice (named "oak_tree")
                         [named "birch_tree"; named "acacia_tree"; named "jungle_tree"]);;
        gen_ret (ents ++ [entity_at o t.1 t.2])
    | _ => gen_ret ents
    end
  else gen_ret ents.

Definition generate_fire (world : World.t) (x y : Z) (ents : list Entity.t)
    : Gen (list Entity.t) :=
  r <~ gen_draw random_random;;
  if Qltb (3 # 10) r then
    o <~ random_spot world x y;;
    ob <~ spot_biome world o;;
    match ob with
    | Biome.fire =>
        r <~ gen_draw random_random;;
        fire <~ (if Qltb (1 # 1000) r
                 then gen_draw (random_choice "fire" ["strong_fire"])
                 else gen_ret "blue_fire");;
        gen_ret (ents ++ [entity_at o None fire])
    | _ => gen_ret ents
    end
  else gen_ret ents.

Definition generate_coral (world : World.t) (x y : Z) (ents : list Entity.t)
    : Gen (list Entity.t) :=
  r <~ gen_draw random_random;;
  if Qltb (3 # 5) r then
    o <~ random_spot world x y;;
    ob <~ spot_biome world o;;
    match ob with
    | Biome.water =>
        c <~ gen_draw (random_choice (named "red_coral_reef")
                         [named "pink_coral_reef"; named "yellow_coral_reef"]);;
        gen_ret (ents ++ [entity_at o c.1 c.2])
    | _ => gen_ret ents
    end
  else gen_ret ents.

Definition generate_portal (world : World.t) (x y : Z) (ents : list Entity.t)
    : Gen (list Entity.t) :=
  r <~ gen_draw random_random;;
  if Qltb (99 # 100) r then
    o <~ random_spot world x y;;
    gen_ret (ents ++ [InteractableEntity (inject_Z o.1) (inject_Z o.2)
                        (Some (Image "portal")) "portal" 32])
  else gen_ret ents.

(** [Chunk._generate], on the chunk's (still empty) entity list. *)
Definition Chunk__generate (world : World.t) (x y : Z) (ents : list Entity.t)
    : Gen (list Entity.t) :=
  _ <~ gen_seed (chunk_seed world x y);;
  ents <~ gen_repeat (Z.to_nat (tile_size (World.attrs world)))
            (generate_grass world x y) ents;;
  ents <~ gen_repeat 32
            (fun ents =>
               ents <~ generate_tree world x y ents;;
               ents <~ generate_fire world x y ents;;
               generate_coral world x y ents) ents;;
  generate_portal world x y ents.

(** [Chunk(x, y, world)] *)
Definition Chunk_init (x y : Z) (world : World.t) : Gen Chunk.t :=
  tiles <~ gen_lift (Chunk_tiles world x y);;
  ents <~ Chunk__generate world x y [];;
  gen_ret (Chunk.mk x y ents tiles).

(** *** Chunk streaming *)

Definition needed_chunks (self : World.t) : option (list (Z * Z)) :=
  let size := _ensure_odd LOAD_CHUNK_SIZE in
  mapM (fun ij : Z * Z =>
          World__to_chunk_center self
            (fl (Player.x (World.player self) + inject_Z (ij.1 * World.chunk_size self))%Q)
            (fl (Player.y (World.player self) + inject_Z (ij.2 * World.chunk_size self))%Q))
       (i ← _ring_range size; j ← _ring_range size; [(i, j)]).

(** [if coord not in self.loaded_chunks: self.loaded_chunks[coord] = Chunk(...)] *)
Definition load_if_missing (coord : Z * Z) (self : World.t) : Gen World.t :=
  match World.loaded_chunks self !! coord with
  | Some _ => gen_ret self
  | None =>
      chunk <~ Chunk_init coord.1 coord.2 self;;
      gen_ret (World.set_loaded_chunks
                 (<[coord := chunk]> (World.loaded_chunks self)) self)
  end.

Definition World__load_chunks_around_player (self : World.t) : Gen World.t :=
  need <~ gen_lift (needed_chunks self);;
  let to_remove :=
    filter (fun c => c ∉ need) (map_to_list (World.loaded_chunks self)).*1 in
  let self :=
    World.set_loaded_chunks (foldr delete (World.loaded_chunks self) to_remove) self in
  gen_for need load_if_missing self.

(** The chunk bookkeeping of [World.update]: its first three lines and
    the assignment to [last_chunk] at its end. *)
Definition World_update_chunks (self : World.t) : Gen World.t :=
  current <~ gen_lift (World__to_chunk_center self (Player.x (World.player self))
                         (Player.y (World.player self)));;
  let self := World.set_current_chunk current self in
  self <~ (if decide (World.last_chunk self = World.current_chunk self)
           then gen_ret self
           else World__load_chunks_around_player self);;
  gen_ret (World.set_last_chunk (World.current_chunk self) self).
End WorldModule.

Definition OFFSET_MAX : Z := 8192.

Definition Player_init (x y : Q) : Player.t :=
  Player.mk x y 100 100 0 true
    (Collider.init x y (radius_data DEFAULT_COLLIDER_RADIUS) false).

Section WorldFrame.
Context `{PyFloat} `{Pygame} `{OpenSimplexLib} `{Assets} `{RandomLib}.

Definition animation_of (now : Z) (frames : string) (fps : Q) : Animation.t :=
  Animation.init now (image_frames frames).1 (image_frames frames).2 fps.

(** [random.uniform(1, OFFSET_MAX) * random.choice([-1, 1])] *)
Definition random_offset : Gen Q :=
  u <~ gen_draw (random_uniform 1 (inject_Z OFFSET_MAX));;
  s <~ gen_draw (random_choice (-1) [1]);;
  gen_ret (u * inject_Z s)%Q.

(** [OpenSimplex(seed=random.randint(1, OFFSET_MAX) * random.choice([-1, 1]))] *)
Definition random_generator : Gen OpenSimplex :=
  n <~ gen_randint 1 OFFSET_MAX;;
  s <~ gen_draw (random_choice (-1) [1]);;
  gen_ret {| os_seed := n * s |}.

(** [World(seed)]; it re-seeds the generator first, so the state it is
    entered with is not read. *)
Definition World_init (now : Z) (seed : Z) : Gen World.t :=
  _ <~ (fun _ => Some (tt, random_seed_int seed));;
  offset1 <~ random_offset;;
  offset2 <~ random_offset;;
  offset3 <~ random_offset;;
  offset4 <~ random_offset;;
  temp_noise_generator <~ random_generator;;
  moist_noise_generator <~ random_generator;;
  spawn_x <~ gen_randint (- OFFSET_MAX) OFFSET_MAX;;
  spawn_y <~ gen_randint (- OFFSET_MAX) OFFSET_MAX;;
  let player := Player_init (inject_Z spawn_x) (inject_Z spawn_y) in
  let attrs :=
    {| temp_noise_generator := Some temp_noise_generator;
       moist_noise_generator := Some moist_noise_generator;
       tile_size := TILE_SIZE;
       offset1 := Some offset1; offset2 := Some offset2;
       offset3 := Some offset3; offset4 := Some offset4;
       biome_size := Some BIOME_SIZE |} in
  let self :=
    {| World.attrs := attrs; World.seed := seed; World.loaded_chunks := ∅;
       World.player := player; World.chunk_size := CHUNK_SIZE;
       World.width := Some (inject_Z WORLD_SIZE);
       World.height := Some (inject_Z WORLD_SIZE);
       World.entities := []; World.mob := []; World.mob_attack := [];
       World.player_attack := [];
       World.current_chunk := (0, 0); World.last_chunk := (0, 0);
       World.player_biome := None;
       World.fire_animation := animation_of now "fire_frames" 2;
       World.blue_fire_animation := animation_of now "blue_fire_frames" 2;
       World.strong_fire_animation := animation_of now "strong_fire_frames" 4;
       World.seaweed_animation := animation_of now "seaweed_frames" 2 |} in
  current <~ gen_lift (World__to_chunk_center self (Player.x player) (Player.y player));;
  let self := World.set_last_chunk current (World.set_current_chunk current self) in
  World__load_chunks_around_player self.

(** *** The render buffer *)

Definition World__append_visible_entity (self : World.t) (e : Obj) : option World.t :=
  b ← get_biome (World.attrs self) (Obj_x e) (Obj_y e);
  if decide (World.player_biome self = Some Biome.water) then
    if decide (b = Biome.water)
    then Some (World.set_entities (World.entities self ++ [e]) self)
    else Some self
  else
    if decide (b ≠ Biome.water)
    then Some (World.set_entities (World.entities self ++ [e]) self)
    else Some self.

(** The loop of [_update_projectiles]; an object put on [to_remove] is
    marked [true]. *)
Fixpoint update_projectiles_loop (self : World.t) (dt : Q) (proj_list : list Attack)
    : option (list (Attack * bool) * World.t) :=
  match proj_list with
  | [] => Some ([], self)
  | p :: rest =>
      if Attack_alive p then
        p ← update_attack dt p;
        self ← World__append_visible_entity self (OAttack p);
        '(marked, self) ← update_projectiles_loop self dt rest;
        Some ((p, false) :: marked, self)
      else
        '(marked, self) ← update_projectiles_loop self dt rest;
        Some ((p, true) :: marked, self)
  end.

(** [for p in to_remove: proj_list.remove(p)] deletes the marked objects:
    each object occurs once in its pool. *)
Definition unmarked {A} (marked : list (A * bool)) : list A :=
  (filter (fun p => p.2 = false) marked).*1.

Definition World__update_projectiles (self : World.t) (proj_list : list Attack) (dt : Q)
    : option (list Attack * World.t) :=
  '(marked, self) ← update_projectiles_loop self dt proj_list;
  Some (unmarked marked, self).

(** The mob loop of [_refresh_entities]: [for m in self.mob] walks the
    list by position while [BossSelf.update] may append to it.  The
    outer [None] means the fuel ran out; the inner one is an exception.
    [dead_mobs] holds the positions of the objects put aside. *)
Fixpoint mob_loop (fuel : nat) (now : Z) (dt : Q) (i : nat) (dead_mobs : list nat)
    (self : World.t) (g : RandomState)
    : option (option (World.t * list nat * RandomState)) :=
  match fuel with
  | O => None
  | S fuel =>
      match World.mob self !! i with
      | None => Some (Some (self, dead_mobs, g))
      | Some m =>
          if Mob.alive m then
            match update_mob now self dt g m with
            | None => Some None
            | Some (m, self, g) =>
                let self := World.set_mob (<[i := m]> (World.mob self)) self in
                match World__append_visible_entity self (OMob m) with
                | None => Some None
                | Some self => mob_loop fuel now dt (S i) dead_mobs self g
                end
            end
          else mob_loop fuel now dt (S i) (dead_mobs ++ [i]) self g
      end
  end.

(** [for m in dead_mobs: self.mob.remove(m)] *)
Definition remove_positions {A} (dead : list nat) (l : list A) : list A :=
  omap (fun im : nat * A => if decide (im.1 ∈ dead) then None else Some im.2)
       (imap pair l).

(** Every mob can append at most four others, once. *)
Definition mob_loop_fuel (self : World.t) : nat := S (5 * length (World.mob self)).

Definition refresh_mobs (now : Z) (dt : Q) (self : World.t) (g : RandomState)
    : option (option (World.t * RandomState)) :=
  match mob_loop (mob_loop_fuel self) now dt 0 [] self g with
  | None => None
  | Some None => Some None
  | Some (Some (self, dead_mobs, g)) =>
      Some (Some (World.set_mob (remove_positions dead_mobs (World.mob self)) self, g))
  end.

Definition coral_names : list string :=
  ["red_coral_reef"; "pink_coral_reef"; "yellow_coral_reef"].

(** The body of the decoration loop of [_refresh_entities]: the entity
    with its frame set, and whether it is appended to the buffer. *)
Definition show_decoration (self : World.t)
    (fire_frame blue_fire_frame strong_fire_frame seaweed_frame : Surface)
    (e : Entity.t) : option (Entity.t * bool) :=
  let with_image i :=
    Entity.mk (Entity.x e) (Entity.y e) (Some i) (Entity.name e)
      (Entity.center_pivot e) (Entity.do_not_arrange e) (Entity.collider e) in
  let portal_in_water :=
    if decide (Entity.name e = "portal")
    then b ← get_biome (World.attrs self) (Entity.x e) (Entity.y e);
         Some (bool_decide (b = Biome.water))
    else Some false in
  if decide (World.player_biome self ≠ Some Biome.water) then
    if decide (Entity.name e ∈ coral_names ++ ["seaweed"]) then Some (e, false)
    else
      hidden ← portal_in_water;
      if hidden : bool then Some (e, false)
      else if decide (Entity.name e = "fire") then Some (with_image fire_frame, true)
      else if decide (Entity.name e = "strong_fire")
           then Some (with_image strong_fire_frame, true)
      else if decide (Entity.name e = "blue_fire")
           then Some (with_image blue_fire_frame, true)
      else Some (e, true)
  else
    if decide (Entity.name e ∈ coral_names) then Some (e, true)
    else if decide (Entity.name e = "seaweed") then Some (with_image seaweed_frame, true)
    else
      shown ← portal_in_water;
      Some (e, shown).

Definition show_chunk (self : World.t) (f1 f2 f3 f4 : Surface) (kc : Z * Z * Chunk.t)
    : option (Z * Z * Chunk.t * list Obj) :=
  r ← mapM (show_decoration self f1 f2 f3 f4) (Chunk.entities kc.2);
  Some (kc.1, Chunk.set_entities r.*1 kc.2, OEntity <$> unmarked ((fun p => (p.1, negb p.2)) <$> r)).

(** [_refresh_entities], without the particle shooter.  The chunks are
    visited in the order of [map_to_list]. *)
Definition World__refresh_entities (now : Z) (dt : Q) (self : World.t) (g : RandomState)
    : option (option (World.t * RandomState)) :=
  let self := World.set_entities [] self in
  match refresh_mobs now dt self g with
  | None => None
  | Some None => Some None
  | Some (Some (self, g)) =>
      Some (
        let '(a1, fire_frame) := Animation.update now (World.fire_animation self) in
        let '(a2, blue_fire_frame) := Animation.update now (World.blue_fire_animation self) in
        let '(a3, strong_fire_frame) := Animation.update now (World.strong_fire_animation self) in
        let '(a4, seaweed_frame) := Animation.update now (World.seaweed_animation self) in
        let self :=
          World.set_seaweed_animation a4 (World.set_strong_fire_animation a3
            (World.set_blue_fire_animation a2 (World.set_fire_animation a1 self))) in
        shown ← mapM (show_chunk self fire_frame blue_fire_frame strong_fire_frame
                        seaweed_frame) (map_to_list (World.loaded_chunks self));
        let self :=
          World.set_entities (World.entities self ++ concat shown.*2)
            (World.set_loaded_chunks (list_to_map shown.*1) self) in
        '(mob_attack, self) ← World__update_projectiles self (World.mob_attack self) dt;
        let self := World.set_mob_attack mob_attack self in
        '(player_attack, self) ← World__update_projectiles self (World.player_attack self) dt;
        Some (World.set_player_attack player_attack self, g))
  end.
End WorldFrame.

(** ** Stand-ins for the external libraries

    A small concrete instance of each library interface, on which the
    model can be run: a linear noise field, square hit boxes of half-width
    32, straight-line movement and a counter as random generator. *)

Definition demo_noise : OpenSimplexLib :=
  fun gen x y => (inject_Z (os_seed gen) * x + y)%Q.

Definition demo_pygame : Pygame :=
  {| colliderect := fun a b =>
       Qle_bool (Qabs (Collider.x a - Collider.x b)) 32
       && Qle_bool (Qabs (Collider.y a - Collider.y b)) 32;
     mask_overlap := fun _ _ => Some (0, 0);
     move_towards := fun p target d => target;
     from_polar := fun r angle => (r, 0%Q);
     degrees_atan2 := fun dy dx => 0%Q |}.

(** Exact arithmetic, and a square root that is exact on the squares the
    examples use. *)
Definition demo_float : PyFloat :=
  {| fl := fun q => q;
     math_sqrt := fun q => Z.sqrt (Qnum q * Zpos (Qden q)) # Qden q |}.

Definition demo_random : RandomLib :=
  {| RandomState := Z;
     random_seed := fun s => Z.of_nat (String.length s);
     random_seed_int := fun n => n;
     random_random := fun g => ((inject_Z (g mod 10) / 10)%Q, g + 1);
     random_randbelow := fun n g => (g mod n, g + 1) |}.

Definition demo_assets : Assets :=
  fun name => (Frame name 0, [Frame name 1]).

(** ** Notions used to state the properties *)

(** The tile of a coordinate is numbered by [floor(c / tile_size)]; this is
    the point [get_biome] samples for it. *)
Definition tile_center (tile_size : Z) (c : Q) : Z :=
  floor (c / inject_Z tile_size) * tile_size + tile_size / 2.

Definition same_tile (tile_size : Z) (x y x' y' : Q) : Prop :=
  floor (x / inject_Z tile_size) = floor (x' / inject_Z tile_size)
  /\ floor (y / inject_Z tile_size) = floor (y' / inject_Z tile_size).

(** The noise sample at a tile centre, shifted by the axis offsets and
    scaled by [biome_size]. *)
Definition sample `{OpenSimplexLib} (world : WorldAttrs) (gen : OpenSimplex)
    (cx cy : Z) (offx offy : option Q) : Q :=
  let bs := inject_Z (getattr (biome_size world) 1) in
  noise2 gen ((inject_Z cx + getattr offx 0) / bs)%Q
             ((inject_Z cy + getattr offy 0) / bs)%Q.

(** A world with both generators (on the stand-in noise) and a room. *)
Definition demo_attrs : WorldAttrs :=
  {| temp_noise_generator := Some {| os_seed := 1 |};
     moist_noise_generator := Some {| os_seed := -1 |};
     tile_size := TILE_SIZE;
     offset1 := None; offset2 := None; offset3 := None; offset4 := None;
     biome_size := None |}.

Definition room_attrs : WorldAttrs :=
  {| temp_noise_generator := None; moist_noise_generator := None;
     tile_size := TILE_SIZE;
     offset1 := None; offset2 := None; offset3 := None; offset4 := None;
     biome_size := None |}.

(** How far a projectile is from where it was fired, as
    [utility.distance] computes it. *)
Definition displacement `{PyFloat} (p : Projectile.t) : Q :=
  distance (Projectile.x p) (Projectile.y p)
    (Projectile.origin_x p) (Projectile.origin_y p).

(** [for dt in dts: p.update(dt)] *)
Fixpoint Projectile_run `{PyFloat} `{Pygame} (dts : list Q) (p : Projectile.t) : option Projectile.t :=
  match dts with
  | [] => Some p
  | dt :: dts => p ← Projectile_update dt p; Projectile_run dts p
  end.

(** *** Damage resolution against the mob-attack pool, attack by attack *)

Section Resolution.
Context `{Pygame}.

Definition hits_player (player : Player.t) (a : Attack) : bool :=
  bool_decide (is_Some (Collider_collide (Attack_collider a) (Player.collider player))).

(** The damage one attack of the pool deals in a resolution pass. *)
Definition resolve_damage (now : Z) (player : Player.t) (a : Attack) : Player.t :=
  if hits_player player a then
    match a with
    | AProjectile p => Player_get_damage (Projectile.damage p) player
    | AShockWave s =>
        if TimeKeeper.is_finished now (ShockWave.timer s)
        then Player_get_damage (ShockWave.damage s) player
        else player
    end
  else player.

(** What the pass leaves of one attack in the pool. *)
Definition resolve_attack (now : Z) (player : Player.t) (a : Attack) : option Attack :=
  if hits_player player a then
    match a with
    | AProjectile p => None
    | AShockWave s =>
        if TimeKeeper.is_finished now (ShockWave.timer s)
        then Some (AShockWave
                     (ShockWave_set_timer (TimeKeeper.reset now (ShockWave.timer s)) s))
        else Some a
    end
  else Some a.

(** The same pass, spelled out on the numbers.  The damage an attack
    deals in a pass at [now], if any: a projectile that touches the
    player deals its damage; a shock wave that touches deals it only
    when its timer has run out. *)
Definition dealt (now : Z) (player : Player.t) (a : Attack) : option Q :=
  if hits_player player a then
    match a with
    | AProjectile p => Some (Projectile.damage p)
    | AShockWave s =>
        if TimeKeeper.is_finished now (ShockWave.timer s)
        then Some (ShockWave.damage s) else None
    end
  else None.

(** Hit points after a damage [d]: scaled by the defence, none at all
    for a dead player or a defence of 100, never below zero. *)
Definition hp_after (alive : bool) (defence hp d : Q) : Q :=
  let hp :=
    if alive && negb (Qeq_bool defence 100)
    then (hp - d * ((100 - defence) / 100))%Q else hp in
  if Qltb hp 0 then 0%Q else hp.

(** A shock wave whose timer was restarted at [now]. *)
Definition rearmed (now : Z) (s : ShockWave.t) : ShockWave.t :=
  ShockWave.mk (ShockWave.x s) (ShockWave.y s) (ShockWave.image s)
    (ShockWave.name s) (ShockWave.origin_image s) (ShockWave.vel s)
    (ShockWave.damage s) (ShockWave.wave_distance s)
    (ShockWave.wave_max_distance s) (ShockWave.collider s)
    (ShockWave.attack_speed s)
    {| TimeKeeper.duration := TimeKeeper.duration (ShockWave.timer s);
       TimeKeeper.start_time := now |}
    (ShockWave.alive s).

(** What a pass at [now] leaves of an attack in the pool. *)
Definition left_in_pool (now : Z) (player : Player.t) (a : Attack) : option Attack :=
  match a with
  | AProjectile p => if hits_player player a then None else Some a
  | AShockWave s =>
      match dealt now player a with
      | Some _ => Some (AShockWave (rearmed now s))
      | None => Some a
      end
  end.
End Resolution.

(** A world on the stand-ins: the player at the origin, no chunk loaded,
    empty pools. *)
Definition demo_world : World.t :=
  {| World.attrs := demo_attrs; World.seed := 42; World.loaded_chunks := ∅;
     World.player := Player_init 0 0; World.chunk_size := CHUNK_SIZE;
     World.width := Some (inject_Z WORLD_SIZE);
     World.height := Some (inject_Z WORLD_SIZE);
     World.entities := []; World.mob := []; World.mob_attack := [];
     World.player_attack := [];
     World.current_chunk := (512, 512); World.last_chunk := (512, 512);
     World.player_biome := Some Biome.fire;
     World.fire_animation := @animation_of demo_assets 0 "fire_frames" 2;
     World.blue_fire_animation := @animation_of demo_assets 0 "blue_fire_frames" 2;
     World.strong_fire_animation := @animation_of demo_assets 0 "strong_fire_frames" 4;
     World.seaweed_animation := @animation_of demo_assets 0 "seaweed_frames" 2 |}.

Definition demo_ball : Projectile.t :=
  Projectile.init 0 0 "burster_fire_ball" 1000 0 (Some (Image "fire_ball_image")) 1 500.

Definition demo_wave : ShockWave.t :=
  ShockWave.init 0 0 0 "plower_shock_wave" 700 (Image "shock_wave") 1 800.

(** *** Chunk streaming *)

(** The 3 x 3 block of chunk centres around [c]. *)
Definition chunk_ring (cs : Z) (c : Z * Z) : list (Z * Z) :=
  i ← [-1; 0; 1]; j ← [-1; 0; 1]; [(c.1 + i * cs, c.2 + j * cs)].

Definition ring_set (cs : Z) (c : Z * Z) : gset (Z * Z) := list_to_set (chunk_ring cs c).

(** The centre of the chunk the player stands in. *)
Definition player_chunk (world : World.t) : Z * Z :=
  (tile_center (World.chunk_size world) (Player.x (World.player world)),
   tile_center (World.chunk_size world) (Player.y (World.player world))).

(** The float additions [player.x + i * chunk_size] and
    [player.y + j * chunk_size] of [_load_chunks_around_player] are
    exact: none of them rounds. *)
Definition exact_ring `{PyFloat} (world : World.t) : Prop :=
  Forall (fun i : Z =>
            fl (Player.x (World.player world)
                + inject_Z (i * World.chunk_size world))%Q
            = (Player.x (World.player world)
               + inject_Z (i * World.chunk_size world))%Q
            /\ fl (Player.y (World.player world)
                   + inject_Z (i * World.chunk_size world))%Q
               = (Player.y (World.player world)
                  + inject_Z (i * World.chunk_size world))%Q)
         [-1; 0; 1].

(** The world states the streamer can be in: built by [World(seed)], then
    any interleaving of the chunk bookkeeping of [update] with changes to
    the player (its own update moves it at the end of every frame).  The
    states are those reached while the ring additions were exact
    whenever chunks were loaded. *)
Inductive streaming `{PyFloat} `{Pygame} `{OpenSimplexLib} `{Assets} `{RandomLib}
    : World.t -> Prop :=
| streaming_init now seed g world g' :
    World_init now seed g = Some (world, g') -> exact_ring world ->
    streaming world
| streaming_update world g world' g' :
    streaming world ->
    (World.last_chunk world <> player_chunk world -> exact_ring world) ->
    World_update_chunks world g = Some (world', g') ->
    streaming world'
| streaming_player world player :
    streaming world -> streaming (World.set_player player world).

(** [n] frames in which the player is put at the positions [moves] in
    turn, each followed by the chunk bookkeeping. *)
Fixpoint World_frames `{PyFloat} `{Pygame} `{OpenSimplexLib} `{Assets} `{RandomLib}
    (moves : list Player.t) (world : World.t) : Gen World.t :=
  match moves with
  | [] => gen_ret world
  | player :: moves =>
      world <~ World_update_chunks (World.set_player player world);;
      World_frames moves world
  end.

(** The sizes under which nothing in the world's arithmetic can raise:
    every [World] is built with 128, 8192 and 1024. *)
Definition sizes_ok (world : World.t) : Prop :=
  tile_size (World.attrs world) <> 0
  /\ getattr (biome_size (World.attrs world)) 1 <> 0
  /\ 0 < World.chunk_size world.

(** A computation that returns, whatever generator state it is given. *)
Definition gen_total `{RandomLib} {A} (m : Gen A) : Prop := forall g, is_Some (m g).

(** The two chunk centres are neighbours across exactly one boundary. *)
Definition one_boundary (cs : Z) (c c' : Z * Z) : Prop :=
  (c'.2 = c.2 /\ (c'.1 = c.1 + cs \/ c'.1 = c.1 - cs))
  \/ (c'.1 = c.1 /\ (c'.2 = c.2 + cs \/ c'.2 = c.2 - cs)).

(** *** Mobs *)

(** The attributes the attack state machine reads and writes. *)
Definition control (m : Mob.t) :=
  (Mob.state m, Mob.last_state m, Mob.attack_startup_timer m,
   Mob.attack_recovery_timer m, Mob.attack_startup m, Mob.attack_recovery m,
   Mob.attack_distance m, Mob.view m, Mob.detect_player m, Mob.attack_possible m,
   Mob.move_while_attack m, Mob.class m).

Definition hits_mob `{Pygame} (m : Mob.t) (a : Attack) : bool :=
  bool_decide (is_Some (Collider_collide (Mob.collider m) (Attack_collider a))).

(** The damage one attack of the player's pool deals to a mob. *)
Definition mob_damage `{Pygame} (m : Mob.t) (a : Attack) : Mob.t :=
  if hits_mob m a then Mob_get_damage (Attack_damage a) m else m.

(** The state machine's result for the frame: the transitions when the
    player is alive, idle otherwise. *)
Definition Mob_decide `{PyFloat} (now : Z) (world : World.t) (m : Mob.t) : Mob.t :=
  if Player.alive (World.player world)
  then Mob_transitions now (Mob_sense world m)
  else Mob.set_state MobState.idle (Mob_sense world m).

(** A collider can always be refreshed: it is a mask collider, or the
    mob has no image at all. *)
Definition collider_ok (m : Mob.t) : Prop :=
  Collider.type (Mob.collider m) = mask_collider
  \/ (Mob.attack_animation m = None /\ Mob.original_image m = None).

(** Whether an attack of the player's pool is still in it after a mob
    resolved its hits: only colliding projectiles are taken out. *)
Definition survives_mob `{Pygame} (m : Mob.t) (a : Attack) : bool :=
  match a with
  | AProjectile _ => negb (hits_mob m a)
  | AShockWave _ => true
  end.

(** What the state machine leaves alone: the body of the mob and the
    parameters of its attack. *)
Definition body (m : Mob.t) :=
  (Mob.x m, Mob.y m, Mob.hp m, Mob.alive m, Mob.collider m,
   Mob.attack_animation m, Mob.original_image m).

Definition params (m : Mob.t) :=
  (Mob.last_state m, Mob.attack_startup m, Mob.attack_recovery m,
   Mob.attack_distance m, Mob.view m, Mob.detect_player m, Mob.attack_possible m,
   Mob.move_while_attack m, Mob.class m).

(** *** The attack cycle *)

(** The player is alive and the mob senses it within both its view and
    its attack distance. *)
Definition in_reach `{PyFloat} (world : World.t) (m : Mob.t) : Prop :=
  Player.alive (World.player world) = true
  /\ Mob.detect_player (Mob_sense world m) = true
  /\ Mob.attack_possible (Mob_sense world m) = true.

(** Where a mob is in its attack cycle between two updates.  An update
    ends by copying the state to [last_state], so the two agree. *)
Definition resting (m : Mob.t) : Prop :=
  Mob.state m = MobState.idle /\ Mob.last_state m = MobState.idle.

Definition winding_up (since : Z) (m : Mob.t) : Prop :=
  Mob.state m = MobState.attack_startup /\ Mob.last_state m = MobState.attack_startup
  /\ Mob.attack_startup_timer m = TimeKeeper.init since (Some (Mob.attack_startup m)).

Definition striking (m : Mob.t) : Prop :=
  Mob.state m = MobState.attack_execute /\ Mob.last_state m = MobState.attack_execute.

Definition recovering (since : Z) (m : Mob.t) : Prop :=
  Mob.state m = MobState.attack_recovery /\ Mob.last_state m = MobState.attack_recovery
  /\ Mob.attack_recovery_timer m = TimeKeeper.init since (Mob.attack_recovery m).

(** One update of a simulation: the clock reading in milliseconds, the
    world of that frame and the frame time. *)
Record Tick := at_time { now_of : Z; world_of : World.t; dt_of : Q }.

(** [for tick in ticks: m.update(world, dt)] on a plain [Mob]: the mob
    after each update. *)
Fixpoint Mob_run `{PyFloat} `{Pygame} `{OpenSimplexLib} (ticks : list Tick) (m : Mob.t)
    : option (list Mob.t) :=
  match ticks with
  | [] => Some []
  | tick :: ticks =>
      '(m, _) ← Mob_update (now_of tick) (world_of tick) (dt_of tick) m;
      ms ← Mob_run ticks m;
      Some (m :: ms)
  end.

(** The player stays in reach of the mob over a whole run, in worlds of
    sound sizes. *)
Fixpoint engaged `{PyFloat} `{Pygame} `{OpenSimplexLib} (ticks : list Tick) (m : Mob.t) : Prop :=
  match ticks with
  | [] => True
  | tick :: ticks =>
      in_reach (world_of tick) m /\ sizes_ok (world_of tick)
      /\ forall m' world',
           Mob_update (now_of tick) (world_of tick) (dt_of tick) m = Some (m', world') ->
           engaged ticks m'
  end.

(** *** What an update of each class delivers *)

(** The mob on which [BossSelf.update] runs [Mob.update] has the boss's
    pattern parameters set; for the other classes it is the mob itself.
    The state machine's own attributes are the same. *)
Definition same_machine (m0 m : Mob.t) : Prop :=
  Mob.state m0 = Mob.state m /\ Mob.last_state m0 = Mob.last_state m
  /\ Mob.attack_startup_timer m0 = Mob.attack_startup_timer m
  /\ Mob.attack_recovery_timer m0 = Mob.attack_recovery_timer m
  /\ Mob.attack_startup m0 = Mob.attack_startup m
  /\ Mob.hp m0 = Mob.hp m /\ Mob.alive m0 = Mob.alive m
  /\ Mob.collider m0 = Mob.collider m
  /\ Mob.attack_animation m0 = Mob.attack_animation m
  /\ Mob.original_image m0 = Mob.original_image m
  /\ Mob.x m0 = Mob.x m /\ Mob.y m0 = Mob.y m.

(** The attack of a mob that ended its update in [attack_execute], by
    class: [after] is the world [Mob.update] left with the attack
    delivered. *)
Definition delivers `{Assets} (now : Z) (m : Mob.t) (world after : World.t) : Prop :=
  match Mob.class m with
  | cMob => after = world
  | cBurster =>
      after = World.set_mob_attack (World.mob_attack world ++ burster_volley m) world
  | cBiter | cFlutterer =>
      after = World.set_player (Player_get_damage 1 (World.player world)) world
  | cPlower =>
      after = World.set_mob_attack (World.mob_attack world ++ [plower_wave now m]) world
  | cBossSelf BossSelfState.projectile _ _ =>
      exists angle,
        after = World.set_mob_attack (World.mob_attack world ++ boss_fan m angle) world
  | cBossSelf BossSelfState.wave _ _ =>
      after = World.set_mob_attack (World.mob_attack world ++ [boss_wave now m]) world
  | cBossSelf BossSelfState.summon_minions _ _ =>
      after = World.set_mob (World.mob world ++ boss_minions now m) world
  end.

(** A boss acts only once the story has set its [start] flag. *)
Definition dormant (m : Mob.t) : Prop :=
  exists next_attack timer, Mob.class m = cBossSelf next_attack false timer.

(** ** TimeKeeper *)

Lemma is_finished_since (now start : Z) (d : Q) :
  TimeKeeper.is_finished now (TimeKeeper.init start (Some d)) = true
  <-> (d * 1000 <= inject_Z (now - start))%Q.
Proof.
  unfold TimeKeeper.is_finished. cbn. rewrite Qle_bool_iff.
  split; intros Hd.
  - apply (Qmult_le_r _ _ 1000) in Hd; [|reflexivity].
    assert (E : (inject_Z (now - start) / 1000 * 1000 == inject_Z (now - start))%Q)
      by (field; discriminate).
    now rewrite E in Hd.
  - apply Qle_shift_div_l; [reflexivity|exact Hd].
Qed.

Lemma is_finished_at_start (now : Z) (d : Q) :
  (0 < d)%Q -> TimeKeeper.is_finished now (TimeKeeper.init now (Some d)) = false.
Proof.
  intros Hd.
  destruct (TimeKeeper.is_finished now _) eqn:E; [|reflexivity].
  apply is_finished_since in E. rewrite Z.sub_diag in E.
  change (inject_Z 0) with 0%Q in E. lra.
Qed.

(** A timer of [ms] milliseconds is finished from [start + ms] on. *)
Lemma is_finished_ms (now start ms : Z) :
  TimeKeeper.is_finished now (TimeKeeper.init start (Some (inject_Z ms / 1000)%Q))
  = bool_decide (start + ms <= now).
Proof.
  assert (E : (inject_Z ms / 1000 * 1000 == inject_Z ms)%Q) by (field; discriminate).
  destruct (bool_decide (start + ms <= now)) eqn:D.
  - apply bool_decide_eq_true in D. apply is_finished_since. rewrite E.
    rewrite <- Zle_Qle. lia.
  - apply bool_decide_eq_false in D.
    destruct (TimeKeeper.is_finished now _) eqn:F; [|reflexivity].
    apply is_finished_since in F. rewrite E in F. rewrite <- Zle_Qle in F. lia.
Qed.


(** * Properties *)

(** ** Arithmetic *)

Lemma Qltb_lt (a b : Q) : Qltb a b = true <-> (a < b)%Q.
Proof.
  unfold Qltb. rewrite negb_true_iff. split.
  - intros E. apply Qnot_le_lt. intros L. apply Qle_bool_iff in L. congruence.
  - intros L. destruct (Qle_bool b a) eqn:E; [|reflexivity].
    apply Qle_bool_iff in E. exfalso. apply (Qlt_not_le _ _ L E).
Qed.

Lemma Qltb_ge (a b : Q) : Qltb a b = false <-> (b <= a)%Q.
Proof.
  unfold Qltb. rewrite negb_false_iff. apply Qle_bool_iff.
Qed.

Lemma true_div_nonzero (a : Q) (b : Z) :
  b <> 0 -> true_div a (inject_Z b) = Some (a / inject_Z b)%Q.
Proof.
  intros Hb. unfold true_div.
  destruct (Qeq_bool (inject_Z b) 0) eqn:E; [|reflexivity].
  apply Qeq_bool_iff in E. unfold Qeq in E. simpl in E. lia.
Qed.

Lemma centered_nonzero (ts : Z) (c : Q) :
  ts <> 0 -> centered ts c = Some (tile_center ts c).
Proof.
  intros Hts. unfold centered. rewrite true_div_nonzero by assumption. reflexivity.
Qed.

Lemma centered_same (ts : Z) (c c' : Q) :
  floor (c / inject_Z ts) = floor (c' / inject_Z ts) -> centered ts c = centered ts c'.
Proof.
  intros E. unfold centered, true_div.
  destruct (Qeq_bool (inject_Z ts) 0); cbn [mbind option_bind]; [reflexivity|]. now rewrite E.
Qed.

Section C1.
Context `{OpenSimplexLib}.

Lemma get_biome_present world x y tg mg :
  temp_noise_generator world = Some tg ->
  moist_noise_generator world = Some mg ->
  tile_size world <> 0 -> getattr (biome_size world) 1 <> 0 ->
  let cx := tile_center (tile_size world) x in
  let cy := tile_center (tile_size world) y in
  let temp := sample world tg cx cy (offset1 world) (offset2 world) in
  let moist := sample world mg cx cy (offset3 world) (offset4 world) in
  get_biome world x y =
    Some (if Qltb 0 temp
          then if Qltb 0 moist then Biome.air else Biome.fire
          else if Qltb 0 moist then Biome.water else Biome.dirt).
Proof.
  intros Ht Hm Hts Hbs. simpl. unfold get_biome. rewrite Ht, Hm.
  rewrite !centered_nonzero by assumption. simpl.
  unfold noise_coord. rewrite !true_div_nonzero by assumption. simpl.
  unfold sample. repeat case_match; reflexivity.
Qed.

(** C1. Without both noise fields the biome is [fifth_biome].  With them
    (and non-zero tile and biome sizes, as every world has), the biome is
    decided by the signs of the temperature and moisture samples taken at
    the centre of the tile of (x, y): air, fire, water or dirt.  Two
    coordinates of the same tile get the same biome. *)
Theorem get_biome_classification (world : WorldAttrs) (x y : Q) :
  ((temp_noise_generator world = None \/ moist_noise_generator world = None) ->
   get_biome world x y = Some Biome.fifth_biome)
  /\ (forall tg mg,
        temp_noise_generator world = Some tg ->
        moist_noise_generator world = Some mg ->
        tile_size world <> 0 -> getattr (biome_size world) 1 <> 0 ->
        let cx := tile_center (tile_size world) x in
        let cy := tile_center (tile_size world) y in
        let temp := sample world tg cx cy (offset1 world) (offset2 world) in
        let moist := sample world mg cx cy (offset3 world) (offset4 world) in
        ((0 < temp)%Q -> (0 < moist)%Q -> get_biome world x y = Some Biome.air)
        /\ ((0 < temp)%Q -> (moist <= 0)%Q -> get_biome world x y = Some Biome.fire)
        /\ ((temp <= 0)%Q -> (0 < moist)%Q -> get_biome world x y = Some Biome.water)
        /\ ((temp <= 0)%Q -> (moist <= 0)%Q -> get_biome world x y = Some Biome.dirt))
  /\ (forall x' y',
        same_tile (tile_size world) x y x' y' ->
        get_biome world x' y' = get_biome world x y).
Proof.
  split; [|split].
  - unfold get_biome. intros [E|E]; rewrite E; [reflexivity|].
    destruct (temp_noise_generator world); reflexivity.
  - intros tg mg Ht Hm Hts Hbs. simpl.
    rewrite (get_biome_present world x y tg mg Ht Hm Hts Hbs). simpl.
    repeat split; intros Ha Hb.
    + apply Qltb_lt in Ha, Hb. now rewrite Ha, Hb.
    + apply Qltb_lt in Ha. apply Qltb_ge in Hb. now rewrite Ha, Hb.
    + apply Qltb_ge in Ha. apply Qltb_lt in Hb. now rewrite Ha, Hb.
    + apply Qltb_ge in Ha, Hb. now rewrite Ha, Hb.
  - intros x' y' [Ex Ey]. unfold get_biome.
    rewrite (centered_same _ _ _ Ex), (centered_same _ _ _ Ey). reflexivity.
Qed.
End C1.

Lemma get_biome_classification_witness :
  @get_biome demo_noise room_attrs 5 5 = Some Biome.fifth_biome
  /\ @get_biome demo_noise demo_attrs 0 200 = Some Biome.air
  /\ @get_biome demo_noise demo_attrs 0 0 = Some Biome.fire
  /\ @get_biome demo_noise demo_attrs (-300) 0 = Some Biome.water
  /\ @get_biome demo_noise demo_attrs (-300) (-300) = Some Biome.dirt
  /\ @get_biome demo_noise demo_attrs 100 (1 # 2) = @get_biome demo_noise demo_attrs 0 0.
Proof.
  pose proof (@get_biome_classification demo_noise) as T.
  assert (Hts : tile_size demo_attrs <> 0) by (vm_compute; discriminate).
  assert (Hbs : getattr (biome_size demo_attrs) 1 <> 0) by (vm_compute; discriminate).
  split; [exact (proj1 (T room_attrs 5%Q 5%Q) (or_introl eq_refl))|].
  split.
  { destruct (T demo_attrs 0%Q 200%Q) as (_ & P & _).
    apply (P _ _ eq_refl eq_refl Hts Hbs); reflexivity. }
  split.
  { destruct (T demo_attrs 0%Q 0%Q) as (_ & P & _).
    apply (P _ _ eq_refl eq_refl Hts Hbs); [reflexivity | vm_compute; discriminate]. }
  split.
  { destruct (T demo_attrs (-300)%Q 0%Q) as (_ & P & _).
    apply (P _ _ eq_refl eq_refl Hts Hbs); [vm_compute; discriminate | reflexivity]. }
  split.
  { destruct (T demo_attrs (-300)%Q (-300)%Q) as (_ & P & _).
    apply (P _ _ eq_refl eq_refl Hts Hbs); vm_compute; discriminate. }
  destruct (T demo_attrs 0%Q 0%Q) as (_ & _ & P).
  apply P. split; reflexivity.
Defined.

(** ** Mob.get_damage *)

Lemma int_fraction (d : Q) : (0 < d)%Q -> (d < 1)%Q -> int d = 0.
Proof.
  destruct d as [n p]. unfold Qlt, int. simpl. intros H0 H1.
  apply Z.quot_small. lia.
Qed.

Lemma Mob_get_damage_hp (d : Q) (m : Mob.t) :
  Mob.hp (Mob_get_damage d m) =
    if Mob.alive m
    then if Qltb (Mob.hp m - inject_Z (int d)) 0 then 0%Q
         else (Mob.hp m - inject_Z (int d))%Q
    else if Qltb (Mob.hp m) 0 then 0%Q else Mob.hp m.
Proof.
  unfold Mob_get_damage. destruct (Mob.alive m); simpl;
    match goal with |- context [Qltb ?a 0] => destruct (Qltb a 0) end; reflexivity.
Qed.

Lemma Mob_get_damage_alive (d : Q) (m : Mob.t) :
  Mob.alive (Mob_get_damage d m) = Mob.alive m.
Proof.
  unfold Mob_get_damage. destruct (Mob.alive m) eqn:E; simpl;
    match goal with |- context [Qltb ?a 0] => destruct (Qltb a 0) end;
    simpl; congruence.
Qed.

Lemma Mob_get_damage_nonneg (d : Q) (m : Mob.t) :
  (0 <= Mob.hp (Mob_get_damage d m))%Q.
Proof.
  rewrite Mob_get_damage_hp.
  destruct (Mob.alive m);
    match goal with |- context [Qltb ?a 0] => destruct (Qltb a 0) eqn:E end;
    try apply Qle_refl; apply Qltb_ge in E; exact E.
Qed.

(** C10, as the code has it.  On an alive mob [get_damage] takes [int(d)]
    off the hit points and stops at zero; a damage strictly between 0 and
    1 truncates to 0 and leaves non-negative hit points as they are; a
    mob that is not alive keeps its (non-negative) hit points. *)
Theorem get_damage_truncates_and_clamps (m : Mob.t) (d : Q) :
  (0 <= Mob.hp m)%Q ->
  (Mob.alive m = true ->
     ((inject_Z (int d) <= Mob.hp m)%Q ->
        Mob.hp (Mob_get_damage d m) == Mob.hp m - inject_Z (int d))
     /\ ((Mob.hp m < inject_Z (int d))%Q -> Mob.hp (Mob_get_damage d m) == 0)
     /\ ((0 < d)%Q -> (d < 1)%Q -> Mob.hp (Mob_get_damage d m) == Mob.hp m))
  /\ (Mob.alive m = false -> Mob.hp (Mob_get_damage d m) == Mob.hp m).
Proof.
  intros Hhp. rewrite Mob_get_damage_hp. split.
  - intros ->. repeat split.
    + intros Hle. destruct (Qltb _ 0) eqn:E; [|reflexivity].
      apply Qltb_lt in E. lra.
    + intros Hlt. destruct (Qltb _ 0) eqn:E; [reflexivity|].
      apply Qltb_ge in E. lra.
    + intros H0 H1. rewrite (int_fraction d H0 H1).
      change (inject_Z 0) with 0%Q.
      destruct (Qltb _ 0) eqn:E; [apply Qltb_lt in E|]; lra.
  - intros ->. destruct (Qltb _ 0) eqn:E; [|reflexivity].
    apply Qltb_lt in E. lra.
Qed.

Lemma get_damage_truncates_and_clamps_witness :
  let m := @Plower demo_assets 0 0 0 in
  Mob.hp (Mob_get_damage 10 m) == 90
  /\ Mob.hp (Mob_get_damage 1000 m) == 0
  /\ Mob.hp (Mob_get_damage (1 # 2) m) == Mob.hp m
  /\ Mob.hp (Mob_get_damage 10 (Mob.set_alive false m)) == Mob.hp m.
Proof.
  intros m.
  assert (Hhp : (0 <= Mob.hp m)%Q) by (vm_compute; discriminate).
  destruct (get_damage_truncates_and_clamps m 10 Hhp) as [A _].
  destruct (A eq_refl) as (A1 & _ & _).
  destruct (get_damage_truncates_and_clamps m 1000 Hhp) as [B _].
  destruct (B eq_refl) as (_ & B2 & _).
  destruct (get_damage_truncates_and_clamps m (1 # 2) Hhp) as [C _].
  destruct (C eq_refl) as (_ & _ & C3).
  destruct (get_damage_truncates_and_clamps (Mob.set_alive false m) 10 Hhp) as [_ D].
  split; [rewrite A1; [reflexivity | vm_compute; discriminate]|].
  split; [apply B2; reflexivity|].
  split; [apply C3; reflexivity|].
  apply (D eq_refl).
Defined.

(** C10 as stated fails on the clamp: a Flutterer has 10 hit points, a
    damage of 90 leaves it at 0, not at 10 - 90. *)
Lemma get_damage_exact_reduction_fails :
  ~ (forall (m : Mob.t) (d : Q),
       Mob.alive m = true ->
       Mob.hp (Mob_get_damage d m) == Mob.hp m - inject_Z (int d)).
Proof.
  intros claim.
  specialize (claim (@Flutterer demo_assets 0 0 0) 90%Q eq_refl).
  vm_compute in claim. discriminate.
Qed.

(** ** Projectile.update *)

Section ProjectileRange.
Context `{PyFloat} `{Pygame}.

(** What every projectile built by [Projectile.init] keeps: its collider
    is of the kind its image asks for, and it is only ever marked dead
    beyond its range. *)
Definition projectile_ok (p : Projectile.t) : Prop :=
  Collider.type (Projectile.collider p) =
    match Projectile.image p with Some _ => mask_collider | None => circle_collider end
  /\ (Projectile.alive p = false -> Projectile_out_of_range p = true).

Lemma projectile_init_ok x y name vel angle image damage shoot_distance :
  projectile_ok (Projectile.init x y name vel angle image damage shoot_distance).
Proof.
  split; [destruct image; reflexivity | discriminate].
Qed.

Lemma Projectile_update_beyond (dt : Q) (p : Projectile.t) :
  Projectile_out_of_range p = true ->
  exists p', Projectile_update dt p = Some p'
    /\ Projectile.alive p' = false
    /\ Projectile.x p' = Projectile.x p /\ Projectile.y p' = Projectile.y p
    /\ Projectile.shoot_distance p' = Projectile.shoot_distance p
    /\ Projectile.origin_x p' = Projectile.origin_x p
    /\ Projectile.origin_y p' = Projectile.origin_y p
    /\ Projectile.image p' = Projectile.image p
    /\ Projectile.collider p' = Projectile.collider p.
Proof.
  intros E. unfold Projectile_update. rewrite E. eexists. split; [reflexivity|].
  repeat split.
Qed.

Lemma Projectile_update_within (dt : Q) (p : Projectile.t) :
  projectile_ok p -> Projectile_out_of_range p = false ->
  exists p', Projectile_update dt p = Some p'
    /\ Projectile.alive p' = Projectile.alive p
    /\ Projectile.shoot_distance p' = Projectile.shoot_distance p
    /\ Projectile.origin_x p' = Projectile.origin_x p
    /\ Projectile.origin_y p' = Projectile.origin_y p
    /\ Projectile.image p' = Projectile.image p
    /\ Collider.type (Projectile.collider p') = Collider.type (Projectile.collider p).
Proof.
  intros [Hty _] E. unfold Projectile_update. rewrite E.
  unfold Collider.update. rewrite Hty.
  destruct (Projectile.image p); cbn [mbind option_bind];
    eexists; (split; [reflexivity|]); repeat split.
Qed.

Lemma Projectile_update_ok (dt : Q) (p : Projectile.t) :
  projectile_ok p ->
  exists p', Projectile_update dt p = Some p' /\ projectile_ok p'
    /\ Projectile.shoot_distance p' = Projectile.shoot_distance p.
Proof.
  intros Hok. destruct (Projectile_out_of_range p) eqn:E.
  - destruct (Projectile_update_beyond dt p E)
      as (p' & Hp' & Ha & Hx & Hy & Hs & Hox & Hoy & Hi & Hc).
    exists p'. repeat split; try assumption.
    + rewrite Hi, Hc. apply Hok.
    + intros _. unfold Projectile_out_of_range. rewrite Hx, Hy, Hs, Hox, Hoy. exact E.
  - destruct (Projectile_update_within dt p Hok E)
      as (p' & Hp' & Ha & Hs & Hox & Hoy & Hi & Hc).
    exists p'. repeat split; try assumption.
    + rewrite Hi, Hc. apply Hok.
    + rewrite Ha. intros Hdead. destruct Hok as [_ Hok]. rewrite (Hok Hdead) in E.
      discriminate.
Qed.

Lemma Projectile_run_ok (dts : list Q) (p : Projectile.t) :
  projectile_ok p ->
  exists p', Projectile_run dts p = Some p' /\ projectile_ok p'
    /\ Projectile.shoot_distance p' = Projectile.shoot_distance p.
Proof.
  revert p. induction dts as [|dt dts IH]; intros p Hok.
  - exists p. repeat split; apply Hok.
  - destruct (Projectile_update_ok dt p Hok) as (p1 & E1 & Hok1 & Hs1).
    destruct (IH p1 Hok1) as (p' & E' & Hok' & Hs').
    exists p'. simpl. rewrite E1. cbn [mbind option_bind].
    repeat split; try assumption; try apply Hok'. congruence.
Qed.

Lemma out_of_range_1000 (p : Projectile.t) :
  Projectile.shoot_distance p = 1000%Q ->
  Projectile_out_of_range p = true <-> (1000 < displacement p)%Q.
Proof.
  intros Hs. unfold Projectile_out_of_range, distance_gt, displacement.
  rewrite Hs. apply Qltb_lt.
Qed.

(** C4. A projectile fired from (0, 0) with a range of 1000 survives any
    run of updates (with any frame times) as an object.  After the run
    it is marked dead only if its displacement, as [utility.distance]
    computes it, exceeds 1000.  The range test comes before the move: an
    update entered with a displacement above 1000 marks the projectile
    dead and does not move it; an update entered with a displacement of
    at most 1000 leaves it alive, wherever its move takes it. *)
Theorem projectile_dies_beyond_range_only (name : string) (vel angle : Q)
    (image : option Surface) (damage : Q) (dts : list Q) :
  exists p,
    Projectile_run dts (Projectile.init 0 0 name vel angle image damage 1000) = Some p
    /\ (Projectile.alive p = false -> (1000 < displacement p)%Q)
    /\ (forall dt, (1000 < displacement p)%Q ->
          exists p', Projectile_update dt p = Some p'
            /\ Projectile.alive p' = false
            /\ Projectile.x p' = Projectile.x p /\ Projectile.y p' = Projectile.y p
            /\ displacement p' = displacement p)
    /\ (forall dt, (displacement p <= 1000)%Q ->
          exists p', Projectile_update dt p = Some p'
            /\ Projectile.alive p' = true).
Proof.
  destruct (Projectile_run_ok dts _
              (projectile_init_ok 0 0 name vel angle image damage 1000))
    as (p & Hrun & Hok & Hs).
  exists p. split; [exact Hrun|]. simpl in Hs.
  pose proof (out_of_range_1000 p Hs) as Hrange.
  split; [|split].
  - intros Hdead. apply Hrange. apply Hok, Hdead.
  - intros dt Hfar. apply Hrange in Hfar.
    destruct (Projectile_update_beyond dt p Hfar)
      as (p' & Hp' & Ha & Hx & Hy & _ & Hox & Hoy & _).
    exists p'. repeat split; try assumption.
    unfold displacement. now rewrite Hx, Hy, Hox, Hoy.
  - intros dt Hnear.
    assert (E : Projectile_out_of_range p = false).
    { destruct (Projectile_out_of_range p) eqn:E; [|reflexivity].
      exfalso. assert (1000 < displacement p)%Q by (now apply Hrange).
      lra. }
    destruct (Projectile_update_within dt p Hok E) as (p' & Hp' & Ha & _).
    exists p'. split; [exact Hp'|]. rewrite Ha.
    destruct (Projectile.alive p) eqn:Hal; [reflexivity|].
    destruct Hok as [_ Hok]. rewrite (Hok Hal) in E. discriminate.
Qed.
End ProjectileRange.

Lemma projectile_dies_beyond_range_only_witness :
  let near := Projectile.init 0 0 "ball" 600 0 None 1 1000 in
  (exists p p',
     @Projectile_run demo_float demo_pygame [1%Q; 1%Q] near = Some p
     /\ @Projectile_update demo_float demo_pygame 1 p = Some p'
     /\ Projectile.alive p = true /\ Projectile.alive p' = false)
  /\ (exists p', @Projectile_update demo_float demo_pygame 1 near = Some p'
        /\ Projectile.alive p' = true).
Proof.
  intros near. split.
  - destruct (@projectile_dies_beyond_range_only demo_float demo_pygame "ball" 600 0
                None 1 [1%Q; 1%Q]) as (p & Hrun & _ & Hfar & _).
    assert (Hd : (1000 < @displacement demo_float p)%Q).
    { vm_compute in Hrun. injection Hrun as <-. reflexivity. }
    destruct (Hfar 1%Q Hd) as (p' & Hp' & Ha & _).
    exists p, p'. repeat split; try assumption.
    vm_compute in Hrun. injection Hrun as <-. reflexivity.
  - destruct (@projectile_dies_beyond_range_only demo_float demo_pygame "ball" 600 0
                None 1 [])
      as (p & Hrun & _ & _ & Hnear).
    injection Hrun as <-.
    apply (Hnear 1%Q). vm_compute. discriminate.
Defined.

(** The claim as first stated fails: fired at 600 per second, after two
    updates of one second the projectile is 1200 from its origin and
    still marked alive. *)
Lemma projectile_alive_beyond_range :
  exists p,
    @Projectile_run demo_float demo_pygame [1%Q; 1%Q]
      (Projectile.init 0 0 "ball" 600 0 None 1 1000) = Some p
    /\ @displacement demo_float p = 1200%Q
    /\ (1000 < @displacement demo_float p)%Q
    /\ Projectile.alive p = true.
Proof. eexists. split; [vm_compute; reflexivity|]. repeat split. Qed.

(** ** Player._update_hp *)

Lemma list_remove_first_middle {A} `{EqDecision A} (x : A) (pre l : list A) :
  x ∉ pre -> list_remove_first x (pre ++ x :: l) = Some (pre ++ l).
Proof.
  induction pre as [|y pre IH]; intros Hx; simpl.
  - now rewrite decide_True.
  - apply not_elem_of_cons in Hx as [Hxy Hx].
    rewrite decide_False by assumption. now rewrite IH.
Qed.

Section PlayerDamage.
Context `{Pygame}.

Lemma Player_get_damage_collider (d : Q) (player : Player.t) :
  Player.collider (Player_get_damage d player) = Player.collider player.
Proof.
  unfold Player_get_damage.
  destruct (Player.alive player && negb (Qeq_bool (Player.defence player) 100));
    simpl; match goal with |- context [Qltb ?a 0] => destruct (Qltb a 0) end; reflexivity.
Qed.

Lemma resolve_damage_collider now player a :
  Player.collider (resolve_damage now player a) = Player.collider player.
Proof.
  unfold resolve_damage. destruct (hits_player player a); [|reflexivity].
  destruct a as [p|s]; [apply Player_get_damage_collider|].
  destruct (TimeKeeper.is_finished now _); [apply Player_get_damage_collider|reflexivity].
Qed.

Lemma hits_player_collide (player : Player.t) (a : Attack) :
  hits_player player a =
    match Collider_collide (Attack_collider a) (Player.collider player) with
    | Some _ => true
    | None => false
    end.
Proof.
  unfold hits_player. destruct (Collider_collide _ _).
  - apply bool_decide_eq_true. eauto.
  - apply bool_decide_eq_false. intros [? ?]. discriminate.
Qed.

Lemma hits_player_collider (p1 p2 : Player.t) (a : Attack) :
  Player.collider p1 = Player.collider p2 -> hits_player p1 a = hits_player p2 a.
Proof. unfold hits_player. now intros ->. Qed.

Lemma resolve_attack_collider now (p1 p2 : Player.t) (a : Attack) :
  Player.collider p1 = Player.collider p2 -> resolve_attack now p1 a = resolve_attack now p2 a.
Proof. unfold resolve_attack. intros E. now rewrite (hits_player_collider p1 p2 a E). Qed.

(** The objects the first loop puts on [attack_to_remove], and the pool
    as the loop leaves it (timers reset in place). *)
Definition marked_by (now : Z) (player : Player.t) (a : Attack) : list Attack :=
  if hits_player player a then
    match a with
    | AProjectile p => [a]
    | AShockWave s =>
        if TimeKeeper.is_finished now (ShockWave.timer s)
        then [AShockWave (ShockWave_set_timer (TimeKeeper.reset now (ShockWave.timer s)) s)]
        else []
    end
  else [].

Definition touched (now : Z) (player : Player.t) (a : Attack) : Attack :=
  match a with
  | AShockWave s =>
      if hits_player player a && TimeKeeper.is_finished now (ShockWave.timer s)
      then AShockWave (ShockWave_set_timer (TimeKeeper.reset now (ShockWave.timer s)) s)
      else a
  | AProjectile _ => a
  end.

Lemma Player_collect_hits_spec now attacks player acc :
  Player_collect_hits now attacks player acc =
    (foldl (resolve_damage now) player attacks,
     acc ++ concat (map (marked_by now player) attacks),
     map (touched now player) attacks).
Proof.
  revert player acc. induction attacks as [|a attacks IH]; intros player acc.
  - simpl. now rewrite app_nil_r.
  - cbn [Player_collect_hits foldl map concat].
    assert (Hrest : forall p1 acc1,
              Player.collider p1 = Player.collider player ->
              Player_collect_hits now attacks p1 acc1 =
                (foldl (resolve_damage now) p1 attacks,
                 acc1 ++ concat (map (marked_by now player) attacks),
                 map (touched now player) attacks)).
    { intros p1 acc1 Ec. rewrite IH. f_equal; [f_equal|].
      - f_equal. f_equal. apply map_ext. intros b. unfold marked_by.
        now rewrite (hits_player_collider p1 player b Ec).
      - apply map_ext. intros b. unfold touched.
        now rewrite (hits_player_collider p1 player b Ec). }
    set (F := foldl (resolve_damage now)) in *.
    set (M := concat (map (marked_by now player) attacks)) in *.
    set (T := map (touched now player) attacks) in *.
    unfold resolve_damage, marked_by, touched.
    destruct (Collider_collide (Attack_collider a) (Player.collider player)) as [ci|] eqn:E.
    + assert (Hh : hits_player player a = true)
        by (rewrite hits_player_collide, E; reflexivity).
      rewrite Hh. destruct a as [p|s].
      * rewrite Hrest by apply Player_get_damage_collider.
        now rewrite <- app_assoc.
      * simpl andb. destruct (TimeKeeper.is_finished now (ShockWave.timer s)).
        -- rewrite Hrest by apply Player_get_damage_collider.
           now rewrite <- app_assoc.
        -- rewrite Hrest by reflexivity. reflexivity.
    + assert (Hh : hits_player player a = false)
        by (rewrite hits_player_collide, E; reflexivity).
      rewrite Hh. rewrite Hrest by reflexivity.
      destruct a; reflexivity.
Qed.

Lemma remove_projectiles_resolved now player attacks pre :
  Forall (fun a => match a with
                   | AProjectile _ => hits_player player a = false
                   | AShockWave _ => True
                   end) pre ->
  remove_projectiles (concat (map (marked_by now player) attacks))
      (pre ++ map (touched now player) attacks)
    = Some (pre ++ omap (resolve_attack now player) attacks).
Proof.
  revert pre. induction attacks as [|a attacks IH]; intros pre Hpre.
  - reflexivity.
  - cbn [map concat omap list_omap].
    set (M := concat (map (marked_by now player) attacks)) in *.
    set (T := map (touched now player) attacks) in *.
    set (O := omap (resolve_attack now player) attacks) in *.
    unfold marked_by, touched, resolve_attack.
    destruct a as [p|s].
    + destruct (hits_player player (AProjectile p)) eqn:Hh.
      * cbn [app remove_projectiles]. rewrite list_remove_first_middle.
        -- cbn [mbind option_bind]. now apply IH.
        -- intros Hin. rewrite Forall_forall in Hpre.
           specialize (Hpre _ Hin). simpl in Hpre. congruence.
      * cbn [app]. rewrite (cons_middle _ pre), app_assoc.
        rewrite IH; [now rewrite <- app_assoc|].
        apply Forall_app. split; [assumption|]. now constructor.
    + destruct (hits_player player (AShockWave s)),
               (TimeKeeper.is_finished now (ShockWave.timer s));
        cbn [andb app remove_projectiles];
        rewrite (cons_middle _ pre), app_assoc;
        (rewrite IH; [now rewrite <- app_assoc|]);
        (apply Forall_app; split; [assumption|]; now constructor).
Qed.

(** Damage changes the hit points and nothing else of the player. *)
Lemma Player_get_damage_hp (d : Q) (player : Player.t) :
  Player_get_damage d player
  = Player.set_hp
      (hp_after (Player.alive player) (Player.defence player) (Player.hp player) d)
      player.
Proof.
  unfold Player_get_damage, hp_after.
  destruct (Player.alive player && negb (Qeq_bool (Player.defence player) 100));
    cbn [Player.hp Player.set_hp];
    match goal with |- context [Qltb ?a 0] => destruct (Qltb a 0) end;
    destruct player; reflexivity.
Qed.

Lemma foldl_resolve_damage now (player : Player.t) (attacks : list Attack) (hp : Q) :
  foldl (resolve_damage now) (Player.set_hp hp player) attacks
  = Player.set_hp
      (foldl (fun h a =>
                match dealt now player a with
                | Some d => hp_after (Player.alive player) (Player.defence player) h d
                | None => h
                end) hp attacks)
      player.
Proof.
  revert hp. induction attacks as [|a attacks IH]; intros hp; [reflexivity|].
  cbn [foldl]. rewrite <- IH. f_equal.
  unfold resolve_damage, dealt.
  rewrite (hits_player_collider (Player.set_hp hp player) player a eq_refl).
  destruct (hits_player player a); [|reflexivity].
  destruct a as [p|s]; [now rewrite Player_get_damage_hp|].
  destruct (TimeKeeper.is_finished now _); [now rewrite Player_get_damage_hp|reflexivity].
Qed.

Lemma resolve_attack_left now (player : Player.t) (a : Attack) :
  resolve_attack now player a = left_in_pool now player a.
Proof.
  unfold resolve_attack, left_in_pool, dealt.
  destruct (hits_player player a); destruct a as [p|s]; try reflexivity.
  destruct (TimeKeeper.is_finished now _); reflexivity.
Qed.

(** C8. A resolution pass never fails and changes only the player's hit
    points and the mob-attack pool.  The hit points take, in pool order,
    the damage of every attack that touches the player: a projectile's
    at once, a shock wave's only if its timer has run out; each damage
    is scaled by the defence and the result kept at zero or above.  The
    pool keeps its order; it loses exactly the projectiles that touched;
    every shock wave stays, and one that dealt damage has its timer
    restarted at the clock reading of the pass.  In a later pass a
    restarted wave that still touches deals its damage again exactly
    when its duration has passed since the restart. *)
Theorem player_damage_resolution (now : Z) (world : World.t) :
  let player := World.player world in
  exists world',
    Player__update_hp now world = Some world'
    /\ world' = World.set_player (World.player world')
                  (World.set_mob_attack (World.mob_attack world') world)
    /\ World.player world' = Player.set_hp (Player.hp (World.player world')) player
    /\ Player.hp (World.player world') =
         foldl (fun h a =>
                  match dealt now player a with
                  | Some d => hp_after (Player.alive player) (Player.defence player) h d
                  | None => h
                  end) (Player.hp player) (World.mob_attack world)
    /\ World.mob_attack world' = omap (left_in_pool now player) (World.mob_attack world)
    /\ (forall p, hits_player player (AProjectile p) = true ->
          AProjectile p ∉ World.mob_attack world')
    /\ (forall s, AShockWave s ∈ World.mob_attack world ->
          AShockWave (if hits_player player (AShockWave s)
                         && TimeKeeper.is_finished now (ShockWave.timer s)
                      then rearmed now s else s) ∈ World.mob_attack world')
    /\ (forall s d now',
          TimeKeeper.duration (ShockWave.timer s) = Some d ->
          hits_player player (AShockWave s) = true ->
          dealt now' (World.player world') (AShockWave (rearmed now s))
          = if Qle_bool (d * 1000) (inject_Z (now' - now))
            then Some (ShockWave.damage s) else None).
Proof.
  intros player. unfold Player__update_hp. rewrite Player_collect_hits_spec. cbn [app].
  pose proof (remove_projectiles_resolved now (World.player world)
                (World.mob_attack world) [] (Forall_nil_2 _)) as Hrem.
  cbn [app] in Hrem. rewrite Hrem. cbn [mbind option_bind].
  eexists. split; [reflexivity|].
  cbn [World.mob_attack World.player World.set_player World.set_mob_attack].
  assert (Hplayer : foldl (resolve_damage now) player (World.mob_attack world)
            = Player.set_hp
                (foldl (fun h a =>
                          match dealt now player a with
                          | Some d =>
                              hp_after (Player.alive player) (Player.defence player) h d
                          | None => h
                          end) (Player.hp player) (World.mob_attack world)) player).
  { rewrite <- foldl_resolve_damage. f_equal. destruct player; reflexivity. }
  fold player. rewrite Hplayer. cbn [Player.hp Player.set_hp].
  split. { destruct world; reflexivity. }
  split; [reflexivity|]. split; [reflexivity|].
  split.
  { apply list_omap_ext, Forall2_same_length_lookup_2; [reflexivity|].
    intros i a b Ha Hb. assert (a = b) as -> by congruence.
    apply resolve_attack_left. }
  split; [|split].
  - intros p Hh Hin. apply list_elem_of_omap in Hin as (a & Ha & Hr).
    unfold resolve_attack in Hr. destruct (hits_player player a) eqn:Ea.
    + destruct a as [q|s]; [discriminate|].
      destruct (TimeKeeper.is_finished now _); discriminate.
    + injection Hr as ->. congruence.
  - intros s Hin.
    apply list_elem_of_omap. exists (AShockWave s). split; [assumption|].
    unfold resolve_attack.
    destruct (hits_player _ _), (TimeKeeper.is_finished now _); reflexivity.
  - intros s d now' Hd Hh. unfold dealt.
    assert (Hh' : hits_player
                    (Player.set_hp
                       (foldl (fun h a =>
                                 match dealt now player a with
                                 | Some d0 =>
                                     hp_after (Player.alive player)
                                       (Player.defence player) h d0
                                 | None => h
                                 end) (Player.hp player) (World.mob_attack world))
                       player) (AShockWave (rearmed now s)) = true) by exact Hh.
    unfold dealt in Hh'. rewrite Hh'.
    cbn [ShockWave.timer rearmed ShockWave.damage]. rewrite Hd.
    change {| TimeKeeper.duration := Some d; TimeKeeper.start_time := now |}
      with (TimeKeeper.init now (Some d)).
    pose proof (is_finished_since now' now d) as Hiff.
    destruct (Qle_bool (d * 1000) (inject_Z (now' - now))) eqn:Hle.
    + apply Qle_bool_iff in Hle. now rewrite (proj2 Hiff Hle).
    + destruct (TimeKeeper.is_finished now' _); [|reflexivity].
      pose proof (proj1 Hiff eq_refl) as Hf. apply Qle_bool_iff in Hf. congruence.
Qed.
End PlayerDamage.

Lemma player_damage_resolution_witness :
  let world := World.set_mob_attack [AProjectile demo_ball; AShockWave demo_wave] demo_world in
  exists world',
    @Player__update_hp demo_pygame 1000 world = Some world'
    /\ (Player.hp (World.player world') == 98)%Q
    /\ World.mob_attack world' = [AShockWave (rearmed 1000 demo_wave)]
    /\ ShockWave.timer (rearmed 1000 demo_wave) = TimeKeeper.mk (Some (1 # 10)) 1000
    /\ @dealt demo_pygame 1099 (World.player world') (AShockWave (rearmed 1000 demo_wave))
       = None
    /\ @dealt demo_pygame 1100 (World.player world') (AShockWave (rearmed 1000 demo_wave))
       = Some 1%Q.
Proof.
  intros world.
  destruct (@player_damage_resolution demo_pygame 1000 world)
    as (world' & E & _ & _ & Hhp & Hpool & _ & _ & Hcadence).
  exists world'. split; [exact E|]. split; [|split; [|split; [|split]]].
  - rewrite Hhp. vm_compute. reflexivity.
  - rewrite Hpool. vm_compute. reflexivity.
  - reflexivity.
  - rewrite (Hcadence demo_wave (1 # 10)%Q 1099 eq_refl eq_refl). reflexivity.
  - rewrite (Hcadence demo_wave (1 # 10)%Q 1100 eq_refl eq_refl). reflexivity.
Defined.

(** ** World._append_visible_entity *)

Section Visibility.
Context `{OpenSimplexLib}.

(** An object whose position classifies as biome [b] goes through the
    filter without error; it is appended to the exposed list exactly
    when [b] is water and the player's biome is water, or [b] is not
    water and the player's biome is not water; nothing else of the world
    changes. *)
Lemma append_visible_spec (world : World.t) (e : Obj) (b : Biome.t) :
  get_biome (World.attrs world) (Obj_x e) (Obj_y e) = Some b ->
  exists world',
    World__append_visible_entity world e = Some world'
    /\ (World.player_biome world = Some Biome.water ->
          (b = Biome.water -> World.entities world' = World.entities world ++ [e])
          /\ (b <> Biome.water -> World.entities world' = World.entities world))
    /\ (World.player_biome world <> Some Biome.water ->
          (b <> Biome.water -> World.entities world' = World.entities world ++ [e])
          /\ (b = Biome.water -> World.entities world' = World.entities world))
    /\ world' = World.set_entities (World.entities world') world.
Proof.
  intros Hb. unfold World__append_visible_entity. rewrite Hb.
  cbn [mbind option_bind].
  destruct (decide (World.player_biome world = Some Biome.water)) as [Hp|Hp].
  - destruct (decide (b = Biome.water)) as [Hw|Hw]; eexists;
      (split; [reflexivity|]); (split; [|split]);
      try (intros; split; intros; simpl; congruence);
      destruct world; reflexivity.
  - destruct (decide (b <> Biome.water)) as [Hw|Hw]; eexists;
      (split; [reflexivity|]); (split; [|split]);
      try (intros; split; intros; simpl; congruence);
      try (destruct world; reflexivity).
    intros _. split; intros Hb'; [contradiction|reflexivity].
Qed.
End Visibility.


(** ** Chunk generation *)

Section GenFacts.
Context `{RandomLib}.

Lemma gen_total_ret {A} (a : A) : gen_total (gen_ret a).
Proof. intros g. eexists. reflexivity. Qed.

Lemma gen_total_bind {A B} (m : Gen A) (k : A -> Gen B) :
  gen_total m -> (forall a, gen_total (k a)) -> gen_total (gen_bind m k).
Proof.
  intros Hm Hk g. unfold gen_bind. destruct (Hm g) as [[a g'] ->]. apply Hk.
Qed.

Lemma gen_total_draw {A} (d : RandomState -> A * RandomState) : gen_total (gen_draw d).
Proof. intros g. eexists. reflexivity. Qed.

Lemma gen_total_lift {A} (o : option A) : is_Some o -> gen_total (gen_lift o).
Proof. intros [a ->] g. eexists. reflexivity. Qed.

Lemma gen_total_seed (s : string) : gen_total (gen_seed s).
Proof. intros g. eexists. reflexivity. Qed.

Lemma gen_total_randint (a b : Z) : a <= b -> gen_total (gen_randint a b).
Proof.
  intros Hab. unfold gen_randint. rewrite decide_False by lia. apply gen_total_draw.
Qed.

Lemma gen_total_repeat {S} (n : nat) (body : S -> Gen S) (s : S) :
  (forall s, gen_total (body s)) -> gen_total (gen_repeat n body s).
Proof.
  intros Hbody. revert s. induction n as [|n IH]; intros s.
  - apply gen_total_ret.
  - simpl. apply gen_total_bind; [apply Hbody | exact IH].
Qed.

(** Re-seeding first forgets the generator state. *)
Lemma gen_seed_forgets {A} (s : string) (k : unit -> Gen A) (g1 g2 : RandomState) :
  gen_bind (gen_seed s) k g1 = gen_bind (gen_seed s) k g2.
Proof. reflexivity. Qed.
End GenFacts.


Section ChunkGeneration.
Context `{PyFloat} `{Pygame} `{OpenSimplexLib} `{Assets} `{RandomLib}.

Lemma get_biome_total (attrs : WorldAttrs) (x y : Q) :
  tile_size attrs <> 0 -> getattr (biome_size attrs) 1 <> 0 ->
  is_Some (get_biome attrs x y).
Proof.
  intros Hts Hbs. unfold get_biome.
  destruct (temp_noise_generator attrs) as [tg|]; [|eexists; reflexivity].
  destruct (moist_noise_generator attrs) as [mg|]; [|eexists; reflexivity].
  rewrite !centered_nonzero by assumption. cbn [mbind option_bind].
  unfold noise_coord. rewrite !true_div_nonzero by assumption. cbn [mbind option_bind].
  repeat case_match; eexists; reflexivity.
Qed.

Lemma random_spot_total world x y : sizes_ok world -> gen_total (random_spot world x y).
Proof.
  intros (_ & _ & Hcs). unfold random_spot.
  assert (- World.chunk_size world / 2 <= World.chunk_size world / 2)
    by (apply Z.div_le_mono; lia).
  repeat (apply gen_total_bind; [now apply gen_total_randint|intros ?]).
  apply gen_total_ret.
Qed.

Lemma spot_biome_total world o : sizes_ok world -> gen_total (spot_biome world o).
Proof.
  intros (Hts & Hbs & _). apply gen_total_lift. now apply get_biome_total.
Qed.

Ltac gen_step :=
  first
    [ apply gen_total_ret
    | apply gen_total_draw
    | apply gen_total_seed
    | apply random_spot_total; assumption
    | apply spot_biome_total; assumption
    | apply gen_total_bind; [|intros ?]
    | match goal with |- gen_total (if ?c then _ else _) => destruct c end
    | match goal with |- gen_total (match ?b with _ => _ end) => destruct b end ].

Lemma generate_grass_total world x y ents :
  sizes_ok world -> gen_total (generate_grass world x y ents).
Proof. intros Hok. unfold generate_grass. repeat gen_step. Qed.

Lemma generate_tree_total world x y ents :
  sizes_ok world -> gen_total (generate_tree world x y ents).
Proof. intros Hok. unfold generate_tree. repeat gen_step. Qed.

Lemma generate_fire_total world x y ents :
  sizes_ok world -> gen_total (generate_fire world x y ents).
Proof. intros Hok. unfold generate_fire. repeat gen_step. Qed.

Lemma generate_coral_total world x y ents :
  sizes_ok world -> gen_total (generate_coral world x y ents).
Proof. intros Hok. unfold generate_coral. repeat gen_step. Qed.

Lemma generate_portal_total world x y ents :
  sizes_ok world -> gen_total (generate_portal world x y ents).
Proof. intros Hok. unfold generate_portal. repeat gen_step. Qed.

Lemma Chunk__generate_total world x y ents :
  sizes_ok world -> gen_total (Chunk__generate world x y ents).
Proof.
  intros Hok. unfold Chunk__generate.
  apply gen_total_bind; [apply gen_total_seed|intros _].
  apply gen_total_bind;
    [apply gen_total_repeat; intros; now apply generate_grass_total|intros ?].
  apply gen_total_bind; [|intros; now apply generate_portal_total].
  apply gen_total_repeat. intros s.
  apply gen_total_bind; [now apply generate_tree_total|intros ?].
  apply gen_total_bind; [now apply generate_fire_total|intros ?].
  now apply generate_coral_total.
Qed.

(** Generation reads the world's seed, noise attributes and chunk size,
    and nothing else of it. *)
Lemma Chunk__generate_reads (w1 w2 : World.t) x y ents :
  World.attrs w1 = World.attrs w2 -> World.seed w1 = World.seed w2 ->
  World.chunk_size w1 = World.chunk_size w2 ->
  Chunk__generate w1 x y ents = Chunk__generate w2 x y ents.
Proof.
  intros Ha Hs Hc.
  unfold Chunk__generate, chunk_seed, generate_grass, generate_tree, generate_fire,
    generate_coral, generate_portal, random_spot, spot_biome.
  now rewrite Ha, Hs, Hc.
Qed.
End ChunkGeneration.

(** ** Chunk streaming *)

Lemma floor_unique (x : Q) (z : Z) :
  (inject_Z z <= x)%Q -> (x < inject_Z (z + 1))%Q -> floor x = z.
Proof.
  intros Hle Hlt. unfold floor.
  assert (z <= Qfloor x).
  { rewrite <- (Qfloor_Z z). now apply Qfloor_resp_le. }
  assert (Qfloor x < z + 1).
  { rewrite Zlt_Qlt. eapply Qle_lt_trans; [apply Qfloor_le | exact Hlt]. }
  lia.
Qed.

Lemma floor_add_Z (q : Q) (i : Z) : floor (q + inject_Z i) = floor q + i.
Proof.
  apply floor_unique.
  - rewrite inject_Z_plus. pose proof (Qfloor_le q). unfold floor. lra.
  - replace (floor q + i + 1) with ((floor q + 1) + i) by lia.
    rewrite inject_Z_plus. pose proof (Qlt_floor q). unfold floor. lra.
Qed.

Lemma tile_center_shift (cs : Z) (x : Q) (i : Z) :
  cs <> 0 ->
  tile_center cs (x + inject_Z (i * cs)) = tile_center cs x + i * cs.
Proof.
  intros Hcs. unfold tile_center.
  assert (E : ((x + inject_Z (i * cs)) / inject_Z cs == x / inject_Z cs + inject_Z i)%Q).
  { rewrite inject_Z_mult. field. intros E. unfold Qeq in E. simpl in E. lia. }
  unfold floor at 1. rewrite (Qfloor_comp _ _ E).
  change (Qfloor (x / inject_Z cs + inject_Z i)) with (floor (x / inject_Z cs + inject_Z i)).
  rewrite floor_add_Z. lia.
Qed.

Lemma elem_of_ring_set cs c a b :
  (a, b) ∈ ring_set cs c <->
  (a = c.1 - cs \/ a = c.1 \/ a = c.1 + cs)
  /\ (b = c.2 - cs \/ b = c.2 \/ b = c.2 + cs).
Proof.
  unfold ring_set. rewrite elem_of_list_to_set. unfold chunk_ring. cbn.
  rewrite !elem_of_cons, elem_of_nil. split.
  - intros Hs. repeat destruct Hs as [Hs|Hs]; try contradiction; simplify_eq; lia.
  - intros [Ha Hb].
    destruct Ha as [-> | [-> | ->]], Hb as [-> | [-> | ->]];
      repeat (first [left; f_equal; lia | right]).
Qed.

Ltac distinct_pairs :=
  repeat (apply NoDup_cons; split;
          [rewrite ?not_elem_of_cons; repeat split;
           try (intros E; injection E; lia); apply not_elem_of_nil|]);
  apply NoDup_nil_2.

Lemma ring_set_size cs c : cs <> 0 -> size (ring_set cs c) = 9%nat.
Proof.
  intros Hcs. unfold ring_set. rewrite size_list_to_set; [reflexivity|].
  unfold chunk_ring. cbn. distinct_pairs.
Qed.

(** Moving the centre by one chunk along x drops one column of three. *)
Lemma ring_diff_x cs x y x' :
  0 < cs -> x' = x + cs \/ x' = x - cs ->
  size (ring_set cs (x, y) ∖ ring_set cs (x', y)) = 3%nat.
Proof.
  intros Hcs Hx.
  assert (ring_set cs (x, y) ∖ ring_set cs (x', y) =
          list_to_set [(2 * x - x', y - cs); (2 * x - x', y); (2 * x - x', y + cs)])
    as ->.
  { apply set_eq. intros [a b].
    rewrite elem_of_difference, !elem_of_ring_set, elem_of_list_to_set.
    rewrite !elem_of_cons, elem_of_nil. cbn [fst snd]. split.
    - intros [[Ha Hb] Hn].
      assert (a = 2 * x - x') as ->.
      { destruct (decide (a = 2 * x - x')); [assumption|].
        exfalso. apply Hn. split; [lia|assumption]. }
      destruct Hb as [-> | [-> | ->]]; auto.
    - intros Hin. repeat destruct Hin as [Hin|Hin]; try contradiction; simplify_eq;
        (split; [split; lia | intros [Ha' _]; lia]). }
  rewrite size_list_to_set; [reflexivity|]. distinct_pairs.
Qed.

Lemma ring_diff_y cs x y y' :
  0 < cs -> y' = y + cs \/ y' = y - cs ->
  size (ring_set cs (x, y) ∖ ring_set cs (x, y')) = 3%nat.
Proof.
  intros Hcs Hy.
  assert (ring_set cs (x, y) ∖ ring_set cs (x, y') =
          list_to_set [(x - cs, 2 * y - y'); (x, 2 * y - y'); (x + cs, 2 * y - y')])
    as ->.
  { apply set_eq. intros [a b].
    rewrite elem_of_difference, !elem_of_ring_set, elem_of_list_to_set.
    rewrite !elem_of_cons, elem_of_nil. cbn [fst snd]. split.
    - intros [[Ha Hb] Hn].
      assert (b = 2 * y - y') as ->.
      { destruct (decide (b = 2 * y - y')); [assumption|].
        exfalso. apply Hn. split; [assumption|lia]. }
      destruct Ha as [-> | [-> | ->]]; auto.
    - intros Hin. repeat destruct Hin as [Hin|Hin]; try contradiction; simplify_eq;
        (split; [split; lia | intros [_ Hb']; lia]). }
  rewrite size_list_to_set; [reflexivity|]. distinct_pairs.
Qed.

Lemma ring_diff_one_boundary cs c c' :
  0 < cs -> one_boundary cs c c' ->
  size (ring_set cs c ∖ ring_set cs c') = 3%nat
  /\ size (ring_set cs c' ∖ ring_set cs c) = 3%nat.
Proof.
  intros Hcs Hb. destruct c as [x y], c' as [x' y'].
  unfold one_boundary in Hb. simpl in Hb.
  destruct Hb as [[-> Hx] | [-> Hy]].
  - split; apply ring_diff_x; lia.
  - split; apply ring_diff_y; lia.
Qed.

Section Streaming.
Context `{PyFloat} `{Pygame} `{OpenSimplexLib} `{Assets} `{RandomLib}.

Lemma World__to_chunk_center_shift (world : World.t) (i j : Z) :
  World.chunk_size world <> 0 ->
  World__to_chunk_center world
    (Player.x (World.player world) + inject_Z (i * World.chunk_size world))%Q
    (Player.y (World.player world) + inject_Z (j * World.chunk_size world))%Q
  = Some ((player_chunk world).1 + i * World.chunk_size world,
          (player_chunk world).2 + j * World.chunk_size world).
Proof.
  intros Hcs. unfold World__to_chunk_center.
  rewrite !centered_nonzero by assumption. cbn [mbind option_bind].
  now rewrite !tile_center_shift by assumption.
Qed.

Lemma World__to_chunk_center_player (world : World.t) :
  World.chunk_size world <> 0 ->
  World__to_chunk_center world (Player.x (World.player world))
    (Player.y (World.player world)) = Some (player_chunk world).
Proof.
  intros Hcs. unfold World__to_chunk_center.
  now rewrite !centered_nonzero by assumption.
Qed.

Lemma needed_chunks_ring (world : World.t) :
  World.chunk_size world <> 0 -> exact_ring world ->
  needed_chunks world = Some (chunk_ring (World.chunk_size world) (player_chunk world)).
Proof.
  intros Hcs Hex. unfold needed_chunks.
  change (_ring_range (_ensure_odd LOAD_CHUNK_SIZE)) with [-1; 0; 1].
  cbn [mbind list_bind app mapM fst snd].
  apply Forall_cons in Hex as [[X1 Y1] Hex].
  apply Forall_cons in Hex as [[X2 Y2] Hex].
  apply Forall_cons in Hex as [[X3 Y3] _].
  rewrite X1, Y1, X2, Y2, X3, Y3.
  rewrite !World__to_chunk_center_shift by assumption. reflexivity.
Qed.

(** Whatever the additions round to, nine coordinates are computed. *)
Lemma needed_chunks_total (world : World.t) :
  World.chunk_size world <> 0 -> is_Some (needed_chunks world).
Proof.
  intros Hcs. unfold needed_chunks, World__to_chunk_center.
  change (_ring_range (_ensure_odd LOAD_CHUNK_SIZE)) with [-1; 0; 1].
  cbn [mbind list_bind app mapM fst snd].
  rewrite !centered_nonzero by assumption. cbn [mbind option_bind mret option_ret].
  eexists. reflexivity.
Qed.

Lemma dom_foldr_delete (m : gmap (Z * Z) Chunk.t) (l : list (Z * Z)) :
  dom (foldr delete m l) = dom m ∖ list_to_set l.
Proof.
  induction l as [|k l IH]; simpl.
  - set_solver.
  - rewrite dom_delete_L, IH. set_solver.
Qed.

(** Loading only ever changes the chunk map. *)
Lemma load_if_missing_spec coord world g world' g' :
  load_if_missing coord world g = Some (world', g') ->
  exists m, world' = World.set_loaded_chunks m world
    /\ dom m = dom (World.loaded_chunks world) ∪ {[coord]}.
Proof.
  unfold load_if_missing. destruct (World.loaded_chunks world !! coord) as [c|] eqn:E.
  - intros [= <- <-]. exists (World.loaded_chunks world). split.
    + destruct world; reflexivity.
    + apply (elem_of_dom_2 (D := gset (Z * Z))) in E. set_solver.
  - unfold gen_bind. destruct (Chunk_init _ _ _ g) as [[chunk g1]|]; [|discriminate].
    intros [= <- <-]. eexists. split; [reflexivity|].
    rewrite dom_insert_L. set_solver.
Qed.

Lemma load_loop_spec need world g world' g' :
  gen_for need load_if_missing world g = Some (world', g') ->
  exists m, world' = World.set_loaded_chunks m world
    /\ dom m = dom (World.loaded_chunks world) ∪ list_to_set need.
Proof.
  revert world g. induction need as [|coord need IH]; intros world g.
  - intros [= <- <-]. exists (World.loaded_chunks world). split.
    + destruct world; reflexivity.
    + set_solver.
  - cbn [gen_for]. unfold gen_bind at 1.
    destruct (load_if_missing coord world g) as [[w1 g1]|] eqn:E1; [|discriminate].
    intros E2. apply load_if_missing_spec in E1 as (m1 & -> & Hm1).
    apply IH in E2 as (m & -> & Hm). exists m. split; [reflexivity|].
    rewrite Hm. cbn. rewrite Hm1. set_solver.
Qed.

(** Loading changes the chunk map and nothing else. *)
Lemma World__load_chunks_around_player_frame world g world' g' :
  World__load_chunks_around_player world g = Some (world', g') ->
  exists m, world' = World.set_loaded_chunks m world.
Proof.
  unfold World__load_chunks_around_player, gen_bind at 1.
  destruct (needed_chunks world) as [need|]; [|discriminate]. cbn [gen_lift].
  intros E. apply load_loop_spec in E as (m & -> & Hm).
  exists m. reflexivity.
Qed.

Lemma World__load_chunks_around_player_spec world g world' g' :
  World.chunk_size world <> 0 -> exact_ring world ->
  World__load_chunks_around_player world g = Some (world', g') ->
  exists m, world' = World.set_loaded_chunks m world
    /\ dom m = ring_set (World.chunk_size world) (player_chunk world).
Proof.
  intros Hcs Hex. unfold World__load_chunks_around_player, gen_bind at 1.
  rewrite needed_chunks_ring by assumption. cbn [gen_lift].
  intros E. apply load_loop_spec in E as (m & -> & Hm).
  exists m. split; [reflexivity|]. rewrite Hm.
  cbn [World.loaded_chunks World.set_loaded_chunks].
  rewrite dom_foldr_delete. unfold ring_set.
  generalize (chunk_ring (World.chunk_size world) (player_chunk world)).
  intros need. apply set_eq. intros c.
  rewrite elem_of_union, elem_of_difference, !elem_of_list_to_set, list_elem_of_filter.
  split; [|now right]. intros [[Hc Hn]|Hc]; [|assumption].
  destruct (decide (c ∈ need)) as [Hin|Hout]; [assumption|].
  exfalso. apply Hn. split; [assumption|].
  apply (dom_alt (D := gset (Z * Z))) in Hc. now apply elem_of_list_to_set in Hc.
Qed.

Lemma sizes_ok_set_loaded_chunks m world :
  sizes_ok (World.set_loaded_chunks m world) <-> sizes_ok world.
Proof. reflexivity. Qed.

Lemma Chunk_tiles_total world x y : sizes_ok world -> is_Some (Chunk_tiles world x y).
Proof.
  intros (Hts & Hbs & _). unfold Chunk_tiles. rewrite decide_False by assumption.
  apply mapM_is_Some_2, Forall_forall. intros ij _. unfold compose.
  destruct (get_biome_total (World.attrs world)
              (inject_Z (x + ij.1 * tile_size (World.attrs world)
                         + tile_size (World.attrs world) / 2))
              (inject_Z (y + ij.2 * tile_size (World.attrs world)
                         + tile_size (World.attrs world) / 2)) Hts Hbs) as [tb ->].
  eexists. reflexivity.
Qed.

Lemma Chunk_init_total x y world : sizes_ok world -> gen_total (Chunk_init x y world).
Proof.
  intros Hok. unfold Chunk_init.
  apply gen_total_bind; [now apply gen_total_lift, Chunk_tiles_total|intros tiles].
  apply gen_total_bind; [now apply Chunk__generate_total|intros ents].
  apply gen_total_ret.
Qed.

Lemma load_if_missing_total coord world :
  sizes_ok world -> gen_total (load_if_missing coord world).
Proof.
  intros Hok. unfold load_if_missing.
  destruct (World.loaded_chunks world !! coord); [apply gen_total_ret|].
  apply gen_total_bind; [now apply Chunk_init_total|intros chunk].
  apply gen_total_ret.
Qed.

Lemma load_loop_total need world :
  sizes_ok world -> gen_total (gen_for need load_if_missing world).
Proof.
  revert world. induction need as [|coord need IH]; intros world Hok g.
  - eexists. reflexivity.
  - cbn [gen_for]. unfold gen_bind at 1.
    destruct (load_if_missing_total coord world Hok g) as [[w1 g1] E1]. rewrite E1.
    apply load_if_missing_spec in E1 as (m1 & -> & _). now apply IH.
Qed.

Lemma World__load_chunks_around_player_total world :
  sizes_ok world -> gen_total (World__load_chunks_around_player world).
Proof.
  intros Hok g. unfold World__load_chunks_around_player, gen_bind at 1.
  destruct (needed_chunks_total world) as [need ->];
    [destruct Hok as (_ & _ & ?); lia|].
  cbn [gen_lift]. now apply load_loop_total.
Qed.

(** The chunk bookkeeping of a frame: it never fails; it leaves the map
    alone when the player's chunk is the one of the last frame, and
    otherwise brings it to the ring around the player's chunk. *)
Lemma World_update_chunks_spec world g :
  sizes_ok world ->
  exists world' g',
    World_update_chunks world g = Some (world', g')
    /\ World.last_chunk world' = player_chunk world
    /\ World.player world' = World.player world
    /\ World.chunk_size world' = World.chunk_size world
    /\ World.attrs world' = World.attrs world
    /\ (World.last_chunk world = player_chunk world ->
          World.loaded_chunks world' = World.loaded_chunks world)
    /\ (World.last_chunk world <> player_chunk world -> exact_ring world ->
          dom (World.loaded_chunks world') =
            ring_set (World.chunk_size world) (player_chunk world)).
Proof.
  intros Hok. assert (Hcs : World.chunk_size world <> 0)
    by (destruct Hok as (_ & _ & ?); lia).
  unfold World_update_chunks, gen_bind at 1.
  rewrite World__to_chunk_center_player by assumption. cbn [gen_lift].
  unfold gen_bind.
  destruct (decide (World.last_chunk (World.set_current_chunk (player_chunk world) world)
                    = World.current_chunk
                        (World.set_current_chunk (player_chunk world) world)))
    as [E|E]; cbn in E.
  - eexists _, _. split; [reflexivity|]. repeat split; congruence.
  - destruct (World__load_chunks_around_player_total
                (World.set_current_chunk (player_chunk world) world) Hok g)
      as [[w1 g1] E1].
    rewrite E1.
    destruct (World__load_chunks_around_player_frame _ _ _ _ E1) as (m0 & Hm0).
    eexists _, _. split; [reflexivity|]. rewrite Hm0.
    repeat split; try congruence.
    intros _ Hex.
    apply World__load_chunks_around_player_spec in E1 as (m & Hw & Hm);
      [|assumption|exact Hex].
    rewrite Hm0 in Hw.
    assert (m0 = m) as -> by (apply (f_equal World.loaded_chunks) in Hw; exact Hw).
    exact Hm.
Qed.
End Streaming.

(** ** World construction *)

Section WorldInit.
Context `{PyFloat} `{Pygame} `{OpenSimplexLib} `{Assets} `{RandomLib}.

Lemma gen_bind_inv {A B} (m : Gen A) (k : A -> Gen B) g r :
  gen_bind m k g = Some r -> exists a g1, m g = Some (a, g1) /\ k a g1 = Some r.
Proof.
  unfold gen_bind. destruct (m g) as [[a g1]|]; [|discriminate]. eauto.
Qed.

Ltac gen_inv E :=
  let a := fresh "a" in let g := fresh "g" in let Ea := fresh "Ea" in
  apply gen_bind_inv in E as (a & g & Ea & E).

(** What [World(seed)] fixes from the seed alone, before any chunk is
    loaded. *)
Lemma World_init_spec now seed g world g' :
  World_init now seed g = Some (world, g') ->
  tile_size (World.attrs world) = TILE_SIZE
  /\ biome_size (World.attrs world) = Some BIOME_SIZE
  /\ World.chunk_size world = CHUNK_SIZE
  /\ World.seed world = seed
  /\ World.last_chunk world = player_chunk world
  /\ (exact_ring world ->
      dom (World.loaded_chunks world) = ring_set CHUNK_SIZE (player_chunk world)).
Proof.
  unfold World_init. intros E. do 9 gen_inv E.
  cbv zeta in E. gen_inv E.
  rewrite World__to_chunk_center_player in Ea8 by (cbn; discriminate).
  injection Ea8 as <- <-.
  destruct (World__load_chunks_around_player_frame _ _ _ _ E) as (m0 & Hm0).
  rewrite Hm0. repeat split; try reflexivity.
  intros Hex.
  apply World__load_chunks_around_player_spec in E as (m & Hw & Hm);
    [|cbn; discriminate|exact Hex].
  rewrite Hm0 in Hw.
  assert (m0 = m) as -> by (apply (f_equal World.loaded_chunks) in Hw; exact Hw).
  exact Hm.
Qed.

Lemma World_init_sizes_ok now seed g world g' :
  World_init now seed g = Some (world, g') -> sizes_ok world.
Proof.
  intros E. apply World_init_spec in E as (Hts & Hbs & Hcs & _).
  unfold sizes_ok. rewrite Hts, Hbs, Hcs. repeat split; cbn; discriminate || reflexivity.
Qed.

(** Two worlds built from one seed, at any times and from any generator
    states, agree on everything generation reads. *)
Lemma World_init_seed_only now1 now2 seed g1 g2 w1 w2 g1' g2' :
  World_init now1 seed g1 = Some (w1, g1') ->
  World_init now2 seed g2 = Some (w2, g2') ->
  World.attrs w1 = World.attrs w2
  /\ World.seed w1 = World.seed w2
  /\ World.chunk_size w1 = World.chunk_size w2.
Proof.
  unfold World_init. intros E1 E2.
  gen_inv E1. gen_inv E2. injection Ea as <- <-. injection Ea0 as <- <-.
  do 8 (gen_inv E1; gen_inv E2;
        match goal with
        | Ha : ?m = Some (?a, ?g), Hb : ?m = Some (?b, ?h) |- _ =>
            rewrite Ha in Hb; injection Hb as <- <-
        end).
  cbv zeta in E1, E2. gen_inv E1. gen_inv E2.
  rewrite World__to_chunk_center_player in * by (cbn; discriminate).
  simplify_eq.
  apply World__load_chunks_around_player_frame in E1 as (m1 & ->).
  apply World__load_chunks_around_player_frame in E2 as (m2 & ->).
  repeat split.
Qed.

Lemma World_init_total now seed : gen_total (World_init now seed).
Proof.
  unfold World_init.
  apply gen_total_bind; [intros g; eexists; reflexivity|intros _].
  assert (Hoff : gen_total random_offset).
  { unfold random_offset. repeat (apply gen_total_bind; [apply gen_total_draw|intros ?]).
    apply gen_total_ret. }
  assert (Hgen : gen_total random_generator).
  { unfold random_generator.
    apply gen_total_bind; [apply gen_total_randint; cbn; discriminate|intros ?].
    apply gen_total_bind; [apply gen_total_draw|intros ?]. apply gen_total_ret. }
  do 4 (apply gen_total_bind; [exact Hoff|intros ?]).
  do 2 (apply gen_total_bind; [exact Hgen|intros ?]).
  do 2 (apply gen_total_bind; [apply gen_total_randint; cbn; discriminate|intros ?]).
  cbv zeta.
  apply gen_total_bind.
  - apply gen_total_lift. rewrite World__to_chunk_center_player by (cbn; discriminate).
    eexists. reflexivity.
  - intros c. apply World__load_chunks_around_player_total.
    repeat split; cbn; discriminate || reflexivity.
Qed.
End WorldInit.

Section RegenerationDeterminism.
Context `{PyFloat} `{Pygame} `{OpenSimplexLib} `{Assets} `{RandomLib}.

Lemma Chunk_init_reads (w1 w2 : World.t) x y :
  World.attrs w1 = World.attrs w2 -> World.seed w1 = World.seed w2 ->
  World.chunk_size w1 = World.chunk_size w2 ->
  forall g, Chunk_init x y w1 g = Chunk_init x y w2 g.
Proof.
  intros Ha Hs Hc g. unfold Chunk_init, Chunk_tiles, gen_bind. rewrite Ha, Hc.
  now rewrite (Chunk__generate_reads w1 w2 x y [] Ha Hs Hc).
Qed.

(** C6. Generating the decoration of a chunk starts by re-seeding the
    random stream from the world seed and the chunk coordinate, so for a
    given world the result does not depend on the state the stream was
    in; and two worlds built from the same seed (at any time, from any
    stream state) produce, for the same coordinate, the same list of
    entities: same count, names and positions, in the same order. *)
Theorem chunk_generation_is_a_function_of_seed_and_coordinate
    (now1 now2 seed : Z) (g1 g2 : RandomState) (w1 w2 : World.t)
    (g1' g2' : RandomState) (x y : Z) (h1 h2 : RandomState) :
  World_init now1 seed g1 = Some (w1, g1') ->
  World_init now2 seed g2 = Some (w2, g2') ->
  Chunk__generate w1 x y [] h1 = Chunk__generate w1 x y [] h2
  /\ (exists ents h,
        Chunk__generate w1 x y [] h1 = Some (ents, h)
        /\ Chunk__generate w2 x y [] h2 = Some (ents, h))
  /\ (exists chunk h,
        Chunk_init x y w1 h1 = Some (chunk, h)
        /\ Chunk_init x y w2 h2 = Some (chunk, h)).
Proof.
  intros E1 E2.
  destruct (World_init_seed_only _ _ _ _ _ _ _ _ _ E1 E2) as (Ha & Hs & Hc).
  pose proof (World_init_sizes_ok _ _ _ _ _ E1) as Hok1.
  split; [reflexivity|]. split.
  - destruct (Chunk__generate_total w1 x y [] Hok1 h1) as [[ents h] E].
    exists ents, h. split; [exact E|].
    rewrite <- (Chunk__generate_reads w1 w2 x y [] Ha Hs Hc).
    exact E.
  - destruct (Chunk_init_total x y w1 Hok1 h1) as [[chunk h] E].
    exists chunk, h. split; [exact E|].
    rewrite <- (Chunk_init_reads w1 w2 x y Ha Hs Hc).
    rewrite <- E. unfold Chunk_init, gen_bind, gen_lift.
    destruct (Chunk_tiles w1 x y); reflexivity.
Qed.
End RegenerationDeterminism.

Lemma chunk_generation_is_a_function_of_seed_and_coordinate_witness :
  exists w1 w2 g1 g2 ents h,
    @World_init demo_float demo_noise demo_assets demo_random 0 42 5 = Some (w1, g1)
    /\ @World_init demo_float demo_noise demo_assets demo_random 7 42 99 = Some (w2, g2)
    /\ @Chunk__generate demo_noise demo_random w1 1024 1024 [] 3 = Some (ents, h)
    /\ @Chunk__generate demo_noise demo_random w2 1024 1024 [] 8 = Some (ents, h).
Proof.
  destruct (@World_init_total demo_float demo_noise demo_assets demo_random 0 42 5)
    as [[w1 g1] E1].
  destruct (@World_init_total demo_float demo_noise demo_assets demo_random 7 42 99)
    as [[w2 g2] E2].
  destruct (@chunk_generation_is_a_function_of_seed_and_coordinate
              demo_float demo_noise demo_assets demo_random 0 7 42 5 99 w1 w2 g1 g2
              1024 1024 3 8 E1 E2) as (_ & (ents & h & A & B) & _).
  exists w1, w2, g1, g2, ents, h. repeat split; assumption.
Defined.

Section RingInvariant.
Context `{PyFloat} `{Pygame} `{OpenSimplexLib} `{Assets} `{RandomLib}.

(** What the streamer keeps between frames: sizes under which nothing
    raises, and exactly the ring around the chunk recorded when the
    bookkeeping last ran. *)
Definition ring_loaded (world : World.t) : Prop :=
  sizes_ok world
  /\ dom (World.loaded_chunks world) =
       ring_set (World.chunk_size world) (World.last_chunk world).

Lemma streaming_ring_loaded world : streaming world -> ring_loaded world.
Proof.
  induction 1 as [now seed g world g' E Hex
                 | world g world' g' _ [Hok Hdom] Hex E
                 | world player _ [Hok Hdom]].
  - split; [eapply World_init_sizes_ok; eassumption|].
    apply World_init_spec in E as (_ & _ & -> & _ & -> & Hd). exact (Hd Hex).
  - destruct (World_update_chunks_spec world g Hok)
      as (w1 & g1 & E1 & Hlast & Hpl & Hcs & Hat & Hsame & Hmoved).
    rewrite E1 in E. injection E as <- <-. split.
    + unfold sizes_ok. rewrite Hat, Hcs. exact Hok.
    + rewrite Hcs, Hlast.
      destruct (decide (World.last_chunk world = player_chunk world)) as [Eq|Ne].
      * rewrite (Hsame Eq), Hdom, Eq. reflexivity.
      * exact (Hmoved Ne (Hex Ne)).
  - split; [exact Hok | exact Hdom].
Qed.

Lemma World_frames_same_chunk moves world g :
  ring_loaded world ->
  Forall (fun p => player_chunk (World.set_player p world) = World.last_chunk world)
         moves ->
  exists world' g',
    World_frames moves world g = Some (world', g')
    /\ World.loaded_chunks world' = World.loaded_chunks world.
Proof.
  revert world g. induction moves as [|p moves IH]; intros world g Hring Hall.
  - eexists _, _. split; reflexivity.
  - apply Forall_cons in Hall as [Hp Hall]. destruct Hring as [Hok Hdom].
    cbn [World_frames]. unfold gen_bind.
    destruct (World_update_chunks_spec (World.set_player p world) g Hok)
      as (w1 & g1 & E1 & Hlast & Hpl & Hcs & Hat & Hsame & _).
    rewrite E1. specialize (Hsame (eq_sym Hp)).
    destruct (IH w1 g1) as (w' & g' & E' & Hl').
    + split; [unfold sizes_ok; rewrite Hat, Hcs; exact Hok|].
      rewrite Hsame, Hcs, Hlast, Hp. exact Hdom.
    + eapply Forall_impl; [exact Hall|]. intros q Hq.
      unfold player_chunk in *. cbn in *. rewrite Hcs, Hlast. cbn. rewrite Hq.
      exact (eq_sym Hp).
    + exists w', g'. split; [exact E'|]. rewrite Hl'. exact Hsame.
Qed.

(** C7. In every state of the streamer, reached while no ring addition
    rounded, the chunk map holds 9 chunks: the 3 x 3 ring around the
    chunk recorded by the last bookkeeping, which is the chunk the
    player was in then and need not be the one it has moved to since.
    The bookkeeping of a frame never fails and records the chunk the
    player is in.  It leaves the map as it is when that is still the
    recorded chunk, so any number of frames whose player positions stay
    in that chunk leave it as it is.  Otherwise, when its additions are
    exact, it leaves the ring around the chunk the player is in, again 9
    chunks; when that chunk is a neighbour across one boundary, exactly
    3 coordinates leave the map and exactly 3 enter it. *)
Theorem loaded_chunks_form_the_ring (world : World.t) :
  streaming world ->
  size (World.loaded_chunks world) = 9%nat
  /\ dom (World.loaded_chunks world) =
       ring_set (World.chunk_size world) (World.last_chunk world)
  /\ (forall g, exists world' g',
        World_update_chunks world g = Some (world', g')
        /\ World.last_chunk world' = player_chunk world
        /\ (player_chunk world = World.last_chunk world ->
              World.loaded_chunks world' = World.loaded_chunks world
              /\ streaming world')
        /\ (exact_ring world ->
              streaming world'
              /\ dom (World.loaded_chunks world') =
                   ring_set (World.chunk_size world) (player_chunk world)
              /\ size (World.loaded_chunks world') = 9%nat
              /\ (one_boundary (World.chunk_size world) (World.last_chunk world)
                    (player_chunk world) ->
                    size (dom (World.loaded_chunks world)
                          ∖ dom (World.loaded_chunks world')) = 3%nat
                    /\ size (dom (World.loaded_chunks world')
                             ∖ dom (World.loaded_chunks world)) = 3%nat)))
  /\ (forall moves g,
        Forall (fun p => player_chunk (World.set_player p world)
                         = World.last_chunk world) moves ->
        exists world' g',
          World_frames moves world g = Some (world', g')
          /\ World.loaded_chunks world' = World.loaded_chunks world).
Proof.
  intros Hs. pose proof (streaming_ring_loaded world Hs) as [Hok Hdom].
  assert (Hcs : World.chunk_size world <> 0) by (destruct Hok as (_ & _ & ?); lia).
  assert (Hpos : 0 < World.chunk_size world) by (destruct Hok as (_ & _ & ?); lia).
  split; [|split; [exact Hdom|split]].
  - rewrite <- (size_dom (D := gset (Z * Z))), Hdom. now apply ring_set_size.
  - intros g.
    destruct (World_update_chunks_spec world g Hok)
      as (w1 & g1 & E1 & Hlast & Hpl & Hcs1 & Hat & Hsame & Hmoved).
    exists w1, g1. split; [exact E1|]. split; [exact Hlast|]. split.
    + intros Eq. split; [apply Hsame; now symmetry|].
      eapply streaming_update; [exact Hs| |exact E1].
      intros Ne. contradiction Ne. now symmetry.
    + intros Hex.
      split; [eapply streaming_update; [exact Hs|intros _; exact Hex|exact E1]|].
      assert (Hd1 : dom (World.loaded_chunks w1) =
                    ring_set (World.chunk_size world) (player_chunk world)).
      { destruct (decide (World.last_chunk world = player_chunk world)) as [Eq|Ne].
        - rewrite (Hsame Eq), Hdom, Eq. reflexivity.
        - exact (Hmoved Ne Hex). }
      split; [exact Hd1|]. split.
      * rewrite <- (size_dom (D := gset (Z * Z))), Hd1. now apply ring_set_size.
      * intros Hb. rewrite Hd1, Hdom. now apply ring_diff_one_boundary.
  - intros moves g Hall. apply World_frames_same_chunk; [split|]; assumption.
Qed.
End RingInvariant.

Lemma demo_exact_ring (world : World.t) : @exact_ring demo_float world.
Proof. unfold exact_ring. repeat constructor. Qed.

(** The player of [world], one chunk to the east. *)
Lemma player_chunk_east (world : World.t) :
  World.chunk_size world <> 0 ->
  player_chunk
    (World.set_player
       (Player_init
          (Player.x (World.player world) + inject_Z (1 * World.chunk_size world))
          (Player.y (World.player world))) world)
  = ((player_chunk world).1 + 1 * World.chunk_size world, (player_chunk world).2).
Proof.
  intros Hcs. unfold player_chunk. cbn.
  now rewrite tile_center_shift by assumption.
Qed.

Lemma loaded_chunks_form_the_ring_witness :
  exists world g world' g',
    @World_init demo_float demo_noise demo_assets demo_random 0 42 5 = Some (world, g)
    /\ @World_update_chunks demo_float demo_noise demo_random
         (World.set_player
            (Player_init
               (Player.x (World.player world) + inject_Z (1 * World.chunk_size world))
               (Player.y (World.player world))) world) g = Some (world', g')
    /\ size (World.loaded_chunks world) = 9%nat
    /\ size (World.loaded_chunks world') = 9%nat
    /\ size (dom (World.loaded_chunks world) ∖ dom (World.loaded_chunks world')) = 3%nat
    /\ size (dom (World.loaded_chunks world') ∖ dom (World.loaded_chunks world)) = 3%nat.
Proof.
  destruct (@World_init_total demo_float demo_noise demo_assets demo_random 0 42 5)
    as [[world g] E].
  assert (Hs : @streaming demo_float demo_pygame demo_noise demo_assets demo_random world)
    by (eapply streaming_init; [exact E|apply demo_exact_ring]).
  destruct (World_init_spec _ _ _ _ _ E) as (_ & _ & Hcs & _ & Hlast & _).
  set (moved := World.set_player
                  (Player_init
                     (Player.x (World.player world)
                      + inject_Z (1 * World.chunk_size world))
                     (Player.y (World.player world))) world).
  destruct (@loaded_chunks_form_the_ring demo_float demo_pygame demo_noise demo_assets
              demo_random world Hs) as (Hsize & _).
  destruct (@loaded_chunks_form_the_ring demo_float demo_pygame demo_noise demo_assets
              demo_random moved (streaming_player _ _ Hs)) as (_ & _ & Hstep & _).
  destruct (Hstep g) as (world' & g' & E' & _ & _ & Hex).
  destruct (Hex (demo_exact_ring moved)) as (_ & _ & Hsize' & Hcross).
  exists world, g, world', g'. split; [exact E|]. split; [exact E'|].
  split; [exact Hsize|]. split; [exact Hsize'|].
  apply Hcross. unfold moved. rewrite player_chunk_east by (rewrite Hcs; discriminate).
  cbn [World.last_chunk World.set_player World.chunk_size]. rewrite Hlast.
  left. cbn. split; [reflexivity|]. left. lia.
Defined.

(** The claim as first stated fails: once the player has moved into the
    next chunk, the chunks loaded are not the ring around its chunk. *)
Lemma ring_not_around_moved_player :
  exists world,
    @streaming demo_float demo_pygame demo_noise demo_assets demo_random world
    /\ dom (World.loaded_chunks world)
       <> ring_set (World.chunk_size world) (player_chunk world).
Proof.
  destruct (@World_init_total demo_float demo_noise demo_assets demo_random 0 42 5)
    as [[world g] E].
  assert (Hs : @streaming demo_float demo_pygame demo_noise demo_assets demo_random world)
    by (eapply streaming_init; [exact E|apply demo_exact_ring]).
  destruct (World_init_spec _ _ _ _ _ E) as (_ & _ & Hcs & _ & Hlast & Hdom).
  specialize (Hdom (demo_exact_ring world)).
  exists (World.set_player
            (Player_init
               (Player.x (World.player world) + inject_Z (1 * World.chunk_size world))
               (Player.y (World.player world))) world).
  split; [now apply streaming_player|].
  rewrite player_chunk_east by (rewrite Hcs; discriminate).
  cbn [World.loaded_chunks World.set_player World.chunk_size]. rewrite Hdom, Hcs.
  intros Heq.
  assert (Hin : ((player_chunk world).1 + 1 * CHUNK_SIZE + CHUNK_SIZE,
                 (player_chunk world).2)
                ∈ ring_set CHUNK_SIZE
                    ((player_chunk world).1 + 1 * CHUNK_SIZE, (player_chunk world).2)).
  { apply elem_of_ring_set. cbn [fst snd]. split; right; [right|left]; reflexivity. }
  rewrite <- Heq in Hin. apply elem_of_ring_set in Hin as [Hx _].
  unfold CHUNK_SIZE in Hx. lia.
Qed.

(** ** The visibility filter *)

Section VisibilityFilter.
Context `{OpenSimplexLib}.

(** C5. An object whose position classifies as biome [b] goes through
    the filter without error; it is appended to the exposed list exactly
    when [b] is water and the player's biome is water, or [b] is not
    water and the player's biome is not water; nothing else of the world
    changes. *)
Theorem visible_iff_same_side_of_water (world : World.t) (e : Obj) (b : Biome.t) :
  get_biome (World.attrs world) (Obj_x e) (Obj_y e) = Some b ->
  exists world',
    World__append_visible_entity world e = Some world'
    /\ (World.player_biome world = Some Biome.water ->
          (b = Biome.water -> World.entities world' = World.entities world ++ [e])
          /\ (b <> Biome.water -> World.entities world' = World.entities world))
    /\ (World.player_biome world <> Some Biome.water ->
          (b <> Biome.water -> World.entities world' = World.entities world ++ [e])
          /\ (b = Biome.water -> World.entities world' = World.entities world))
    /\ world' = World.set_entities (World.entities world') world.
Proof. apply append_visible_spec. Qed.
End VisibilityFilter.

Lemma visible_iff_same_side_of_water_witness :
  let ball x := OAttack (AProjectile (Projectile.init x 0 "b" 1 0 None 1 500)) in
  let under := World.set_player_biome (Some Biome.water) demo_world in
  (exists w, @World__append_visible_entity demo_noise demo_world (ball 0%Q) = Some w
     /\ World.entities w = [ball 0%Q])
  /\ (exists w, @World__append_visible_entity demo_noise demo_world (ball (-300)%Q) = Some w
     /\ World.entities w = [])
  /\ (exists w, @World__append_visible_entity demo_noise under (ball (-300)%Q) = Some w
     /\ World.entities w = [ball (-300)%Q])
  /\ (exists w, @World__append_visible_entity demo_noise under (ball 0%Q) = Some w
     /\ World.entities w = []).
Proof.
  intros ball under.
  assert (Hland : World.player_biome demo_world <> Some Biome.water) by discriminate.
  assert (Hsea : World.player_biome under = Some Biome.water) by reflexivity.
  pose proof (@visible_iff_same_side_of_water demo_noise) as T.
  repeat split.
  - destruct (T demo_world (ball 0%Q) Biome.fire eq_refl) as (w & E & _ & Hl & _).
    exists w. split; [exact E|]. apply (proj1 (Hl Hland)). discriminate.
  - destruct (T demo_world (ball (-300)%Q) Biome.water eq_refl) as (w & E & _ & Hl & _).
    exists w. split; [exact E|]. apply (proj2 (Hl Hland)). reflexivity.
  - destruct (T under (ball (-300)%Q) Biome.water eq_refl) as (w & E & Hs & _ & _).
    exists w. split; [exact E|]. apply (proj1 (Hs Hsea)). reflexivity.
  - destruct (T under (ball 0%Q) Biome.fire eq_refl) as (w & E & Hs & _ & _).
    exists w. split; [exact E|]. apply (proj2 (Hs Hsea)). discriminate.
Defined.

(** ** Mob.update, piece by piece *)

Section MobUpdate.
Context `{PyFloat} `{Pygame} `{OpenSimplexLib}.

Lemma Mob_get_damage_keeps (d : Q) (m : Mob.t) :
  control (Mob_get_damage d m) = control m
  /\ Mob.collider (Mob_get_damage d m) = Mob.collider m
  /\ Mob.attack_animation (Mob_get_damage d m) = Mob.attack_animation m
  /\ Mob.original_image (Mob_get_damage d m) = Mob.original_image m.
Proof.
  unfold Mob_get_damage. destruct (Mob.alive m); cbn;
    match goal with |- context [Qltb ?a 0] => destruct (Qltb a 0) end;
    repeat split.
Qed.

Lemma hits_mob_collide (m : Mob.t) (a : Attack) :
  hits_mob m a =
    match Collider_collide (Mob.collider m) (Attack_collider a) with
    | Some _ => true
    | None => false
    end.
Proof.
  unfold hits_mob. destruct (Collider_collide _ _).
  - apply bool_decide_eq_true. eauto.
  - apply bool_decide_eq_false. intros [? ?]. discriminate.
Qed.

Lemma mob_damage_keeps (m : Mob.t) (a : Attack) :
  control (mob_damage m a) = control m
  /\ Mob.collider (mob_damage m a) = Mob.collider m
  /\ Mob.alive (mob_damage m a) = Mob.alive m
  /\ Mob.attack_animation (mob_damage m a) = Mob.attack_animation m
  /\ Mob.original_image (mob_damage m a) = Mob.original_image m
  /\ ((0 <= Mob.hp m)%Q -> (0 <= Mob.hp (mob_damage m a))%Q).
Proof.
  unfold mob_damage. destruct (hits_mob m a); [|repeat split; auto].
  destruct (Mob_get_damage_keeps (Attack_damage a) m) as (A & B & C & D).
  repeat split; try assumption.
  - apply Mob_get_damage_alive.
  - intros _. apply Mob_get_damage_nonneg.
Qed.

Lemma foldl_mob_damage_keeps (attacks : list Attack) (m : Mob.t) :
  control (foldl mob_damage m attacks) = control m
  /\ Mob.collider (foldl mob_damage m attacks) = Mob.collider m
  /\ Mob.alive (foldl mob_damage m attacks) = Mob.alive m
  /\ Mob.attack_animation (foldl mob_damage m attacks) = Mob.attack_animation m
  /\ Mob.original_image (foldl mob_damage m attacks) = Mob.original_image m
  /\ ((0 <= Mob.hp m)%Q -> (0 <= Mob.hp (foldl mob_damage m attacks))%Q).
Proof.
  revert m. induction attacks as [|a attacks IH]; intros m; [repeat split; auto|].
  cbn [foldl]. destruct (IH (mob_damage m a)) as (A & B & C & D & E & F).
  destruct (mob_damage_keeps m a) as (A' & B' & C' & D' & E' & F').
  repeat split; try congruence. auto.
Qed.

(** The first loop of [update_hp]: the damage of the colliding attacks,
    in order, and those attacks on [attack_to_remove]. *)
Lemma Mob_collect_hits_spec (attacks : list Attack) (m : Mob.t) (acc : list Attack) :
  Mob_collect_hits attacks m acc =
    (foldl mob_damage m attacks,
     acc ++ filter (fun a => hits_mob m a = true) attacks).
Proof.
  revert m acc. induction attacks as [|a attacks IH]; intros m acc.
  - cbn. now rewrite app_nil_r.
  - cbn [Mob_collect_hits foldl]. rewrite filter_cons.
    unfold mob_damage at 2. rewrite (hits_mob_collide m a).
    destruct (Collider_collide (Mob.collider m) (Attack_collider a)) as [ci|] eqn:E.
    + rewrite decide_True by reflexivity. rewrite IH, <- app_assoc. cbn [app].
      f_equal. f_equal. f_equal. apply list_filter_iff. intros b.
      unfold hits_mob.
      now rewrite (proj1 (proj2 (Mob_get_damage_keeps (Attack_damage a) m))).
    + rewrite decide_False by discriminate. now rewrite IH.
Qed.

Lemma remove_hit_projectiles (m : Mob.t) (attacks pre : list Attack) :
  Forall (fun a => survives_mob m a = true) pre ->
  remove_projectiles (filter (fun a => hits_mob m a = true) attacks) (pre ++ attacks)
  = Some (pre ++ filter (fun a => survives_mob m a = true) attacks).
Proof.
  revert pre. induction attacks as [|a attacks IH]; intros pre Hpre; [reflexivity|].
  rewrite !filter_cons.
  assert (Hnext : forall b, survives_mob m b = true ->
            Forall (fun a => survives_mob m a = true) (pre ++ [b])).
  { intros b Hb. apply Forall_app. split; [assumption|]. now constructor. }
  destruct (decide (hits_mob m a = true)) as [Hh|Hh];
    destruct (decide (survives_mob m a = true)) as [Hs|Hs].
  - (* a shock wave that collides: it stays *)
    destruct a as [p|s];
      [unfold survives_mob in Hs; rewrite Hh in Hs; discriminate|].
    cbn [remove_projectiles]. rewrite (cons_middle _ pre), app_assoc.
    rewrite IH by now apply Hnext. now rewrite <- app_assoc.
  - (* a projectile that collides: it is removed *)
    destruct a as [p|s]; [|exfalso; apply Hs; reflexivity].
    cbn [remove_projectiles]. rewrite list_remove_first_middle.
    + cbn [mbind option_bind]. now apply IH.
    + intros Hin. rewrite Forall_forall in Hpre. specialize (Hpre _ Hin).
      contradiction.
  - rewrite (cons_middle _ pre), app_assoc.
    rewrite IH by now apply Hnext. now rewrite <- app_assoc.
  - exfalso. apply Hs. destruct a as [p|s]; [|reflexivity].
    unfold survives_mob. destruct (hits_mob m (AProjectile p)); [|reflexivity].
    now contradiction Hh.
Qed.

(** [update_hp] never fails.  It deals the damage of the colliding
    player attacks, drops the colliding projectiles from the player's
    pool, and marks the mob dead exactly when its hit points are then at
    zero or below. *)
Lemma Mob_update_hp_spec (world : World.t) (m : Mob.t) :
  let m1 := foldl mob_damage m (World.player_attack world) in
  Mob_update_hp world m =
    Some (if Qle_bool (Mob.hp m1) 0 then Mob.set_alive false m1 else m1,
          World.set_player_attack
            (filter (fun a => survives_mob m a = true) (World.player_attack world))
            world).
Proof.
  intros m1. unfold Mob_update_hp. rewrite Mob_collect_hits_spec. cbn [app].
  pose proof (remove_hit_projectiles m (World.player_attack world) [] (Forall_nil_2 _))
    as Hrem.
  cbn [app] in Hrem. rewrite Hrem. reflexivity.
Qed.

(** Hit resolution reads the mob's collider, hit points and alive flag
    only. *)
Lemma foldl_mob_damage_hp (attacks : list Attack) (m1 m2 : Mob.t) :
  Mob.collider m1 = Mob.collider m2 -> Mob.hp m1 = Mob.hp m2 ->
  Mob.alive m1 = Mob.alive m2 ->
  Mob.hp (foldl mob_damage m1 attacks) = Mob.hp (foldl mob_damage m2 attacks).
Proof.
  revert m1 m2. induction attacks as [|a attacks IH]; intros m1 m2 Hc Hh Ha;
    [assumption|].
  cbn [foldl]. apply IH.
  - destruct (mob_damage_keeps m1 a) as (_ & -> & _).
    destruct (mob_damage_keeps m2 a) as (_ & -> & _). assumption.
  - unfold mob_damage, hits_mob. rewrite Hc.
    destruct (bool_decide _); [|assumption].
    rewrite !Mob_get_damage_hp. now rewrite Hh, Ha.
  - destruct (mob_damage_keeps m1 a) as (_ & _ & -> & _).
    destruct (mob_damage_keeps m2 a) as (_ & _ & -> & _). assumption.
Qed.

(** Movement changes the speed and the position only. *)
Lemma Mob_move_keeps (world : World.t) (dt : Q) (m m1 : Mob.t) :
  Mob_move world dt m = Some m1 ->
  control m1 = control m /\ Mob.hp m1 = Mob.hp m /\ Mob.alive m1 = Mob.alive m
  /\ Mob.collider m1 = Mob.collider m
  /\ Mob.attack_animation m1 = Mob.attack_animation m
  /\ Mob.original_image m1 = Mob.original_image m.
Proof.
  unfold Mob_move. destruct (get_biome _ _ _) as [b|]; [|discriminate].
  cbn [mbind option_bind]. intros E.
  repeat case_match; injection E as <-; repeat split.
Qed.

Lemma Mob_move_total (world : World.t) (dt : Q) (m : Mob.t) :
  tile_size (World.attrs world) <> 0 ->
  getattr (biome_size (World.attrs world)) 1 <> 0 ->
  is_Some (Mob_move world dt m).
Proof.
  intros Hts Hbs. unfold Mob_move.
  destruct (get_biome_total (World.attrs world) (Mob.x m) (Mob.y m) Hts Hbs) as [b ->].
  cbn [mbind option_bind]. repeat case_match; eexists; reflexivity.
Qed.

(** Picking the frame and mirroring it changes the image and the
    animation's frame index only. *)
Definition image_only (m m1 : Mob.t) : Prop :=
  control m1 = control m /\ Mob.hp m1 = Mob.hp m /\ Mob.alive m1 = Mob.alive m
  /\ Mob.x m1 = Mob.x m /\ Mob.y m1 = Mob.y m
  /\ Mob.collider m1 = Mob.collider m
  /\ Mob.original_image m1 = Mob.original_image m
  /\ (Mob.attack_animation m = None -> Mob.attack_animation m1 = None).

Lemma Collider_update_type c x y d c' :
  Collider.update c x y d = Some c' -> Collider.type c' = Collider.type c.
Proof.
  unfold Collider.update.
  destruct (Collider.type c) eqn:Et; [intros [= <-]; reflexivity|].
  destruct d; [discriminate|]. intros [= <-]. reflexivity.
Qed.

Lemma Mob_animate_inv (now : Z) (world : World.t) (m m1 : Mob.t) :
  Mob_animate now world m = Some m1 ->
  exists m0 collider,
    image_only m m0 /\ m1 = Mob.set_collider collider m0
    /\ Collider.type collider = Collider.type (Mob.collider m).
Proof.
  unfold Mob_animate.
  set (m0 := match Mob.attack_animation m with
             | Some anim =>
                 if in_attack_state m
                 then let '(anim0, frame) := Animation.update now anim in
                      Mob.set_image (Some frame)
                        (Mob.set_attack_animation (Some anim0) m)
                 else Mob.set_image (Mob.original_image m) m
             | None => Mob.set_image (Mob.original_image m) m
             end).
  assert (Hm0 : image_only m m0).
  { unfold m0, image_only. destruct (Mob.attack_animation m) as [anim|] eqn:Ea.
    - destruct (in_attack_state m);
        [destruct (Animation.update now anim) as [anim0 frame]|];
        repeat split; try discriminate.
    - repeat split; try reflexivity; cbn; auto. }
  set (m2 := match Mob.image m0 with
             | Some i =>
                 if Qltb (Mob.x m0) (Player.x (World.player world))
                 then Mob.set_image (Some (flip i)) m0 else m0
             | None => m0
             end).
  assert (Hm2 : image_only m m2).
  { destruct Hm0 as (A & B & C & D & E & F & G & K).
    unfold m2. destruct (Mob.image m0) as [i|] eqn:Ei;
      [destruct (Qltb _ _)|]; repeat split; assumption. }
  intros E. apply bind_Some in E as (collider & Ec & [= <-]).
  exists m2, collider. split; [assumption|]. split; [reflexivity|].
  destruct Hm2 as (_ & _ & _ & _ & _ & <- & _).
  destruct (Mob.image m2); eapply Collider_update_type; eassumption.
Qed.

Lemma Mob_animate_keeps (now : Z) (world : World.t) (m m1 : Mob.t) :
  Mob_animate now world m = Some m1 ->
  control m1 = control m /\ Mob.hp m1 = Mob.hp m /\ Mob.alive m1 = Mob.alive m
  /\ Mob.x m1 = Mob.x m /\ Mob.y m1 = Mob.y m
  /\ (collider_ok m -> collider_ok m1).
Proof.
  intros E. apply Mob_animate_inv in E
    as (m0 & collider & (A & B & C & D & E & F & G & K) & -> & Ht).
  repeat split; try assumption. unfold collider_ok. cbn. rewrite Ht, G.
  intros [Hm|[Ha Ho]]; [now left|right]. split; [now apply K|assumption].
Qed.

Lemma Mob_animate_total (now : Z) (world : World.t) (m : Mob.t) :
  collider_ok m -> is_Some (Mob_animate now world m).
Proof.
  unfold Mob_animate.
  set (m0 := match Mob.attack_animation m with
             | Some anim =>
                 if in_attack_state m
                 then let '(anim0, frame) := Animation.update now anim in
                      Mob.set_image (Some frame)
                        (Mob.set_attack_animation (Some anim0) m)
                 else Mob.set_image (Mob.original_image m) m
             | None => Mob.set_image (Mob.original_image m) m
             end).
  set (m2 := match Mob.image m0 with
             | Some i =>
                 if Qltb (Mob.x m0) (Player.x (World.player world))
                 then Mob.set_image (Some (flip i)) m0 else m0
             | None => m0
             end).
  assert (Hc0 : Mob.collider m0 = Mob.collider m).
  { unfold m0. destruct (Mob.attack_animation m) as [anim|];
      [destruct (in_attack_state m);
       [destruct (Animation.update now anim) as [anim0 frame]|]|]; reflexivity. }
  assert (Hc2 : Mob.collider m2 = Mob.collider m).
  { unfold m2. destruct (Mob.image m0); [destruct (Qltb _ _)|]; exact Hc0. }
  intros [Hm|[Ha Ho]].
  - rewrite Hc2. unfold Collider.update. rewrite Hm.
    destruct (Mob.image m2); eexists; reflexivity.
  - assert (Hi0 : Mob.image m0 = None) by (unfold m0; rewrite Ha; exact Ho).
    assert (Hi2 : Mob.image m2 = None) by (unfold m2; rewrite Hi0; exact Hi0).
    rewrite Hi2. unfold Collider.update.
    destruct (Collider.type (Mob.collider m2)); eexists; reflexivity.
Qed.

Lemma body_eq m m' :
  body m = body m' ->
  Mob.x m = Mob.x m' /\ Mob.y m = Mob.y m' /\ Mob.hp m = Mob.hp m'
  /\ Mob.alive m = Mob.alive m' /\ Mob.collider m = Mob.collider m'
  /\ Mob.attack_animation m = Mob.attack_animation m'
  /\ Mob.original_image m = Mob.original_image m'.
Proof.
  unfold body.
  generalize (Mob.x m), (Mob.y m), (Mob.hp m), (Mob.alive m), (Mob.collider m),
    (Mob.attack_animation m), (Mob.original_image m), (Mob.x m'), (Mob.y m'),
    (Mob.hp m'), (Mob.alive m'), (Mob.collider m'), (Mob.attack_animation m'),
    (Mob.original_image m').
  intros. simplify_eq. repeat split.
Qed.

Lemma params_eq m m' :
  params m = params m' ->
  Mob.last_state m = Mob.last_state m'
  /\ Mob.attack_startup m = Mob.attack_startup m'
  /\ Mob.attack_recovery m = Mob.attack_recovery m'
  /\ Mob.attack_distance m = Mob.attack_distance m'
  /\ Mob.view m = Mob.view m'
  /\ Mob.detect_player m = Mob.detect_player m'
  /\ Mob.attack_possible m = Mob.attack_possible m'
  /\ Mob.move_while_attack m = Mob.move_while_attack m'
  /\ Mob.class m = Mob.class m'.
Proof.
  unfold params.
  generalize (Mob.last_state m), (Mob.attack_startup m), (Mob.attack_recovery m),
    (Mob.attack_distance m), (Mob.view m), (Mob.detect_player m),
    (Mob.attack_possible m), (Mob.move_while_attack m), (Mob.class m),
    (Mob.last_state m'), (Mob.attack_startup m'), (Mob.attack_recovery m'),
    (Mob.attack_distance m'), (Mob.view m'), (Mob.detect_player m'),
    (Mob.attack_possible m'), (Mob.move_while_attack m'), (Mob.class m').
  intros. simplify_eq. repeat split.
Qed.

Lemma control_eq m m' :
  control m = control m' <->
  Mob.state m = Mob.state m' /\ Mob.last_state m = Mob.last_state m'
  /\ Mob.attack_startup_timer m = Mob.attack_startup_timer m'
  /\ Mob.attack_recovery_timer m = Mob.attack_recovery_timer m'
  /\ Mob.attack_startup m = Mob.attack_startup m'
  /\ Mob.attack_recovery m = Mob.attack_recovery m'
  /\ Mob.attack_distance m = Mob.attack_distance m'
  /\ Mob.view m = Mob.view m'
  /\ Mob.detect_player m = Mob.detect_player m'
  /\ Mob.attack_possible m = Mob.attack_possible m'
  /\ Mob.move_while_attack m = Mob.move_while_attack m'
  /\ Mob.class m = Mob.class m'.
Proof.
  unfold control.
  generalize (Mob.state m), (Mob.last_state m), (Mob.attack_startup_timer m),
    (Mob.attack_recovery_timer m), (Mob.attack_startup m), (Mob.attack_recovery m),
    (Mob.attack_distance m), (Mob.view m), (Mob.detect_player m),
    (Mob.attack_possible m), (Mob.move_while_attack m), (Mob.class m),
    (Mob.state m'), (Mob.last_state m'), (Mob.attack_startup_timer m'),
    (Mob.attack_recovery_timer m'), (Mob.attack_startup m'), (Mob.attack_recovery m'),
    (Mob.attack_distance m'), (Mob.view m'), (Mob.detect_player m'),
    (Mob.attack_possible m'), (Mob.move_while_attack m'), (Mob.class m').
  intros. split.
  - intros E. simplify_eq. repeat split.
  - intros (-> & -> & -> & -> & -> & -> & -> & -> & -> & -> & -> & ->). reflexivity.
Qed.

Ltac rule_keeps :=
  intros; match goal with |- context [if ?c then _ else _] => destruct c end;
  repeat match goal with |- context [if ?c then _ else _] => destruct c end;
  split; reflexivity.

Lemma transition_engage_keeps now m :
  body (transition_engage now m) = body m
  /\ params (transition_engage now m) = params m.
Proof. unfold transition_engage. rule_keeps. Qed.

Lemma transition_again_keeps now m :
  body (transition_again now m) = body m /\ params (transition_again now m) = params m.
Proof. unfold transition_again. rule_keeps. Qed.

Lemma transition_cancel_keeps m :
  body (transition_cancel m) = body m /\ params (transition_cancel m) = params m.
Proof. unfold transition_cancel. rule_keeps. Qed.

Lemma transition_execute_keeps now m :
  body (transition_execute now m) = body m
  /\ params (transition_execute now m) = params m.
Proof. unfold transition_execute. rule_keeps. Qed.

Lemma transition_recover_keeps now m :
  body (transition_recover now m) = body m
  /\ params (transition_recover now m) = params m.
Proof. unfold transition_recover. rule_keeps. Qed.

Lemma transition_resume_keeps now m :
  body (transition_resume now m) = body m
  /\ params (transition_resume now m) = params m.
Proof. unfold transition_resume. rule_keeps. Qed.

Lemma transition_detect_keeps m :
  body (transition_detect m) = body m /\ params (transition_detect m) = params m.
Proof. unfold transition_detect. rule_keeps. Qed.

Lemma Mob_transitions_keeps now m :
  body (Mob_transitions now m) = body m /\ params (Mob_transitions now m) = params m.
Proof.
  unfold Mob_transitions. cbv zeta.
  split.
  - rewrite (proj1 (transition_detect_keeps _)), (proj1 (transition_resume_keeps _ _)),
      (proj1 (transition_recover_keeps _ _)), (proj1 (transition_execute_keeps _ _)),
      (proj1 (transition_cancel_keeps _)), (proj1 (transition_again_keeps _ _)).
    apply transition_engage_keeps.
  - rewrite (proj2 (transition_detect_keeps _)), (proj2 (transition_resume_keeps _ _)),
      (proj2 (transition_recover_keeps _ _)), (proj2 (transition_execute_keeps _ _)),
      (proj2 (transition_cancel_keeps _)), (proj2 (transition_again_keeps _ _)).
    apply transition_engage_keeps.
Qed.

Lemma Mob_decide_keeps now world m :
  body (Mob_decide now world m) = body m
  /\ Mob.attack_startup (Mob_decide now world m) = Mob.attack_startup m
  /\ Mob.attack_recovery (Mob_decide now world m) = Mob.attack_recovery m
  /\ Mob.attack_distance (Mob_decide now world m) = Mob.attack_distance m
  /\ Mob.view (Mob_decide now world m) = Mob.view m
  /\ Mob.move_while_attack (Mob_decide now world m) = Mob.move_while_attack m
  /\ Mob.class (Mob_decide now world m) = Mob.class m
  /\ Mob.last_state (Mob_decide now world m) = Mob.last_state m
  /\ Mob.detect_player (Mob_decide now world m) = Mob.detect_player (Mob_sense world m)
  /\ Mob.attack_possible (Mob_decide now world m)
     = Mob.attack_possible (Mob_sense world m).
Proof.
  unfold Mob_decide. destruct (Player.alive (World.player world));
    [|repeat split].
  destruct (Mob_transitions_keeps now (Mob_sense world m)) as [Hb Hp].
  apply params_eq in Hp as (P1 & P2 & P3 & P4 & P5 & P6 & P7 & P8 & P9).
  repeat split; assumption.
Qed.

(** [Mob.update], taken apart: the state machine's decision becomes the
    state and the remembered state; the hit points take the damage of
    the colliding player attacks; the mob is marked dead exactly when
    they are then at zero or below; the world loses the colliding
    projectiles of the player's pool and nothing else. *)
Lemma Mob_update_spec now world dt m m' world' :
  Mob_update now world dt m = Some (m', world') ->
  control m' =
    control (Mob.set_last_state (Mob.state (Mob_decide now world m))
               (Mob_decide now world m))
  /\ Mob.hp m' = Mob.hp (foldl mob_damage m (World.player_attack world))
  /\ Mob.alive m' = (if Qle_bool (Mob.hp m') 0 then false else Mob.alive m)
  /\ world' =
       World.set_player_attack
         (filter (fun a => survives_mob m a = true) (World.player_attack world)) world
  /\ (collider_ok m -> collider_ok m').
Proof.
  unfold Mob_update. cbv zeta. intros E.
  apply bind_Some in E as (m1 & E1 & E).
  assert (Hdecided : control m1 = control (Mob_decide now world m)
               /\ body m1 = (Mob.x m1, Mob.y m1, Mob.hp m, Mob.alive m, Mob.collider m,
                             Mob.attack_animation m, Mob.original_image m)).
  { destruct (Mob_decide_keeps now world m) as (Hb & _).
    apply body_eq in Hb as (B1 & B2 & B3 & B4 & B5 & B6 & B7).
    unfold Mob_decide in *. destruct (Player.alive (World.player world)) eqn:Ea.
    - apply Mob_move_keeps in E1 as (A & B & C & D & F & G).
      split; [exact A|]. unfold body. congruence.
    - injection E1 as <-. split; reflexivity. }
  destruct Hdecided as [Hc1 Hb1].
  assert (Hb1' : body m1 = body (Mob.set_y (Mob.y m1) (Mob.set_x (Mob.x m1) m)))
    by exact Hb1.
  apply body_eq in Hb1' as (_ & _ & B3 & B4 & B5 & B6 & B7). cbn in B3, B4, B5, B6, B7.
  clear Hb1.
  rewrite Mob_update_hp_spec in E. cbn [mbind option_bind] in E.
  apply bind_Some in E as (m3 & E3 & [= <- <-]).
  apply Mob_animate_keeps in E3 as (A3 & H3 & L3 & _ & _ & K3).
  set (m2 := foldl mob_damage m1 (World.player_attack world)) in *.
  destruct (foldl_mob_damage_keeps (World.player_attack world) m1)
    as (A2 & C2 & L2 & N2 & O2 & _). fold m2 in A2, C2, L2, N2, O2.
  assert (Hhp : Mob.hp m2 = Mob.hp (foldl mob_damage m (World.player_attack world)))
    by (apply foldl_mob_damage_hp; assumption).
  assert (A3' : control m3 = control (Mob_decide now world m)).
  { rewrite A3.
    destruct (Qle_bool (Mob.hp m2) 0);
      [change (control (Mob.set_alive false m2)) with (control m2)|];
      rewrite A2; exact Hc1. }
  assert (H3' : Mob.hp m3 = Mob.hp m2)
    by (rewrite H3; destruct (Qle_bool (Mob.hp m2) 0); reflexivity).
  split; [|split; [|split; [|split]]].
  - apply control_eq. apply control_eq in A3'.
    destruct A3' as (S1 & S2 & S3 & S4 & S5 & S6 & S7 & S8 & S9 & S10 & S11 & S12).
    split; [exact S1|]. split; [exact S1|]. split; [exact S3|]. split; [exact S4|].
    split; [exact S5|]. split; [exact S6|]. split; [exact S7|]. split; [exact S8|].
    split; [exact S9|]. split; [exact S10|]. split; [exact S11|exact S12].
  - change (Mob.hp m3 = Mob.hp (foldl mob_damage m (World.player_attack world))).
    congruence.
  - change (Mob.alive m3 = if Qle_bool (Mob.hp m3) 0 then false else Mob.alive m).
    rewrite H3', L3.
    destruct (Qle_bool (Mob.hp m2) 0); [reflexivity|]. congruence.
  - f_equal. apply list_filter_iff. intros a. unfold survives_mob, hits_mob.
    now rewrite B5.
  - intros Hok. unfold collider_ok in *.
    change (Collider.type (Mob.collider m3) = mask_collider
            \/ Mob.attack_animation m3 = None /\ Mob.original_image m3 = None).
    apply K3.
    destruct (Qle_bool (Mob.hp m2) 0);
      [change (Collider.type (Mob.collider m2) = mask_collider
               \/ Mob.attack_animation m2 = None /\ Mob.original_image m2 = None)|];
      rewrite C2, N2, O2, B5, B6, B7; exact Hok.
Qed.

Lemma Mob_update_total now world dt m :
  tile_size (World.attrs world) <> 0 ->
  getattr (biome_size (World.attrs world)) 1 <> 0 ->
  collider_ok m ->
  is_Some (Mob_update now world dt m).
Proof.
  intros Hts Hbs Hok. unfold Mob_update. cbv zeta.
  assert (E1 : exists m1,
            (if Player.alive (World.player world)
             then Mob_move world dt (Mob_transitions now (Mob_sense world m))
             else Some (Mob.set_state MobState.idle (Mob_sense world m))) = Some m1
            /\ collider_ok m1).
  { destruct (Mob_decide_keeps now world m) as (Hb & _).
    apply body_eq in Hb as (B1 & B2 & B3 & B4 & B5 & B6 & B7).
    unfold Mob_decide in *. destruct (Player.alive (World.player world)).
    - destruct (Mob_move_total world dt (Mob_transitions now (Mob_sense world m))
                  Hts Hbs) as [m1 E1].
      exists m1. split; [exact E1|].
      apply Mob_move_keeps in E1 as (_ & _ & _ & D & F & G).
      unfold collider_ok in *. rewrite D, F, G, B5, B6, B7. exact Hok.
    - eexists. split; [reflexivity|exact Hok]. }
  destruct E1 as (m1 & -> & Hok1). cbn [mbind option_bind].
  rewrite Mob_update_hp_spec. cbn [mbind option_bind].
  set (m2 := foldl mob_damage m1 (World.player_attack world)).
  destruct (foldl_mob_damage_keeps (World.player_attack world) m1)
    as (_ & C2 & _ & N2 & O2 & _). fold m2 in C2, N2, O2.
  destruct (Mob_animate_total now
              (World.set_player_attack
                 (filter (fun a => survives_mob m1 a = true)
                    (World.player_attack world)) world)
              (if Qle_bool (Mob.hp m2) 0 then Mob.set_alive false m2 else m2))
    as [m3 ->].
  - unfold collider_ok in *.
    destruct (Qle_bool (Mob.hp m2) 0); cbn; rewrite C2, N2, O2; exact Hok1.
  - eexists. reflexivity.
Qed.
End MobUpdate.

(** ** The attack state machine *)

Ltac mob_fields :=
  cbn [Mob.state Mob.last_state Mob.attack_startup_timer Mob.attack_recovery_timer
       Mob.detect_player Mob.attack_possible Mob.attack_startup Mob.attack_recovery
       Mob.set_state Mob.set_attack_startup_timer Mob.set_attack_recovery_timer
       Mob.set_last_state].

Ltac decide_state :=
  match goal with
  | |- context [bool_decide ?P] =>
      first [ rewrite (bool_decide_eq_true_2 P) by congruence
            | rewrite (bool_decide_eq_false_2 P) by congruence ]
  end.

(** Runs the seven rules on a mob whose states, flags and timers are
    known from the hypotheses. *)
Ltac run_rules :=
  unfold Mob_transitions; cbv zeta;
  repeat (first [ progress unfold transition_engage at 1
                | progress unfold transition_again at 1
                | progress unfold transition_cancel at 1
                | progress unfold transition_execute at 1
                | progress unfold transition_recover at 1
                | progress unfold transition_resume at 1
                | progress unfold transition_detect at 1 ];
          unfold state_is, last_state_is; mob_fields;
          repeat decide_state;
          repeat match goal with
                 | H : _ = true |- _ => rewrite H
                 | H : _ = false |- _ => rewrite H
                 end;
          rewrite ?andb_false_r, ?andb_true_r;
          cbn [andb orb negb]).

Section Machine.
Variable now : Z.
Variable m : Mob.t.

(** Idle, the player detected and in range: the wind-up starts. *)
Lemma transitions_engage :
  Mob.last_state m = MobState.idle -> Mob.state m = MobState.idle ->
  Mob.detect_player m = true -> Mob.attack_possible m = true ->
  TimeKeeper.is_finished now (TimeKeeper.init now (Some (Mob.attack_startup m))) = false ->
  Mob_transitions now m =
    Mob.set_attack_startup_timer (TimeKeeper.init now (Some (Mob.attack_startup m)))
      (Mob.set_state MobState.attack_startup m).
Proof. intros Hl Hs Hd Ha Hf. run_rules. reflexivity. Qed.

(** Winding up with the player in range: nothing changes until the timer
    has elapsed. *)
Lemma transitions_wind :
  Mob.last_state m = MobState.attack_startup ->
  Mob.state m = MobState.attack_startup -> Mob.attack_possible m = true ->
  TimeKeeper.is_finished now (Mob.attack_startup_timer m) = false ->
  Mob_transitions now m = m.
Proof. intros Hl Hs Ha Hf. run_rules. reflexivity. Qed.

Lemma transitions_strike :
  Mob.last_state m = MobState.attack_startup ->
  Mob.state m = MobState.attack_startup -> Mob.attack_possible m = true ->
  TimeKeeper.is_finished now (Mob.attack_startup_timer m) = true ->
  Mob_transitions now m = Mob.set_state MobState.attack_execute m.
Proof. intros Hl Hs Ha Hf. run_rules. reflexivity. Qed.

(** The execute state held since the last update is always left, and the
    recovery timer started. *)
Lemma transitions_leave_execute :
  Mob.last_state m = MobState.attack_execute ->
  Mob.state m = MobState.attack_execute ->
  Mob.state (Mob_transitions now m) <> MobState.attack_execute
  /\ Mob.attack_recovery_timer (Mob_transitions now m)
     = TimeKeeper.init now (Mob.attack_recovery m)
  /\ Mob.attack_startup_timer (Mob_transitions now m) = Mob.attack_startup_timer m
  /\ (TimeKeeper.is_finished now (TimeKeeper.init now (Mob.attack_recovery m)) = false ->
      Mob.state (Mob_transitions now m) = MobState.attack_recovery).
Proof.
  intros Hl Hs.
  destruct (TimeKeeper.is_finished now (TimeKeeper.init now (Mob.attack_recovery m)))
    eqn:Hf;
    destruct (Mob.attack_possible m) eqn:Ha; destruct (Mob.detect_player m) eqn:Hd;
    run_rules; repeat split; congruence.
Qed.

(** Recovering: nothing changes until the timer has elapsed. *)
Lemma transitions_rest :
  Mob.last_state m = MobState.attack_recovery ->
  Mob.state m = MobState.attack_recovery ->
  TimeKeeper.is_finished now (Mob.attack_recovery_timer m) = false ->
  Mob_transitions now m = m.
Proof. intros Hl Hs Hf. run_rules. reflexivity. Qed.

Lemma transitions_again :
  Mob.last_state m = MobState.attack_recovery ->
  Mob.state m = MobState.attack_recovery -> Mob.attack_possible m = true ->
  TimeKeeper.is_finished now (Mob.attack_recovery_timer m) = true ->
  Mob_transitions now m = Mob.set_state MobState.attack_again m.
Proof. intros Hl Hs Ha Hf. run_rules. reflexivity. Qed.

(** [attack_again] lasts one update as well: the next wind-up starts. *)
Lemma transitions_restart :
  Mob.last_state m = MobState.attack_again ->
  Mob.state m = MobState.attack_again -> Mob.attack_possible m = true ->
  TimeKeeper.is_finished now (TimeKeeper.init now (Some (Mob.attack_startup m))) = false ->
  Mob_transitions now m =
    Mob.set_attack_startup_timer (TimeKeeper.init now (Some (Mob.attack_startup m)))
      (Mob.set_state MobState.attack_startup m).
Proof. intros Hl Hs Ha Hf. run_rules. reflexivity. Qed.
End Machine.

(** What [control] says of a mob whose state was just remembered. *)
Lemma control_remembered (m' decided : Mob.t) :
  control m' = control (Mob.set_last_state (Mob.state decided) decided) ->
  Mob.state m' = Mob.state decided
  /\ Mob.last_state m' = Mob.state m'
  /\ Mob.attack_startup_timer m' = Mob.attack_startup_timer decided
  /\ Mob.attack_recovery_timer m' = Mob.attack_recovery_timer decided
  /\ Mob.attack_startup m' = Mob.attack_startup decided
  /\ Mob.attack_recovery m' = Mob.attack_recovery decided
  /\ Mob.class m' = Mob.class decided.
Proof.
  intros Hc. apply control_eq in Hc.
  destruct Hc as (S1 & S2 & S3 & S4 & S5 & S6 & _ & _ & _ & _ & _ & S12).
  cbn in S1, S2, S3, S4, S5, S6, S12.
  repeat split; try assumption. congruence.
Qed.

Lemma Mob_decide_alive `{PyFloat} (now : Z) (world : World.t) (m : Mob.t) :
  Player.alive (World.player world) = true ->
  Mob_decide now world m = Mob_transitions now (Mob_sense world m).
Proof. intros Ha. unfold Mob_decide. now rewrite Ha. Qed.

Section Steps.
Context `{PyFloat} `{Pygame} `{OpenSimplexLib}.
Variables (now : Z) (world world' : World.t) (dt : Q) (m m' : Mob.t).
Hypothesis Hupdate : Mob_update now world dt m = Some (m', world').

(** With the player alive, an update leaves the state machine where the
    seven rules put it. *)
Lemma Mob_update_machine :
  Player.alive (World.player world) = true ->
  Mob.state m' = Mob.state (Mob_transitions now (Mob_sense world m))
  /\ Mob.last_state m' = Mob.state m'
  /\ Mob.attack_startup_timer m'
     = Mob.attack_startup_timer (Mob_transitions now (Mob_sense world m))
  /\ Mob.attack_recovery_timer m'
     = Mob.attack_recovery_timer (Mob_transitions now (Mob_sense world m)).
Proof.
  intros Ha. destruct (Mob_update_spec _ _ _ _ _ _ Hupdate) as (Hc & _).
  apply control_remembered in Hc as (S1 & S2 & S3 & S4 & _).
  rewrite (Mob_decide_alive _ _ _ Ha) in S1, S3, S4.
  repeat split; [exact S1 | exact S2 | exact S3 | exact S4].
Qed.

(** Whatever the player does, an update keeps the attack parameters and
    the class, and ends with the state remembered. *)
Lemma Mob_update_params :
  Mob.last_state m' = Mob.state m'
  /\ Mob.attack_startup m' = Mob.attack_startup m
  /\ Mob.attack_recovery m' = Mob.attack_recovery m
  /\ Mob.class m' = Mob.class m
  /\ (collider_ok m -> collider_ok m').
Proof.
  destruct (Mob_update_spec _ _ _ _ _ _ Hupdate) as (Hc & _ & _ & _ & Hok).
  destruct (Mob_decide_keeps now world m)
    as (_ & D1 & D2 & _ & _ & _ & D6 & _).
  apply control_remembered in Hc as (_ & S2 & _ & _ & S5 & S6 & S12).
  repeat split; [exact S2|congruence|congruence|congruence|exact Hok].
Qed.

Lemma step_engage :
  resting m -> in_reach world m -> (0 < Mob.attack_startup m)%Q ->
  winding_up now m'.
Proof.
  intros [Hs Hl] (Ha & Hd & Hp) Hsu.
  destruct (Mob_update_machine Ha) as (S1 & S2 & S3 & _).
  destruct Mob_update_params as (_ & P1 & _).
  rewrite (transitions_engage now (Mob_sense world m) Hl Hs Hd Hp
             (is_finished_at_start now _ Hsu)) in S1, S3.
  cbn in S1, S3.
  repeat split; [exact S1|congruence|]. rewrite S3, P1. reflexivity.
Qed.

Lemma step_wind (since : Z) :
  winding_up since m -> in_reach world m ->
  TimeKeeper.is_finished now (TimeKeeper.init since (Some (Mob.attack_startup m)))
    = false ->
  winding_up since m'.
Proof.
  intros (Hs & Hl & Ht) (Ha & Hd & Hp) Hf.
  destruct (Mob_update_machine Ha) as (S1 & S2 & S3 & _).
  destruct Mob_update_params as (_ & P1 & _).
  rewrite <- Ht in Hf.
  rewrite (transitions_wind now (Mob_sense world m) Hl Hs Hp Hf) in S1, S3.
  cbn in S1, S3.
  repeat split; [congruence|congruence|]. rewrite S3, P1. exact Ht.
Qed.

Lemma step_strike (since : Z) :
  winding_up since m -> in_reach world m ->
  TimeKeeper.is_finished now (TimeKeeper.init since (Some (Mob.attack_startup m)))
    = true ->
  striking m'.
Proof.
  intros (Hs & Hl & Ht) (Ha & Hd & Hp) Hf.
  destruct (Mob_update_machine Ha) as (S1 & S2 & _).
  rewrite <- Ht in Hf.
  rewrite (transitions_strike now (Mob_sense world m) Hl Hs Hp Hf) in S1.
  cbn in S1. split; congruence.
Qed.

(** The update after the one that entered [attack_execute]. *)
Lemma step_leave_execute :
  striking m -> Player.alive (World.player world) = true ->
  Mob.state m' <> MobState.attack_execute
  /\ Mob.attack_recovery_timer m' = TimeKeeper.init now (Mob.attack_recovery m')
  /\ (TimeKeeper.is_finished now (TimeKeeper.init now (Mob.attack_recovery m)) = false ->
      recovering now m').
Proof.
  intros [Hs Hl] Ha.
  destruct (Mob_update_machine Ha) as (S1 & S2 & _ & S4).
  destruct Mob_update_params as (_ & _ & P2 & _).
  destruct (transitions_leave_execute now (Mob_sense world m) Hl Hs)
    as (T1 & T2 & _ & T4).
  split; [congruence|]. split; [rewrite S4, P2; exact T2|].
  intros Hf. specialize (T4 Hf).
  repeat split; [congruence|congruence|]. rewrite S4, P2. exact T2.
Qed.

Lemma step_rest (since : Z) :
  recovering since m -> Player.alive (World.player world) = true ->
  TimeKeeper.is_finished now (TimeKeeper.init since (Mob.attack_recovery m)) = false ->
  recovering since m'.
Proof.
  intros (Hs & Hl & Ht) Ha Hf.
  destruct (Mob_update_machine Ha) as (S1 & S2 & _ & S4).
  destruct Mob_update_params as (_ & _ & P2 & _).
  rewrite <- Ht in Hf.
  rewrite (transitions_rest now (Mob_sense world m) Hl Hs Hf) in S1, S4.
  cbn in S1, S4.
  repeat split; [congruence|congruence|]. rewrite S4, P2. exact Ht.
Qed.

Lemma step_again (since : Z) :
  recovering since m -> in_reach world m ->
  TimeKeeper.is_finished now (TimeKeeper.init since (Mob.attack_recovery m)) = true ->
  Mob.state m' = MobState.attack_again.
Proof.
  intros (Hs & Hl & Ht) (Ha & Hd & Hp) Hf.
  destruct (Mob_update_machine Ha) as (S1 & _).
  rewrite <- Ht in Hf.
  rewrite (transitions_again now (Mob_sense world m) Hl Hs Hp Hf) in S1.
  exact S1.
Qed.
End Steps.

(** ** Runs of the attack cycle *)

Lemma is_finished_not_yet (now start : Z) (d : Q) :
  (inject_Z (now - start) < d * 1000)%Q ->
  TimeKeeper.is_finished now (TimeKeeper.init start (Some d)) = false.
Proof.
  intros Hd. destruct (TimeKeeper.is_finished now _) eqn:E; [|reflexivity].
  apply is_finished_since in E. lra.
Qed.

Lemma fmap_constant {A B} (f : A -> B) (c : B) (l : list A) :
  Forall (fun a => f a = c) l -> f <$> l = replicate (length l) c.
Proof.
  induction 1 as [|a l Ha _ IH]; [reflexivity|].
  cbn. now rewrite Ha, IH.
Qed.

Section Cycle.
Context `{PyFloat} `{Pygame} `{OpenSimplexLib}.

Lemma Mob_run_step (tick : Tick) (rest : list Tick) (m m1 : Mob.t) (world1 : World.t) :
  Mob_update (now_of tick) (world_of tick) (dt_of tick) m = Some (m1, world1) ->
  Mob_run (tick :: rest) m = (ms ← Mob_run rest m1; Some (m1 :: ms)).
Proof. intros E. cbn [Mob_run]. rewrite E. reflexivity. Qed.

(** An engaged update returns, and the run stays engaged. *)
Lemma engaged_step (tick : Tick) (rest : list Tick) (m : Mob.t) :
  engaged (tick :: rest) m -> collider_ok m ->
  exists m1 world1,
    Mob_update (now_of tick) (world_of tick) (dt_of tick) m = Some (m1, world1)
    /\ in_reach (world_of tick) m /\ engaged rest m1 /\ collider_ok m1
    /\ Mob.attack_startup m1 = Mob.attack_startup m
    /\ Mob.attack_recovery m1 = Mob.attack_recovery m.
Proof.
  intros (Hr & (Hts & Hbs & _) & Hnext) Hok.
  destruct (Mob_update_total (now_of tick) (world_of tick) (dt_of tick) m Hts Hbs Hok)
    as [[m1 world1] E].
  exists m1, world1. split; [exact E|]. split; [exact Hr|].
  split; [now apply (Hnext m1 world1)|].
  destruct (Mob_update_params _ _ _ _ _ _ E) as (_ & P1 & P2 & _ & P4).
  auto.
Qed.

Lemma run_wind (since : Z) (wait rest : list Tick) (m : Mob.t) :
  winding_up since m -> collider_ok m -> engaged (wait ++ rest) m ->
  Forall (fun tick =>
            TimeKeeper.is_finished (now_of tick)
              (TimeKeeper.init since (Some (Mob.attack_startup m))) = false) wait ->
  exists ms1 m1,
    Mob_run (wait ++ rest) m = (ms ← Mob_run rest m1; Some (ms1 ++ ms))
    /\ Forall (fun x => Mob.state x = MobState.attack_startup) ms1
    /\ length ms1 = length wait
    /\ winding_up since m1 /\ collider_ok m1 /\ engaged rest m1
    /\ Mob.attack_startup m1 = Mob.attack_startup m
    /\ Mob.attack_recovery m1 = Mob.attack_recovery m.
Proof.
  revert m. induction wait as [|tick wait IH]; intros m Hw Hok He Hwait.
  - exists [], m. cbn [app length]. split. { destruct (Mob_run rest m); reflexivity. }
    repeat split; try assumption; try apply Hw. constructor.
  - cbn [app] in He. apply Forall_cons in Hwait as [Hf Hwait].
    destruct (engaged_step _ _ _ He Hok) as (m1 & w1 & E & Hr & He1 & Hok1 & P1 & P2).
    pose proof (step_wind _ _ _ _ _ _ E since Hw Hr Hf) as Hw1.
    rewrite <- P1 in Hwait.
    destruct (IH m1 Hw1 Hok1 He1 Hwait)
      as (ms1 & m2 & Hrun & Hst & Hlen & Hw2 & Hok2 & He2 & Q1 & Q2).
    exists (m1 :: ms1), m2. split.
    { cbn [app]. rewrite (Mob_run_step _ _ _ _ _ E), Hrun.
      destruct (Mob_run rest m2); reflexivity. }
    repeat split; try assumption; try apply Hw2; try congruence.
    + constructor; [apply Hw1|exact Hst].
    + cbn. now rewrite Hlen.
Qed.

Lemma run_rest (since : Z) (wait rest : list Tick) (m : Mob.t) :
  recovering since m -> collider_ok m -> engaged (wait ++ rest) m ->
  Forall (fun tick =>
            TimeKeeper.is_finished (now_of tick)
              (TimeKeeper.init since (Mob.attack_recovery m)) = false) wait ->
  exists ms1 m1,
    Mob_run (wait ++ rest) m = (ms ← Mob_run rest m1; Some (ms1 ++ ms))
    /\ Forall (fun x => Mob.state x = MobState.attack_recovery) ms1
    /\ length ms1 = length wait
    /\ recovering since m1 /\ collider_ok m1 /\ engaged rest m1
    /\ Mob.attack_recovery m1 = Mob.attack_recovery m.
Proof.
  revert m. induction wait as [|tick wait IH]; intros m Hw Hok He Hwait.
  - exists [], m. cbn [app length]. split. { destruct (Mob_run rest m); reflexivity. }
    repeat split; try assumption; try apply Hw. constructor.
  - cbn [app] in He. apply Forall_cons in Hwait as [Hf Hwait].
    destruct (engaged_step _ _ _ He Hok) as (m1 & w1 & E & Hr & He1 & Hok1 & P1 & P2).
    pose proof (step_rest _ _ _ _ _ _ E since Hw (proj1 Hr) Hf) as Hw1.
    rewrite <- P2 in Hwait.
    destruct (IH m1 Hw1 Hok1 He1 Hwait)
      as (ms1 & m2 & Hrun & Hst & Hlen & Hw2 & Hok2 & He2 & Q2).
    exists (m1 :: ms1), m2. split.
    { cbn [app]. rewrite (Mob_run_step _ _ _ _ _ E), Hrun.
      destruct (Mob_run rest m2); reflexivity. }
    repeat split; try assumption; try apply Hw2; try congruence.
    + constructor; [apply Hw1|exact Hst].
    + cbn. now rewrite Hlen.
Qed.
End Cycle.

(** ** The attack cycle, timed *)

Section CycleTiming.
Context `{PyFloat} `{Pygame} `{OpenSimplexLib}.

(** X1. A resting mob with a positive wind-up [attack_startup] and a
    positive recovery time, the player alive and in reach at every
    update: the first update starts the wind-up; the mob stays in
    [attack_startup] until the first update at which the wind-up time
    has elapsed since that first update; it is in [attack_execute] after
    that update and no other; the next update puts it in
    [attack_recovery], where it stays until the first update at which
    the recovery time has elapsed since the update that left
    [attack_execute]; after that update it is in [attack_again]. *)
Theorem attack_cycle_timing (first strike leave again : Tick) (wait1 wait2 : list Tick)
    (m : Mob.t) (recovery : Q) :
  resting m -> collider_ok m ->
  (0 < Mob.attack_startup m)%Q ->
  Mob.attack_recovery m = Some recovery -> (0 < recovery)%Q ->
  engaged (first :: wait1 ++ strike :: leave :: wait2 ++ [again]) m ->
  Forall (fun tick => (inject_Z (now_of tick - now_of first)
                       < Mob.attack_startup m * 1000)%Q) wait1 ->
  (Mob.attack_startup m * 1000 <= inject_Z (now_of strike - now_of first))%Q ->
  Forall (fun tick => (inject_Z (now_of tick - now_of leave) < recovery * 1000)%Q)
    wait2 ->
  (recovery * 1000 <= inject_Z (now_of again - now_of leave))%Q ->
  exists ms,
    Mob_run (first :: wait1 ++ strike :: leave :: wait2 ++ [again]) m = Some ms
    /\ Mob.state <$> ms =
         replicate (S (length wait1)) MobState.attack_startup
         ++ [MobState.attack_execute]
         ++ replicate (S (length wait2)) MobState.attack_recovery
         ++ [MobState.attack_again].
Proof.
  intros Hrest Hok Hsu Hrc Hrc0 He Hw1 Hstrike Hw2 Hagain.
  (* the first update starts the wind-up *)
  destruct (engaged_step _ _ _ He Hok) as (m1 & w1 & E1 & Hr1 & He1 & Hok1 & P1 & P2).
  pose proof (step_engage _ _ _ _ _ _ E1 Hrest Hr1 Hsu) as Hwind.
  (* waiting *)
  destruct (run_wind (now_of first) wait1 (strike :: leave :: wait2 ++ [again]) m1
              Hwind Hok1 He1) as (ms1 & m2 & Hrun1 & Hst1 & Hlen1 & Hwind2 & Hok2 & He2 & Q1 & Q2).
  { rewrite P1. eapply Forall_impl; [exact Hw1|].
    intros tick Ht. now apply is_finished_not_yet. }
  (* the update that strikes *)
  destruct (engaged_step _ _ _ He2 Hok2) as (m3 & w3 & E3 & Hr3 & He3 & Hok3 & P3 & P4).
  assert (Hstruck : striking m3).
  { apply (step_strike _ _ _ _ _ _ E3 (now_of first) Hwind2 Hr3).
    apply is_finished_since. rewrite Q1, P1. exact Hstrike. }
  (* the update that leaves the execute state *)
  destruct (engaged_step _ _ _ He3 Hok3) as (m4 & w4 & E4 & Hr4 & He4 & Hok4 & P5 & P6).
  assert (Hrc3 : Mob.attack_recovery m3 = Some recovery) by congruence.
  assert (Hrec : recovering (now_of leave) m4).
  { apply (step_leave_execute _ _ _ _ _ _ E4 Hstruck (proj1 Hr4)).
    rewrite Hrc3. now apply is_finished_at_start. }
  assert (Hrc4 : Mob.attack_recovery m4 = Some recovery) by congruence.
  (* recovering *)
  destruct (run_rest (now_of leave) wait2 [again] m4 Hrec Hok4 He4)
    as (ms2 & m5 & Hrun2 & Hst2 & Hlen2 & Hrec5 & Hok5 & He5 & Q3).
  { rewrite Hrc4. eapply Forall_impl; [exact Hw2|].
    intros tick Ht. now apply is_finished_not_yet. }
  (* the update that reaches attack_again *)
  destruct (engaged_step _ _ _ He5 Hok5) as (m6 & w6 & E6 & Hr6 & _).
  assert (Hag : Mob.state m6 = MobState.attack_again).
  { apply (step_again _ _ _ _ _ _ E6 (now_of leave) Hrec5 Hr6).
    rewrite Q3, Hrc4. apply is_finished_since. exact Hagain. }
  exists (m1 :: ms1 ++ m3 :: m4 :: ms2 ++ [m6]). split.
  - rewrite (Mob_run_step _ _ _ _ _ E1), Hrun1.
    rewrite (Mob_run_step _ _ _ _ _ E3), (Mob_run_step _ _ _ _ _ E4), Hrun2.
    rewrite (Mob_run_step _ _ _ _ _ E6). reflexivity.
  - rewrite fmap_cons, fmap_app, !fmap_cons, fmap_app. cbn [fmap list_fmap].
    rewrite (fmap_constant _ _ _ Hst1), (fmap_constant _ _ _ Hst2), Hlen1, Hlen2.
    rewrite (proj1 Hwind), (proj1 Hstruck), (proj1 Hrec), Hag. reflexivity.
Qed.
End CycleTiming.

Ltac engaged_tick :=
  cbn [engaged]; split;
  [ unfold in_reach; repeat split; vm_compute; reflexivity
  | split;
    [ repeat split; vm_compute; congruence
    | let m' := fresh "m" in let w' := fresh "w" in let E := fresh "E" in
      intros m' w' E; vm_compute in E; injection E as <- <- ] ].

Lemma attack_cycle_timing_witness :
  let tick now := at_time now demo_world (1 # 60) in
  exists ms,
    @Mob_run demo_float demo_pygame demo_noise
      [tick 0; tick 100; tick 500; tick 516; tick 1000; tick 1516]
      (@Plower demo_assets 0 0 0) = Some ms
    /\ Mob.state <$> ms =
         [MobState.attack_startup; MobState.attack_startup; MobState.attack_execute;
          MobState.attack_recovery; MobState.attack_recovery; MobState.attack_again].
Proof.
  intros tick.
  apply (@attack_cycle_timing demo_float demo_pygame demo_noise
           (tick 0) (tick 500) (tick 516) (tick 1516) [tick 100] [tick 1000]
           (@Plower demo_assets 0 0 0) 1).
  - split; reflexivity.
  - left. reflexivity.
  - reflexivity.
  - reflexivity.
  - reflexivity.
  - do 6 engaged_tick. exact I.
  - repeat constructor.
  - vm_compute. discriminate.
  - repeat constructor.
  - vm_compute. discriminate.
Defined.

(** ** The updates of the mob classes *)

Section Classes.
Context `{PyFloat} `{Pygame} `{OpenSimplexLib} `{Assets} `{RandomLib}.

(** The shape shared by the four plain subclasses: [super().update],
    then the attack when the state is [attack_execute]. *)
Lemma subclass_update_inv (deliver : Mob.t -> World.t -> World.t)
    now world dt m m' world' :
  ('(self, world) ← Mob_update now world dt m;
   if state_is MobState.attack_execute self
   then Some (self, deliver self world) else Some (self, world)) = Some (m', world') ->
  exists world0,
    Mob_update now world dt m = Some (m', world0)
    /\ world' = if state_is MobState.attack_execute m' then deliver m' world0 else world0.
Proof.
  intros E. apply bind_Some in E as ([m1 w1] & E1 & E).
  destruct (state_is MobState.attack_execute m1) eqn:Es; injection E as <- <-;
    exists w1; rewrite Es; split; auto.
Qed.

Lemma state_is_true s m : state_is s m = true <-> Mob.state m = s.
Proof. unfold state_is. apply bool_decide_eq_true. Qed.

Lemma state_is_false s m : state_is s m = false <-> Mob.state m <> s.
Proof. unfold state_is. apply bool_decide_eq_false. Qed.

Lemma boss_configure_same next_attack class m :
  same_machine (Mob.set_class class (boss_configure next_attack m)) m.
Proof. destruct next_attack; repeat split. Qed.

(** Every update but a dormant boss's runs [Mob.update], on a mob with
    the same state machine, and then delivers the class's attack exactly
    when the state is [attack_execute]. *)
Lemma update_mob_inv now world dt g m m' world' g' :
  update_mob now world dt g m = Some (m', world', g') ->
  (dormant m /\ m' = m /\ world' = world /\ g' = g)
  \/ (~ dormant m
      /\ exists m0 world0,
           same_machine m0 m
           /\ Mob_update now world dt m0 = Some (m', world0)
           /\ ~ dormant m'
           /\ (Mob.state m' = MobState.attack_execute -> delivers now m' world0 world')
           /\ (Mob.state m' <> MobState.attack_execute -> world' = world0)).
Proof.
  unfold update_mob.
  assert (Hplain : forall deliver,
            (forall m' w0, Mob.class m' = Mob.class m ->
               Mob.state m' = MobState.attack_execute ->
               delivers now m' w0 (deliver m' w0)) ->
            (r0 ← ('(self, world) ← Mob_update now world dt m;
                   if state_is MobState.attack_execute self
                   then Some (self, deliver self world) else Some (self, world));
             Some (r0, g)) = Some (m', world', g') ->
            ~ dormant m ->
            ~ dormant m
            /\ exists m0 world0,
                 same_machine m0 m
                 /\ Mob_update now world dt m0 = Some (m', world0)
                 /\ ~ dormant m'
                 /\ (Mob.state m' = MobState.attack_execute ->
                     delivers now m' world0 world')
                 /\ (Mob.state m' <> MobState.attack_execute -> world' = world0)).
  { intros deliver Hdel E Hnd. split; [exact Hnd|].
    apply bind_Some in E as ([m1 w1] & E & [= -> -> <-]).
    apply subclass_update_inv in E as (w0 & E & ->).
    destruct (Mob_update_params _ _ _ _ _ _ E) as (_ & _ & _ & Hc & _).
    exists m, w0. split; [repeat split|]. split; [exact E|].
    split. { intros (na & t & Hd). apply Hnd. exists na, t. congruence. }
    split.
    - intros Hs. apply state_is_true in Hs as Hs'. rewrite Hs'. now apply Hdel.
    - intros Hs. apply state_is_false in Hs. now rewrite Hs. }
  destruct (Mob.class m) as [| | | | |na start timer] eqn:Hclass.
  - (* Mob *)
    intros E. right. apply bind_Some in E as ([m1 w1] & E & [= -> -> <-]).
    destruct (Mob_update_params _ _ _ _ _ _ E) as (_ & _ & _ & Hc & _).
    assert (Hnd : ~ dormant m) by (intros (? & ? & ?); congruence).
    split; [exact Hnd|]. exists m, world'. split; [repeat split|]. split; [exact E|].
    split. { intros (? & ? & ?); congruence. }
    split; [|reflexivity]. intros _. unfold delivers. now rewrite Hc, Hclass.
  - intros E. right.
    apply (Hplain (fun self world =>
                     World.set_mob_attack (World.mob_attack world ++ burster_volley self)
                       world));
      [|exact E|intros (? & ? & ?); congruence].
    intros m1 w0 Hc _. unfold delivers. now rewrite Hc.
  - intros E. right.
    apply (Hplain (fun self world =>
                     World.set_player (Player_get_damage 1 (World.player world)) world));
      [|exact E|intros (? & ? & ?); congruence].
    intros m1 w0 Hc _. unfold delivers. now rewrite Hc.
  - intros E. right.
    apply (Hplain (fun self world =>
                     World.set_player (Player_get_damage 1 (World.player world)) world));
      [|exact E|intros (? & ? & ?); congruence].
    intros m1 w0 Hc _. unfold delivers. now rewrite Hc.
  - intros E. right.
    apply (Hplain (fun self world =>
                     World.set_mob_attack (World.mob_attack world ++ [plower_wave now self])
                       world));
      [|exact E|intros (? & ? & ?); congruence].
    intros m1 w0 Hc _. unfold delivers. now rewrite Hc.
  - (* the boss *)
    unfold BossSelf_update. destruct start.
    2:{ intros [= <- <- <-]. left. split; [exists na, timer; exact Hclass|auto]. }
    intros E. right.
    assert (Hnd : ~ dormant m) by (intros (? & ? & ?); congruence).
    split; [exact Hnd|].
    destruct (if TimeKeeper.is_finished now timer
              then let '(next_attack, g0) :=
                     random_choice BossSelfState.projectile boss_patterns g in
                   let '(duration, g1) := random_uniform 1 10 g0 in
                   (next_attack, TimeKeeper.init now (Some duration), g1)
              else (na, timer, g)) as [[na1 timer1] g1].
    apply bind_Some in E as ([m1 w0] & E1 & E).
    destruct (Mob_update_params _ _ _ _ _ _ E1) as (_ & _ & _ & Hc & _).
    cbn [Mob.class Mob.set_class] in Hc.
    exists (Mob.set_class (cBossSelf na1 true timer1) (boss_configure na1 m)), w0.
    split; [apply boss_configure_same|].
    destruct (state_is MobState.attack_execute m1) eqn:Es.
    + assert (Hm : m1 = m' /\ delivers now m1 w0 world').
      { unfold delivers. rewrite Hc. destruct na1.
        - destruct (if Qeq_bool _ 0 && Qeq_bool _ 0 then _ else _) as [angle g2].
          injection E as <- <- <-. split; [reflexivity|]. now exists angle.
        - injection E as <- <- <-. split; reflexivity.
        - injection E as <- <- <-. split; reflexivity. }
      destruct Hm as [<- Hdel]. split; [exact E1|].
      split. { intros (? & ? & ?); congruence. }
      split; [auto|]. intros Hs. apply state_is_true in Es. contradiction.
    + injection E as <- <- <-. split; [exact E1|].
      split. { intros (? & ? & ?); congruence. }
      split; [|reflexivity]. intros Hs. apply state_is_false in Es. contradiction.
Qed.
(** The world [Mob.update] leaves: the player's pool without the
    projectiles that hit the mob. *)
Lemma resolved_world now world dt m m0 m' world0 :
  same_machine m0 m -> Mob_update now world dt m0 = Some (m', world0) ->
  world0 = World.set_player_attack
             (filter (fun a => survives_mob m a = true) (World.player_attack world))
             world.
Proof.
  intros Hsame E.
  destruct (Mob_update_spec _ _ _ _ _ _ E) as (_ & _ & _ & Hw & _).
  rewrite Hw. f_equal. apply list_filter_iff. intros a.
  destruct Hsame as (_ & _ & _ & _ & _ & _ & _ & Hc & _).
  unfold survives_mob, hits_mob. now rewrite Hc.
Qed.
End Classes.

(** ** One update in [attack_execute], one attack *)

Section ExecuteOnce.
Context `{PyFloat} `{Pygame} `{OpenSimplexLib} `{Assets} `{RandomLib}.

(** X2. When an update of a mob of any class puts it in
    [attack_execute], the next update with the player alive takes it out
    again and starts the recovery timer at that update's clock reading;
    the mob is then in [attack_recovery] whenever its recovery time is
    positive.  That second update adds nothing to the mob-attack pool or
    the mob list and leaves the player as it is. *)
Theorem execute_lasts_one_update
    (now1 now2 : Z) (world1 world2 world1' world2' : World.t) (dt1 dt2 : Q)
    (g1 g2 g1' g2' : RandomState) (m m1 m2 : Mob.t) :
  update_mob now1 world1 dt1 g1 m = Some (m1, world1', g1') ->
  Mob.state m <> MobState.attack_execute ->
  Mob.state m1 = MobState.attack_execute ->
  Player.alive (World.player world2) = true ->
  update_mob now2 world2 dt2 g2 m1 = Some (m2, world2', g2') ->
  Mob.state m2 <> MobState.attack_execute
  /\ Mob.attack_recovery_timer m2 = TimeKeeper.init now2 (Mob.attack_recovery m2)
  /\ (forall d, Mob.attack_recovery m2 = Some d -> (0 < d)%Q ->
        Mob.state m2 = MobState.attack_recovery)
  /\ World.mob_attack world2' = World.mob_attack world2
  /\ World.mob world2' = World.mob world2
  /\ World.player world2' = World.player world2.
Proof.
  intros E1 Hbefore Hentered Halive E2.
  apply update_mob_inv in E1 as [(_ & -> & _)|(_ & m0 & w0 & _ & E1 & Hawake & _)];
    [contradiction|].
  destruct (Mob_update_params _ _ _ _ _ _ E1) as (Hlast & _).
  apply update_mob_inv in E2
    as [(Hd & _)|(_ & m0' & w0' & Hsame & E2 & _ & _ & Hquiet)]; [contradiction|].
  destruct Hsame as (S1 & S2 & _).
  assert (Hstriking : striking m0') by (split; congruence).
  destruct (step_leave_execute _ _ _ _ _ _ E2 Hstriking Halive) as (Hleft & Htimer & Hrec).
  destruct (Mob_update_params _ _ _ _ _ _ E2) as (_ & _ & P2 & _).
  destruct (Mob_update_spec _ _ _ _ _ _ E2) as (_ & _ & _ & Hw & _).
  rewrite (Hquiet Hleft), Hw.
  split; [exact Hleft|]. split; [exact Htimer|]. split; [|repeat split].
  intros d Hd Hpos. apply Hrec. rewrite <- P2, Hd. now apply is_finished_at_start.
Qed.

(** X3. An update of a mob that is not a dormant boss resolves the
    player's attacks against the mob and, beyond that, changes the world
    exactly when it ends in [attack_execute].  It then delivers the
    attack of the class: a Burster appends its 120 fire balls and a
    Plower its shock wave to the mob-attack pool; the boss appends five
    projectiles or a shock wave to that pool, or four minions to the mob
    list; a Biter or Flutterer appends nothing and calls
    [player.get_damage(1)]. *)
Theorem attack_delivered_on_execute (now : Z) (world world' : World.t) (dt : Q)
    (g g' : RandomState) (m m' : Mob.t) :
  update_mob now world dt g m = Some (m', world', g') ->
  ~ dormant m ->
  let resolved :=
    World.set_player_attack
      (filter (fun a => survives_mob m a = true) (World.player_attack world)) world in
  (Mob.state m' = MobState.attack_execute -> delivers now m' resolved world')
  /\ (Mob.state m' <> MobState.attack_execute -> world' = resolved).
Proof.
  intros E Hawake resolved.
  apply update_mob_inv in E as [(Hd & _)|(_ & m0 & w0 & Hsame & E & _ & Hdel & Hquiet)];
    [contradiction|].
  subst resolved. rewrite <- (resolved_world _ _ _ _ _ _ _ Hsame E).
  split; assumption.
Qed.
End ExecuteOnce.

Lemma execute_lasts_one_update_witness :
  let update now := @update_mob demo_float demo_pygame demo_noise demo_assets demo_random
                      now demo_world (1 # 60) 0 in
  match update 0 (@Biter demo_assets 0 0 0) with
  | Some (m1, _, _) =>
      match update 16 m1 with
      | Some (m2, world2, _) =>
          Mob.state m1 = MobState.attack_execute
          /\ Mob.state m2 = MobState.attack_recovery
          /\ World.mob_attack world2 = []
      | None => False
      end
  | None => False
  end.
Proof.
  intros update.
  destruct (update 0 (@Biter demo_assets 0 0 0)) as [[[m1 w1] g1]|] eqn:F1.
  2:{ vm_compute in F1. discriminate. }
  pose proof F1 as F1'. vm_compute in F1'. injection F1' as Hm1 _ _.
  destruct (update 16 m1) as [[[m2 w2] g2]|] eqn:F2.
  2:{ rewrite <- Hm1 in F2. vm_compute in F2. discriminate. }
  pose proof F2 as F2'. rewrite <- Hm1 in F2'. vm_compute in F2'.
  injection F2' as Hm2 _ _.
  assert (Hs1 : Mob.state m1 = MobState.attack_execute)
    by (rewrite <- Hm1; reflexivity).
  destruct (@execute_lasts_one_update demo_float demo_pygame demo_noise demo_assets demo_random
              0 16 demo_world demo_world w1 w2 (1 # 60) (1 # 60) 0 0 g1 g2
              (@Biter demo_assets 0 0 0) m1 m2 F1)
    as (_ & _ & Hrec & Hpool & _); [discriminate|exact Hs1|reflexivity|exact F2|].
  split; [exact Hs1|]. split.
  - apply (Hrec (1 # 10)); [|reflexivity]. rewrite <- Hm2. reflexivity.
  - rewrite Hpool. reflexivity.
Defined.

Lemma attack_delivered_on_execute_witness :
  let update now := @update_mob demo_float demo_pygame demo_noise demo_assets demo_random
                      now demo_world (1 # 60) 0 in
  match update 0 (@Biter demo_assets 0 0 0) with
  | Some (m1, world1, _) =>
      World.mob_attack world1 = []
      /\ World.player world1 = Player_get_damage 1 (World.player demo_world)
  | None => False
  end.
Proof.
  intros update.
  destruct (update 0 (@Biter demo_assets 0 0 0)) as [[[m1 w1] g1]|] eqn:F1.
  2:{ vm_compute in F1. discriminate. }
  pose proof F1 as F1'. vm_compute in F1'. injection F1' as Hm1 _ _.
  destruct (@attack_delivered_on_execute demo_float demo_pygame demo_noise demo_assets demo_random
              0 demo_world w1 (1 # 60) 0 g1 (@Biter demo_assets 0 0 0) m1 F1)
    as (Hdel & _).
  { intros (na & t & Hd). discriminate. }
  assert (Hs : Mob.state m1 = MobState.attack_execute) by (rewrite <- Hm1; reflexivity).
  assert (Hc : Mob.class m1 = cBiter) by (rewrite <- Hm1; reflexivity).
  specialize (Hdel Hs). unfold delivers in Hdel. rewrite Hc in Hdel.
  rewrite Hdel. split; reflexivity.
Defined.

(** ** Hit resolution, position and the dead player *)

Section MobFrame.
Context `{PyFloat} `{Pygame} `{OpenSimplexLib} `{Assets} `{RandomLib}.

Lemma foldl_mob_damage_position (attacks : list Attack) (m : Mob.t) :
  Mob.x (foldl mob_damage m attacks) = Mob.x m
  /\ Mob.y (foldl mob_damage m attacks) = Mob.y m.
Proof.
  revert m. induction attacks as [|a attacks IH]; intros m; [split; reflexivity|].
  cbn [foldl]. destruct (IH (mob_damage m a)) as [-> ->].
  unfold mob_damage, Mob_get_damage.
  destruct (hits_mob m a); [|split; reflexivity].
  destruct (Mob.alive m); cbn;
    match goal with |- context [Qltb ?a 0] => destruct (Qltb a 0) end;
    split; reflexivity.
Qed.

(** The position after an update is the one the movement step left. *)
Lemma Mob_update_position now world dt m m' world' :
  Mob_update now world dt m = Some (m', world') ->
  exists m1,
    (if Player.alive (World.player world)
     then Mob_move world dt (Mob_transitions now (Mob_sense world m))
     else Some (Mob.set_state MobState.idle (Mob_sense world m))) = Some m1
    /\ Mob.x m' = Mob.x m1 /\ Mob.y m' = Mob.y m1.
Proof.
  unfold Mob_update. cbv zeta. intros E.
  apply bind_Some in E as (m1 & E1 & E). exists m1. split; [exact E1|].
  rewrite Mob_update_hp_spec in E. cbn [mbind option_bind] in E.
  apply bind_Some in E as (m3 & E3 & [= <- <-]).
  apply Mob_animate_keeps in E3 as (_ & _ & _ & X3 & Y3 & _).
  destruct (foldl_mob_damage_position (World.player_attack world) m1) as [X2 Y2].
  change (Mob.x m3 = Mob.x m1 /\ Mob.y m3 = Mob.y m1).
  rewrite X3, Y3.
  destruct (Qle_bool _ 0); cbn [Mob.x Mob.y Mob.set_alive]; auto.
Qed.

(** X4. Hit resolution in an update of a mob that is not a dormant
    boss: the mob takes [get_damage] for every attack of the player's
    pool its collider touches, in pool order; it is marked dead exactly
    when its hit points are then at zero or below, and stays dead if it
    was; the pool loses the touching projectiles, keeps every shock wave
    and every projectile that missed, in order. *)
Theorem update_resolves_hits (now : Z) (world world' : World.t) (dt : Q)
    (g g' : RandomState) (m m' : Mob.t) :
  update_mob now world dt g m = Some (m', world', g') ->
  ~ dormant m ->
  Mob.hp m' = Mob.hp (foldl mob_damage m (World.player_attack world))
  /\ Mob.alive m' = (if Qle_bool (Mob.hp m') 0 then false else Mob.alive m)
  /\ World.player_attack world'
     = filter (fun a => survives_mob m a = true) (World.player_attack world).
Proof.
  intros E Hawake.
  apply update_mob_inv in E as [(Hd & _)|(_ & m0 & w0 & Hsame & E & _ & Hdel & Hquiet)];
    [contradiction|].
  destruct Hsame as (_ & _ & _ & _ & _ & Hhp & Hal & Hc & _).
  destruct (Mob_update_spec _ _ _ _ _ _ E) as (_ & Hh & Ha & Hw & _).
  split; [|split].
  - rewrite Hh. now apply foldl_mob_damage_hp.
  - now rewrite Ha, Hal.
  - assert (Hpool : World.player_attack w0
              = filter (fun a => survives_mob m a = true) (World.player_attack world)).
    { rewrite Hw. cbn. apply list_filter_iff. intros a.
      unfold survives_mob, hits_mob. now rewrite Hc. }
    destruct (decide (Mob.state m' = MobState.attack_execute)) as [Hs|Hs].
    + specialize (Hdel Hs). unfold delivers in Hdel.
      destruct (Mob.class m') as [| | | | |[] ? ?];
        lazymatch type of Hdel with
        | ex _ => destruct Hdel as [angle ->]
        | _ => rewrite Hdel
        end; exact Hpool.
    + rewrite (Hquiet Hs). exact Hpool.
Qed.

(** X5. With the player dead, an update of a mob that is not a dormant
    boss leaves it idle, whatever state it was in, where it stood and
    with its timers as they were; no attack is delivered: beyond hit
    resolution the world is unchanged. *)
Theorem player_dead_mob_idle (now : Z) (world world' : World.t) (dt : Q)
    (g g' : RandomState) (m m' : Mob.t) :
  update_mob now world dt g m = Some (m', world', g') ->
  ~ dormant m ->
  Player.alive (World.player world) = false ->
  Mob.state m' = MobState.idle /\ Mob.last_state m' = MobState.idle
  /\ Mob.x m' = Mob.x m /\ Mob.y m' = Mob.y m
  /\ Mob.attack_startup_timer m' = Mob.attack_startup_timer m
  /\ Mob.attack_recovery_timer m' = Mob.attack_recovery_timer m
  /\ world' = World.set_player_attack
                (filter (fun a => survives_mob m a = true) (World.player_attack world))
                world.
Proof.
  intros E Hawake Hdead.
  apply update_mob_inv in E as [(Hd & _)|(_ & m0 & w0 & Hsame & E & _ & _ & Hquiet)];
    [contradiction|].
  destruct (Mob_update_spec _ _ _ _ _ _ E) as (Hc & _).
  apply control_remembered in Hc as (S1 & S2 & S3 & S4 & _).
  unfold Mob_decide in S1, S3, S4. rewrite Hdead in S1, S3, S4.
  cbn in S1, S3, S4.
  destruct (Mob_update_position _ _ _ _ _ _ E) as (m1 & E1 & X & Y).
  rewrite Hdead in E1. injection E1 as <-. cbn in X, Y.
  pose proof (resolved_world _ _ _ _ _ _ _ Hsame E) as Hw.
  destruct Hsame as (_ & _ & T1 & T2 & _ & _ & _ & _ & _ & _ & X0 & Y0).
  repeat split; try congruence.
  rewrite <- Hw. apply Hquiet. rewrite S1. discriminate.
Qed.
End MobFrame.

Lemma update_resolves_hits_witness :
  let far := Projectile.init 500 0 "ball" 1000 0 None 1 500 in
  let pool := [AProjectile demo_ball; AShockWave demo_wave; AProjectile far] in
  match @update_mob demo_float demo_pygame demo_noise demo_assets demo_random 0
          (World.set_player_attack pool demo_world) (1 # 60) 0
          (@Plower demo_assets 0 0 0) with
  | Some (m1, world1, _) =>
      Mob.hp m1 = 98%Q /\ Mob.alive m1 = true
      /\ World.player_attack world1 = [AShockWave demo_wave; AProjectile far]
  | None => False
  end.
Proof.
  intros far pool.
  destruct (@update_mob demo_float demo_pygame demo_noise demo_assets demo_random 0
              (World.set_player_attack pool demo_world) (1 # 60) 0
              (@Plower demo_assets 0 0 0)) as [[[m1 w1] g1]|] eqn:F1.
  2:{ vm_compute in F1. discriminate. }
  destruct (@update_resolves_hits demo_float demo_pygame demo_noise demo_assets demo_random
              _ _ _ _ _ _ _ _ F1) as (Hh & Ha & Hp).
  { intros (na & t & Hd). discriminate. }
  rewrite Ha, Hh, Hp. repeat split; vm_compute; reflexivity.
Defined.

Lemma player_dead_mob_idle_witness :
  let dead := Player.mk 0 0 0 100 0 false (Player.collider (Player_init 0 0)) in
  match @update_mob demo_float demo_pygame demo_noise demo_assets demo_random 0
          (World.set_player dead demo_world) (1 # 60) 0
          (Mob.set_state MobState.attack_execute (@Burster demo_assets 0 0 0)) with
  | Some (m1, world1, _) =>
      Mob.state m1 = MobState.idle /\ World.mob_attack world1 = []
  | None => False
  end.
Proof.
  intros dead.
  destruct (@update_mob demo_float demo_pygame demo_noise demo_assets demo_random 0
              (World.set_player dead demo_world) (1 # 60) 0
              (Mob.set_state MobState.attack_execute (@Burster demo_assets 0 0 0)))
    as [[[m1 w1] g1]|] eqn:F1.
  2:{ vm_compute in F1. discriminate. }
  destruct (@player_dead_mob_idle demo_float demo_pygame demo_noise demo_assets demo_random
              _ _ _ _ _ _ _ _ F1) as (Hs & _ & _ & _ & _ & _ & Hw).
  { intros (na & t & Hd). discriminate. }
  { reflexivity. }
  rewrite Hw. split; [exact Hs|reflexivity].
Defined.
